(** * OllamaRAG_Multi: text normaliser, chunker and ingestion pipeline

    A shallow embedding of [OllamaCAD/OllamaRAG_Multi.py].  Python strings
    are sequences of Unicode code points; they are modelled as lists of
    code points.  Python integers are unbounded and modelled by [Z]; list
    positions produced by [enumerate] are modelled by [nat].  Python floats
    and NumPy's [float32] are IEEE 754 numbers, modelled by [spec_float]
    with the operations of binary64 and binary32. *)

From Stdlib Require Import String Ascii.
From Stdlib Require Import List ZArith NArith Lia Bool Arith.
From Stdlib Require Import DecimalNat.
From Stdlib Require Import SpecFloat.
From Stdlib Require Import Reals Lra Psatz.
Import ListNotations.

Local Open Scope Z_scope.

(** ** Strings *)

Definition char := N.
Definition str := list char.

(** The code points of an ASCII literal of the source. *)
Definition lit (s : string) : str :=
  map N_of_ascii (list_ascii_of_string s).

Definition TAB : char := 9%N.
Definition NL : char := 10%N.
Definition CR : char := 13%N.
Definition SP : char := 32%N.

(** [len(s)] *)
Definition len (s : str) : Z := Z.of_nat (length s).

(** Python resolves a slice bound against the length [L]: a negative bound
    counts from the end, and every bound is clipped to [0 .. L]. *)
Definition clamp_index (L i : Z) : Z :=
  if i <? 0 then Z.max 0 (i + L) else Z.min i L.

(** [s[i:j]] *)
Definition slice (s : str) (i j : Z) : str :=
  let a := clamp_index (len s) i in
  let b := clamp_index (len s) j in
  firstn (Z.to_nat (b - a)) (skipn (Z.to_nat a) s).

(** [str.isspace] for one code point (CPython's [_PyUnicode_IsWhitespace]). *)
Definition is_space (c : char) : bool :=
  (((9 <=? c) && (c <=? 13)) || ((28 <=? c) && (c <=? 32))
   || (c =? 133) || (c =? 160) || (c =? 5760)
   || ((8192 <=? c) && (c <=? 8202))
   || (c =? 8232) || (c =? 8233) || (c =? 8239) || (c =? 8287)
   || (c =? 12288))%N.

Fixpoint drop_while (p : char -> bool) (s : str) : str :=
  match s with
  | [] => []
  | c :: s' => if p c then drop_while p s' else s
  end.

Definition lstrip (s : str) : str := drop_while is_space s.
Definition rstrip (s : str) : str := rev (drop_while is_space (rev s)).

(** [s.strip()] *)
Definition strip (s : str) : str := rstrip (lstrip s).

(** ** normalize_ws *)

(** [text.replace("\r\n", "\n")]: left to right, occurrences do not overlap. *)
Fixpoint replace_crlf (s : str) : str :=
  match s with
  | [] => []
  | c :: s' =>
      match s' with
      | c2 :: s'' =>
          if ((c =? CR) && (c2 =? NL))%N then NL :: replace_crlf s''
          else c :: replace_crlf s'
      | [] => [c]
      end
  end.

(** [text.replace("\r", "\n")] *)
Definition replace_cr (s : str) : str :=
  map (fun c => if (c =? CR)%N then NL else c) s.

(** The character class [[ \t]]. *)
Definition is_blank (c : char) : bool := ((c =? SP) || (c =? TAB))%N.

(** [re.sub(r"[ \t]+", " ", text)].  The greedy match starts at the first
    blank of a run and consumes the whole run; [in_run] records that the
    scan is inside a run whose replacement has already been emitted. *)
Fixpoint sub_blanks_from (in_run : bool) (s : str) : str :=
  match s with
  | [] => []
  | c :: s' =>
      if is_blank c then
        if in_run then sub_blanks_from true s'
        else SP :: sub_blanks_from true s'
      else c :: sub_blanks_from false s'
  end.

Definition sub_blanks (s : str) : str := sub_blanks_from false s.

(** What a maximal run of [k] newlines becomes under
    [re.sub(r"\n{3,}", "\n\n", text)]: a run shorter than three does not
    match and is copied, a longer one matches as a whole. *)
Definition flush_newlines (k : nat) : str :=
  if (3 <=? k)%nat then [NL; NL] else repeat NL k.

(** [re.sub(r"\n{3,}", "\n\n", text)]; [k] counts the newlines of the run
    being scanned. *)
Fixpoint sub_newlines_from (k : nat) (s : str) : str :=
  match s with
  | [] => flush_newlines k
  | c :: s' =>
      if (c =? NL)%N then sub_newlines_from (S k) s'
      else flush_newlines k ++ c :: sub_newlines_from 0 s'
  end.

Definition sub_newlines (s : str) : str := sub_newlines_from 0 s.

Definition normalize_ws (text : str) : str :=
  let text := replace_cr (replace_crlf text) in
  let text := sub_blanks text in
  let text := sub_newlines text in
  strip text.

(** ** chunk_text *)

(** The [while] loop of [chunk_text].  The loop need not terminate, so the
    model counts iterations: [None] means that [fuel] iterations did not
    reach an exit. *)
Fixpoint chunk_loop (fuel : nat) (text : str) (chunk_chars overlap : Z)
    (start : Z) (chunks : list str) : option (list str) :=
  match fuel with
  | O => None
  | S fuel' =>
      if start <? len text then
        let end_ := Z.min (len text) (start + chunk_chars) in
        let chunks := chunks ++ [slice text start end_] in
        if end_ =? len text then Some chunks
        else chunk_loop fuel' text chunk_chars overlap
               (Z.max 0 (end_ - overlap)) chunks
      else Some chunks
  end.

Definition chunk_text (fuel : nat) (text : str) (chunk_chars overlap : Z)
    : option (list str) :=
  let text := normalize_ws text in
  match text with
  | [] => Some []
  | _ => chunk_loop fuel text chunk_chars overlap 0 []
  end.

(** [ceil(a / b)] for [b > 0]. *)
Definition cdiv (a b : Z) : Z := (a + b - 1) / b.

(** The windows the chunker is specified to cut from a text of length [L]:
    window [i] starts at [i * (C - O)] and extends for [C] characters or to
    the end of the text. *)
Definition window_count (L C O : Z) : Z :=
  if L <=? 0 then 0 else if O <? L then cdiv (L - O) (C - O) else 1.

Definition window (L C O : Z) (i : nat) : Z * Z :=
  let s := Z.of_nat i * (C - O) in (s, Z.min L (s + C)).

Definition windows (L C O : Z) : list (Z * Z) :=
  map (window L C O) (seq 0 (Z.to_nat (window_count L C O))).

Definition cut (text : str) (w : Z * Z) : str := slice text (fst w) (snd w).

(** ** Formatting, joining and dictionaries *)

Fixpoint uint_chars (d : Decimal.uint) : str :=
  match d with
  | Decimal.Nil => []
  | Decimal.D0 d => 48%N :: uint_chars d
  | Decimal.D1 d => 49%N :: uint_chars d
  | Decimal.D2 d => 50%N :: uint_chars d
  | Decimal.D3 d => 51%N :: uint_chars d
  | Decimal.D4 d => 52%N :: uint_chars d
  | Decimal.D5 d => 53%N :: uint_chars d
  | Decimal.D6 d => 54%N :: uint_chars d
  | Decimal.D7 d => 55%N :: uint_chars d
  | Decimal.D8 d => 56%N :: uint_chars d
  | Decimal.D9 d => 57%N :: uint_chars d
  end.

(** [str(n)] and [f"{n}"] for a non-negative integer. *)
Definition str_of_nat (n : nat) : str := uint_chars (Nat.to_uint n).

(** [f"{n:03d}"] for a non-negative integer: zero-padded to width three,
    longer numbers are printed in full. *)
Definition fmt03 (n : nat) : str :=
  let ds := str_of_nat n in
  repeat 48%N (3 - length ds) ++ ds.

Definition is_digit (c : char) : bool := ((48 <=? c) && (c <=? 57))%N.

(** [sep.join(parts)] *)
Fixpoint join (sep : str) (parts : list str) : str :=
  match parts with
  | [] => []
  | [p] => p
  | p :: rest => p ++ sep ++ join sep rest
  end.

(** [enumerate(l)] *)
Definition enumerate {A : Type} (l : list A) : list (nat * A) :=
  combine (seq 0 (length l)) l.

Definition str_eqb (a b : str) : bool :=
  if list_eq_dec N.eq_dec a b then true else false.

(** [x in (a, b, ...)] for strings. *)
Definition str_in (x : str) (l : list str) : bool := existsb (str_eqb x) l.

(** A [dict] with string keys, in insertion order; [dict_set d k v] is
    [d[k] = v]. *)
Definition dict (V : Type) := list (str * V).

Fixpoint dict_set {V : Type} (d : dict V) (k : str) (v : V) : dict V :=
  match d with
  | [] => [(k, v)]
  | (k', v') :: d' =>
      if str_eqb k k' then (k', v) :: d' else (k', v') :: dict_set d' k v
  end.

(** ** Paths *)

Inductive os_kind := Posix | Nt.

(** [os.sep] *)
Definition os_sep (o : os_kind) : char :=
  match o with Posix => 47%N | Nt => 92%N end.

(** [os.sep] and [os.altsep] *)
Definition os_seps (o : os_kind) : list char :=
  match o with Posix => [47%N] | Nt => [92%N; 47%N] end.

(** The position of the last character of [p] that satisfies [f], or [-1]
    ([max] of the [rfind] results in [genericpath._splitext]). *)
Fixpoint rfind_from (f : char -> bool) (p : str) (i : Z) (found : Z) : Z :=
  match p with
  | [] => found
  | c :: p' => rfind_from f p' (i + 1) (if f c then i else found)
  end.

Definition rfind (f : char -> bool) (p : str) : Z := rfind_from f p 0 (-1).

Definition DOT : char := 46%N.

(** [os.path.splitext(p)[1]]: the extension starts at the last dot, when
    that dot comes after the last separator and after a character of the
    file name that is not a dot. *)
Definition splitext_ext (o : os_kind) (p : str) : str :=
  let sepIndex := rfind (fun c => existsb (N.eqb c) (os_seps o)) p in
  let dotIndex := rfind (N.eqb DOT) p in
  if sepIndex <? dotIndex then
    if existsb (fun c => negb (c =? DOT)%N) (slice p (sepIndex + 1) dotIndex)
    then skipn (Z.to_nat dotIndex) p
    else []
  else [].

(** [s.replace("\\", "/")] *)
Definition slashes (s : str) : str :=
  map (fun c => if (c =? 92)%N then 47%N else c) s.

Definition exts_pdf : list str := [lit ".pdf"].
Definition exts_img : list str :=
  [lit ".png"; lit ".jpg"; lit ".jpeg"; lit ".bmp"; lit ".tif"; lit ".tiff";
   lit ".webp"].
Definition exts_txt : list str :=
  [lit ".txt"; lit ".md"; lit ".log"; lit ".json"; lit ".xml"; lit ".html"].
Definition exts_csv : list str := [lit ".csv"].
Definition exts_xlsx : list str := [lit ".xlsx"; lit ".xls"; lit ".xlsm"].

Definition supported_exts : list str :=
  exts_pdf ++ exts_img ++ exts_txt ++ exts_csv ++ exts_xlsx.

(** ** Configuration, records and state *)

Record PipelineConfig := {
  poppler_path : option str;
  ocr_model : str;
  qa_model : str;
  embed_model : str;
  dpi : Z;
  max_ocr_img_side : Z;
  chunk_chars : Z;
  chunk_overlap : Z;
  top_k : Z;
  work_dir : str;
  index_name : str;
  meta_name : str;
  manifest_name : str
}.

(** The metadata dictionaries appended to [meta].  A key that a file type
    does not set ([page], [sheet], [row]) is [None]. *)
Record MetaRecord := {
  source : str;
  rel : str;
  file_type : str;
  page : option nat;
  sheet : option str;
  row : option nat;
  chunk_id : nat;
  tag : str;
  text : str
}.

(** What [pd.read_excel(..., dtype=str)] gives for one sheet: the column
    labels ([None], or the label's [str]) and the rows of cells, a missing
    cell (NaN) being [None]. *)
Record DataFrame := {
  columns : list (option str);
  rows : list (list (option str))
}.

Inductive exn :=
| FileNotFoundError (arg : str)
| RuntimeError (msg : str)
| IndexError
| AttributeError
| ValueError.

(** Requests sent to the model server. *)
Inductive Call :=
| CallVision (model : str)
| CallEmbeddings (model prompt : str)
| CallChat (model system user : str).

Section Pipeline.

(** Decoded images and embedding vectors are opaque to the pipeline. *)
Variables image vec : Type.

(** The file system, the libraries and the model server the pipeline talks
    to.  A path below the ingested folder is identified by its path relative
    to that folder, in the form [os.path.relpath] returns it; its extension
    is that of its last component.  Every call to them returns: errors
    raised inside the libraries (a malformed file, a full disk, a server
    that does not answer) are not modelled.  The errors of the model are
    the ones the pipeline raises itself and the library errors it can run
    into by its own doing ([np.vstack] of no vectors, a list index out of
    range, a search in an index that was never built). *)
Record Env := {
  os : os_kind;
  lower : str -> str;                      (* str.lower *)
  abspath : str -> str;                    (* os.path.abspath *)
  isdir : str -> bool;                     (* os.path.isdir *)
  walk : str -> list str;                  (* files found by os.walk, in order *)
  sha256_file : str -> str;
  have_pdf2image : bool;                   (* convert_from_path is not None *)
  convert_from_path : str -> list image;
  image_open : str -> image;
  vision_chat : str -> image -> str;       (* ollama.chat with an image *)
  read_text : str -> str;
  csv_reader : str -> list (list str);
  have_pandas : bool;                      (* pd is not None *)
  read_excel : str -> list (str * DataFrame);
  embeddings : str -> str -> vec;          (* ollama.embeddings *)
  l2_normalize : vec -> vec;               (* lines 133-134; see embedding_row *)
  index_search : list vec -> vec -> Z -> list Z;   (* IndexFlatIP.search, I[0] *)
  text_chat : str -> str -> str -> str     (* ollama.chat, system and user *)
}.

(** The three files of the store directory; the manifest is its ["files"]
    dictionary, from relative path to content hash. *)
Record Disk := {
  index_file : option (list vec);
  meta_file : option (list MetaRecord);
  manifest_file : option (dict str)
}.

(** A [RAGPipeline] object with the disk it works on and the requests made
    so far. *)
Record State := {
  store_index : option (list vec);
  meta : list MetaRecord;
  disk : Disk;
  calls : list Call
}.

Inductive outcome (A : Type) : Type :=
| Ret (a : A) (s : State)
| Raise (e : exn) (s : State)
| Diverge.

Arguments Ret {A} a s.
Arguments Raise {A} e s.
Arguments Diverge {A}.

Definition M (A : Type) : Type := State -> outcome A.

Definition ret {A : Type} (a : A) : M A := fun s => Ret a s.

Definition bind {A B : Type} (m : M A) (k : A -> M B) : M B :=
  fun s =>
    match m s with
    | Ret a s' => k a s'
    | Raise e s' => Raise e s'
    | Diverge => Diverge
    end.

Definition raise {A : Type} (e : exn) : M A := fun s => Raise e s.

Definition get : M State := fun s => Ret s s.

Definition modify (f : State -> State) : M unit := fun s => Ret tt (f s).

Notation "x <- m ;; k" := (bind m (fun x => k))
  (at level 61, m at next level, right associativity).
Notation "m ;;; k" := (bind m (fun _ => k))
  (at level 61, right associativity).

(** [for x in l: acc = body(acc, x)] *)
Fixpoint for_each {A B : Type} (l : list A) (body : B -> A -> M B) (acc : B)
    : M B :=
  match l with
  | [] => ret acc
  | x :: l' => acc' <- body acc x ;; for_each l' body acc'
  end.

Definition log_call (c : Call) : M unit :=
  modify (fun s => {| store_index := store_index s; meta := meta s;
                      disk := disk s; calls := calls s ++ [c] |}).

Variable env : Env.
Variable cfg : PipelineConfig.

(** ** The clients *)

(** [OllamaOCR.ocr_image]; scaling and encoding of the image happen on the
    way to the model and are part of [vision_chat]. *)
Definition ocr_image (img : image) : M str :=
  log_call (CallVision (ocr_model cfg)) ;;;
  ret (normalize_ws (vision_chat env (ocr_model cfg) img)).

(** [OllamaEmbedder.embed]; [np.vstack] refuses an empty list. *)
Definition embed (texts : list str) : M (list vec) :=
  vecs <- for_each texts
            (fun vecs t =>
               log_call (CallEmbeddings (embed_model cfg) t) ;;;
               ret (vecs ++ [l2_normalize env (embeddings env (embed_model cfg) t)]))
            [] ;;
  match vecs with
  | [] => raise ValueError
  | _ => ret vecs
  end.

Definition qa_system : str :=
  lit "You answer questions using ONLY the provided context." ++ [NL] ++
  lit "Rules:" ++ [NL] ++
  lit "- Plain text only." ++ [NL] ++
  lit "- If the answer isn't in the context, say: I don't know (not in RAG folder)." ++ [NL] ++
  lit "- Cite sources using tags like [file:... p003 c001] or [file:... sheet:... row012 c000]." ++ [NL].

(** [OllamaQA.answer] *)
Definition qa_answer (question : str) (contexts : list MetaRecord) : M str :=
  let ctx_blocks := map (fun c => tag c ++ [NL] ++ text c ++ [NL]) contexts in
  let context_text := join ([NL] ++ lit "---" ++ [NL]) ctx_blocks in
  let user :=
    lit "CONTEXT:" ++ [NL] ++ context_text ++ [NL; NL] ++
    lit "QUESTION:" ++ [NL] ++ question ++ [NL; NL] ++
    lit "Write the best possible answer with citations." in
  log_call (CallChat (qa_model cfg) qa_system user) ;;;
  ret (strip (text_chat env (qa_model cfg) qa_system user)).

(** ** Ingestion *)

Definition ext_of (p : str) : str := splitext_ext (os env) (lower env p).

Definition supported (p : str) : bool := str_in (ext_of p) supported_exts.

(** [os.path.join(folder, p)] for a relative [p] and a folder as
    [os.path.abspath] returns it: a separator is put between the two unless
    the folder is empty or ends with a separator, as a root folder does. *)
Definition path_join (folder p : str) : str :=
  match rev folder with
  | [] => p
  | c :: _ =>
      if existsb (N.eqb c) (os_seps (os env)) then folder ++ p
      else folder ++ [os_sep (os env)] ++ p
  end.

(** The lists [all_chunks] and [meta] that the loops append to. *)
Definition Acc : Type := list str * list MetaRecord.

(** [for ci, ch in enumerate(chunks): all_chunks.append(ch); meta.append(mk ci ch)] *)
Definition add_chunks (mk : nat -> str -> MetaRecord) (chunks : list str)
    (acc : Acc) : Acc :=
  fold_left (fun a x => (fst a ++ [snd x], snd a ++ [mk (fst x) (snd x)]))
    (enumerate chunks) acc.

Definition chunk_text_m (fuel : nat) (t : str) : M (list str) :=
  match chunk_text fuel t (chunk_chars cfg) (chunk_overlap cfg) with
  | Some chunks => ret chunks
  | None => fun _ => Diverge
  end.

Definition pdf_record (path rel_ : str) (page_ : nat) (ci : nat) (ch : str)
    : MetaRecord :=
  {| source := abspath env path; rel := rel_; file_type := lit "pdf";
     page := Some page_; sheet := None; row := None; chunk_id := ci;
     tag := lit "[file:" ++ rel_ ++ lit " p" ++ fmt03 page_ ++ lit " c"
            ++ fmt03 ci ++ lit "]";
     text := ch |}.

Definition chunk_record (ftype path rel_ : str) (ci : nat) (ch : str)
    : MetaRecord :=
  {| source := abspath env path; rel := rel_; file_type := ftype;
     page := None; sheet := None; row := None; chunk_id := ci;
     tag := lit "[file:" ++ rel_ ++ lit " c" ++ fmt03 ci ++ lit "]";
     text := ch |}.

Definition csv_record (path rel_ : str) (r_i : nat) (line : str) : MetaRecord :=
  {| source := abspath env path; rel := rel_; file_type := lit "csv";
     page := None; sheet := None; row := Some r_i; chunk_id := 0%nat;
     tag := lit "[file:" ++ rel_ ++ lit " row" ++ fmt03 r_i ++ lit " c000]";
     text := line |}.

Definition excel_record (path rel_ sheet_name : str) (r_i : nat) (line : str)
    : MetaRecord :=
  {| source := abspath env path; rel := rel_; file_type := lit "excel";
     page := None; sheet := Some sheet_name; row := Some r_i;
     chunk_id := 0%nat;
     tag := lit "[file:" ++ rel_ ++ lit " sheet:" ++ sheet_name ++ lit " row"
            ++ fmt03 r_i ++ lit " c000]";
     text := line |}.

(** The body shared by the row loops: a row whose line is blank is skipped. *)
Definition add_row (mk : nat -> str -> MetaRecord) (r_i : nat) (line : str)
    (acc : Acc) : Acc :=
  match strip line with
  | [] => acc
  | _ => (fst acc ++ [line], snd acc ++ [mk r_i line])
  end.

Definition csv_line (row_ : list str) : str :=
  join (lit " | ") (map strip row_).

(** [RAGPipeline._format_df_row] *)
Fixpoint format_df_parts (cols : list str) (values : list (option str))
    : list str :=
  match cols, values with
  | c :: cols', v :: values' =>
      match v with
      | None => format_df_parts cols' values'
      | Some sv =>
          let s := strip sv in
          if match s with [] => true | _ => false end
             || str_in (lower env s) [lit "nan"; lit "none"]
          then format_df_parts cols' values'
          else (c ++ lit "=" ++ s) :: format_df_parts cols' values'
      end
  | _, _ => []
  end.

Definition format_df_row (cols : list str) (values : list (option str)) : str :=
  strip (join (lit " | ") (format_df_parts cols values)).

(** The two passes over [df.columns]. *)
Definition normalize_columns (cs : list (option str)) : list str :=
  let cols := map (fun c => match c with Some c => strip c | None => [] end) cs in
  map (fun jc => match snd jc with
                 | [] => lit "col" ++ str_of_nat (fst jc)
                 | c => c
                 end) (enumerate cols).

(** [df.fillna("")] on a row. *)
Definition fillna (r : list (option str)) : list (option str) :=
  map (fun v => match v with Some s => Some s | None => Some [] end) r.

(** [df.empty] *)
Definition df_empty (df : DataFrame) : bool :=
  match columns df, rows df with
  | [], _ => true
  | _, [] => true
  | _, _ => false
  end.

Definition ingest_pdf (fuel : nat) (path rel_ : str) (acc : Acc) : M Acc :=
  if negb (have_pdf2image env) then
    raise (RuntimeError (lit "pdf2image not installed or failed to import."))
  else
    for_each (enumerate (convert_from_path env path))
      (fun acc iimg =>
         let page_ := (fst iimg + 1)%nat in
         t <- ocr_image (snd iimg) ;;
         chunks <- chunk_text_m fuel t ;;
         ret (add_chunks (pdf_record path rel_ page_) chunks acc))
      acc.

Definition ingest_image (fuel : nat) (path rel_ : str) (acc : Acc) : M Acc :=
  t <- ocr_image (image_open env path) ;;
  chunks <- chunk_text_m fuel t ;;
  ret (add_chunks (chunk_record (lit "image") path rel_) chunks acc).

Definition ingest_text (fuel : nat) (path rel_ : str) (acc : Acc) : M Acc :=
  let t := normalize_ws (read_text env path) in
  chunks <- chunk_text_m fuel t ;;
  ret (add_chunks (chunk_record (lit "text") path rel_) chunks acc).

Definition ingest_csv (path rel_ : str) (acc : Acc) : M Acc :=
  ret (fold_left
         (fun a x => add_row (csv_record path rel_) (fst x) (csv_line (snd x)) a)
         (enumerate (csv_reader env path)) acc).

Definition ingest_sheet (path rel_ : str) (acc : Acc) (sh : str * DataFrame)
    : Acc :=
  let df := snd sh in
  if df_empty df then acc
  else
    let cols := normalize_columns (columns df) in
    fold_left
      (fun a x =>
         add_row (excel_record path rel_ (fst sh)) (fst x)
           (format_df_row cols (fillna (snd x))) a)
      (enumerate (rows df)) acc.

Definition ingest_excel (path rel_ : str) (acc : Acc) : M Acc :=
  if negb (have_pandas env) then
    raise (RuntimeError (lit "pandas not installed. Run: pip install pandas openpyxl"))
  else
    ret (fold_left (ingest_sheet path rel_) (read_excel env path) acc).

(** The body of [for path in files]; [p] is the path relative to [folder]. *)
Definition ingest_file (fuel : nat) (folder : str)
    (st : Acc * dict str) (p : str) : M (Acc * dict str) :=
  let path := path_join folder p in
  let ext := ext_of p in
  let rel_ := slashes p in
  let prev := dict_set (snd st) rel_ (sha256_file env path) in
  let acc := fst st in
  acc' <-
    (if str_eqb ext (lit ".pdf") then ingest_pdf fuel path rel_ acc
     else if str_in ext exts_img then ingest_image fuel path rel_ acc
     else if str_in ext exts_txt then ingest_text fuel path rel_ acc
     else if str_in ext exts_csv then ingest_csv path rel_ acc
     else if str_in ext exts_xlsx then ingest_excel path rel_ acc
     else ret acc) ;;
  ret (acc', prev).

(** [RAGPipeline._load_manifest], its ["files"] entry. *)
Definition load_manifest : M (dict str) :=
  s <- get ;;
  match manifest_file (disk s) with
  | None => ret []
  | Some m => ret m
  end.

(** [self.store.build(vectors); self.meta = meta] *)
Definition set_index (vectors : list vec) (meta_ : list MetaRecord) : M unit :=
  modify (fun s => {| store_index := Some vectors; meta := meta_;
                      disk := disk s; calls := calls s |}).

(** [self.store.save(idx_path)] *)
Definition save_index : M unit :=
  s <- get ;;
  match store_index s with
  | None => raise AttributeError
  | Some ix =>
      modify (fun s => {| store_index := store_index s; meta := meta s;
                          disk := {| index_file := Some ix;
                                     meta_file := meta_file (disk s);
                                     manifest_file := manifest_file (disk s) |};
                          calls := calls s |})
  end.

(** [pickle.dump(self.meta, f)] *)
Definition save_meta : M unit :=
  modify (fun s => {| store_index := store_index s; meta := meta s;
                      disk := {| index_file := index_file (disk s);
                                 meta_file := Some (meta s);
                                 manifest_file := manifest_file (disk s) |};
                      calls := calls s |}).

(** [RAGPipeline._save_manifest] *)
Definition save_manifest (m : dict str) : M unit :=
  modify (fun s => {| store_index := store_index s; meta := meta s;
                      disk := {| index_file := index_file (disk s);
                                 meta_file := meta_file (disk s);
                                 manifest_file := Some m |};
                      calls := calls s |}).

(** [RAGPipeline.ingest_folder]; the progress lines printed at the end are
    not part of the state. *)
Definition ingest_folder (fuel : nat) (folder : str) : M unit :=
  let folder := abspath env folder in
  if negb (isdir env folder) then raise (FileNotFoundError folder)
  else
    prev <- load_manifest ;;
    let files := filter supported (walk env folder) in
    match files with
    | [] => raise (RuntimeError (lit "No supported files found in folder."))
    | _ =>
        r <- for_each files (ingest_file fuel folder) (([], []), prev) ;;
        let all_chunks := fst (fst r) in
        let meta_ := snd (fst r) in
        match all_chunks with
        | [] => raise (RuntimeError (lit "No text extracted from supported files."))
        | _ =>
            vectors <- embed all_chunks ;;
            set_index vectors meta_ ;;;
            save_index ;;;
            save_meta ;;;
            save_manifest (snd r)
        end
    end.

(** ** Query *)

(** [FaissStore.search] *)
Definition store_search (qvec : vec) (k : Z) : M (list Z) :=
  s <- get ;;
  match store_index s with
  | None => raise AttributeError
  | Some ix => ret (index_search env ix qvec k)
  end.

(** [[self.meta[i] for i in idxs if i >= 0]] *)
Definition contexts_of (idxs : list Z) : M (list MetaRecord) :=
  s <- get ;;
  for_each idxs
    (fun ctx i =>
       if 0 <=? i then
         match nth_error (meta s) (Z.to_nat i) with
         | Some m => ret (ctx ++ [m])
         | None => raise IndexError
         end
       else ret ctx)
    [].

Definition dont_know : str := lit "I don't know (not in RAG folder).".

(** [RAGPipeline.query] *)
Definition query (question : str) : M str :=
  vecs <- embed [question] ;;
  match vecs with
  | [] => raise IndexError
  | qvec :: _ =>
      idxs <- store_search qvec (top_k cfg) ;;
      contexts <- contexts_of idxs ;;
      match contexts with
      | [] => ret dont_know
      | _ => qa_answer question contexts
      end
  end.

End Pipeline.

Arguments Ret {vec A} a s.
Arguments Raise {vec A} e s.
Arguments Diverge {vec A}.
Arguments os {image vec} e.
Arguments lower {image vec} e _.
Arguments abspath {image vec} e _.
Arguments isdir {image vec} e _.
Arguments walk {image vec} e _.
Arguments sha256_file {image vec} e _.
Arguments have_pdf2image {image vec} e.
Arguments convert_from_path {image vec} e _.
Arguments image_open {image vec} e _.
Arguments vision_chat {image vec} e _ _.
Arguments read_text {image vec} e _.
Arguments csv_reader {image vec} e _.
Arguments have_pandas {image vec} e.
Arguments read_excel {image vec} e _.
Arguments embeddings {image vec} e _ _.
Arguments l2_normalize {image vec} e _.
Arguments index_search {image vec} e _ _ _.
Arguments text_chat {image vec} e _ _ _.
Arguments index_file {vec} d.
Arguments meta_file {vec} d.
Arguments manifest_file {vec} d.
Arguments store_index {vec} s.
Arguments meta {vec} s.
Arguments disk {vec} s.
Arguments calls {vec} s.
Arguments ret {vec A} a s.
Arguments bind {vec A B} m k s.
Arguments raise {vec A} e s.
Arguments get {vec} s.
Arguments modify {vec} f s.
Arguments for_each {vec A B} l body acc s.
Arguments log_call {vec} c s.
Arguments ocr_image {image vec} env cfg img s.
Arguments embed {image vec} env cfg texts s.
Arguments qa_answer {image vec} env cfg question contexts s.
Arguments ext_of {image vec} env p.
Arguments supported {image vec} env p.
Arguments path_join {image vec} env folder p.
Arguments chunk_text_m {vec} cfg fuel t s.
Arguments pdf_record {image vec} env path rel_ page_ ci ch.
Arguments chunk_record {image vec} env ftype path rel_ ci ch.
Arguments csv_record {image vec} env path rel_ r_i line.
Arguments excel_record {image vec} env path rel_ sheet_name r_i line.
Arguments format_df_parts {image vec} env cols values.
Arguments format_df_row {image vec} env cols values.
Arguments ingest_pdf {image vec} env cfg fuel path rel_ acc s.
Arguments ingest_image {image vec} env cfg fuel path rel_ acc s.
Arguments ingest_text {image vec} env cfg fuel path rel_ acc s.
Arguments ingest_csv {image vec} env path rel_ acc s.
Arguments ingest_sheet {image vec} env path rel_ acc sh.
Arguments ingest_excel {image vec} env path rel_ acc s.
Arguments ingest_file {image vec} env cfg fuel folder st p s.
Arguments load_manifest {vec} s.
Arguments set_index {vec} vectors meta_ s.
Arguments save_index {vec} s.
Arguments save_meta {vec} s.
Arguments save_manifest {vec} m s.
Arguments ingest_folder {image vec} env cfg fuel folder s.
Arguments store_search {image vec} env qvec k s.
Arguments contexts_of {vec} idxs s.
Arguments query {image vec} env cfg question s.

(** ** Normal forms of the normaliser *)

(** No carriage return is left. *)
Definition no_cr (s : str) : Prop := Forall (fun c => c <> CR) s.

(** Every blank is a single space: no tab, and no blank that follows a
    blank ([prev] tells whether the character before [s] is a blank). *)
Fixpoint blanks_ok (prev : bool) (s : str) : bool :=
  match s with
  | [] => true
  | c :: s' =>
      if is_blank c then (c =? SP)%N && negb prev && blanks_ok true s'
      else blanks_ok false s'
  end.

(** No three newlines in a row ([k] newlines come just before [s]). *)
Fixpoint newlines_ok (k : nat) (s : str) : bool :=
  match s with
  | [] => true
  | c :: s' =>
      if (c =? NL)%N then (k <? 2)%nat && newlines_ok (S k) s'
      else newlines_ok 0 s'
  end.

(** The string does not begin with white space. *)
Definition head_ok (s : str) : Prop :=
  match s with
  | [] => True
  | c :: _ => is_space c = false
  end.


(** ** Tag provenance *)

(** The unit of text a metadata record stands for, as its fields tell it. *)
Inductive unit_id :=
| UPage (rel_ : str) (page_ ci : nat)
| UChunk (rel_ : str) (ci : nat)
| URow (rel_ : str) (r_i : nat)
| USheetRow (rel_ sheet_name : str) (r_i : nat).

Definition unit_of (m : MetaRecord) : unit_id :=
  match page m, sheet m, row m with
  | Some p, _, _ => UPage (rel m) p (chunk_id m)
  | None, Some sh, Some r => USheetRow (rel m) sh r
  | None, None, Some r => URow (rel m) r
  | None, _, None => UChunk (rel m) (chunk_id m)
  end.

(** The citation tag formats, by unit. *)
Definition unit_tag (u : unit_id) : str :=
  match u with
  | UPage rel_ page_ ci =>
      lit "[file:" ++ rel_ ++ lit " p" ++ fmt03 page_ ++ lit " c" ++ fmt03 ci
      ++ lit "]"
  | UChunk rel_ ci => lit "[file:" ++ rel_ ++ lit " c" ++ fmt03 ci ++ lit "]"
  | URow rel_ r_i => lit "[file:" ++ rel_ ++ lit " row" ++ fmt03 r_i ++ lit " c000]"
  | USheetRow rel_ sheet_name r_i =>
      lit "[file:" ++ rel_ ++ lit " sheet:" ++ sheet_name ++ lit " row"
      ++ fmt03 r_i ++ lit " c000]"
  end.

Definition unit_rel (u : unit_id) : str :=
  match u with
  | UPage r _ _ => r
  | UChunk r _ => r
  | URow r _ => r
  | USheetRow r _ _ => r
  end.

Fixpoint starts_with (pre s : str) : bool :=
  match pre, s with
  | [], _ => true
  | a :: pre', b :: s' => (a =? b)%N && starts_with pre' s'
  | _ :: _, [] => false
  end.

(** [sub in s] *)
Fixpoint has_infix (sub s : str) : bool :=
  starts_with sub s ||
  match s with
  | [] => false
  | _ :: s' => has_infix sub s'
  end.

Definition ends_with_digit (s : str) : bool :=
  match rev s with
  | [] => false
  | d :: _ => is_digit d
  end.

(** What the tag formats need of a relative path to tell units apart: a
    chunked file's path does not end in a digit, a row file's path does not
    contain [" sheet:"]. *)
Definition unit_ok (u : unit_id) : Prop :=
  match u with
  | UPage _ _ _ => True
  | UChunk r _ => ends_with_digit r = false
  | URow r _ => has_infix (lit " sheet:") r = false
  | USheetRow r _ _ => has_infix (lit " sheet:") r = false
  end.

Definition all_digits (d : str) : Prop := Forall (fun c => is_digit c = true) d.

(** Every tag is ["[file:" stem " c" number "]"]. *)
Definition unit_stem (u : unit_id) : str :=
  match u with
  | UPage r p _ => r ++ lit " p" ++ fmt03 p
  | UChunk r _ => r
  | URow r i => r ++ lit " row" ++ fmt03 i
  | USheetRow r sh i => r ++ lit " sheet:" ++ sh ++ lit " row" ++ fmt03 i
  end.

Definition unit_num (u : unit_id) : nat :=
  match u with
  | UPage _ _ ci => ci
  | UChunk _ ci => ci
  | URow _ _ => 0%nat
  | USheetRow _ _ _ => 0%nat
  end.

(** Records whose tags are the tags of their units, whose units satisfy
    [P] and are pairwise distinct. *)
Definition batch_ok (P : unit_id -> Prop) (news : list MetaRecord) : Prop :=
  Forall (fun m => tag m = unit_tag (unit_of m) /\ P (unit_of m)) news /\
  NoDup (map unit_of news).

(** [str.lower] leaves a final decimal digit in place. *)
Definition lower_keeps_last_digit {image vec : Type} (env : Env image vec) : Prop :=
  forall s d, is_digit d = true -> exists s', lower env (s ++ [d]) = s' ++ [d].

(** ** A small concrete environment *)

(** [str.lower] on the ASCII letters. *)
Definition ascii_lower (s : str) : str :=
  map (fun c => if ((65 <=? c) && (c <=? 90))%N then (c + 32)%N else c) s.

(** A POSIX machine whose folder holds [files]; every model reply is
    ["x"], every vector is [tt]. *)
Definition sample_env (files : list str) (texts : str -> str)
    (csvs : str -> list (list str))
    (books : str -> list (str * DataFrame)) (hits : list Z) : Env unit unit :=
  {| os := Posix;
     lower := ascii_lower;
     abspath := fun p => p;
     isdir := fun _ => true;
     walk := fun _ => files;
     sha256_file := fun _ => lit "00";
     have_pdf2image := true;
     convert_from_path := fun _ => [tt];
     image_open := fun _ => tt;
     vision_chat := fun _ _ => lit "x";
     read_text := texts;
     csv_reader := csvs;
     have_pandas := true;
     read_excel := books;
     embeddings := fun _ _ => tt;
     l2_normalize := fun v => v;
     index_search := fun _ _ _ => hits;
     text_chat := fun _ _ _ => lit " x " |}.

Definition sample_cfg : PipelineConfig :=
  {| poppler_path := None;
     ocr_model := lit "qwen3-vl:8b-instruct-q4_K_M";
     qa_model := lit "gemma3:12b-it-q4_K_M";
     embed_model := lit "qwen3-embedding:8b-q4_K_M";
     dpi := 220;
     max_ocr_img_side := 1600;
     chunk_chars := 1200;
     chunk_overlap := 200;
     top_k := 10;
     work_dir := lit "rag_store";
     index_name := lit "faiss.index";
     meta_name := lit "meta.pkl";
     manifest_name := lit "manifest.json" |}.

Definition empty_disk : Disk unit :=
  {| index_file := None; meta_file := None; manifest_file := None |}.

(** A freshly constructed pipeline. *)
Definition fresh_state : State unit :=
  {| store_index := None; meta := []; disk := empty_disk; calls := [] |}.

(** The rows of the two-line CSV file [a,b] / [1,2]. *)
Definition two_rows : list (list str) :=
  [[lit "a"; lit "b"]; [lit "1"; lit "2"]].

(** A pipeline after it ingested that file. *)
Definition ready_state : State unit :=
  {| store_index := Some [tt];
     meta := [csv_record (sample_env [] (fun _ => []) (fun _ => []) (fun _ => []) [])
                (lit "/data/t.csv") (lit "t.csv") 0 (lit "a | b")];
     disk := empty_disk; calls := [] |}.

(** Two files of a POSIX folder: one is named [a\b.txt], the other is
    [b.txt] in the directory [a]. *)
Definition collision_env : Env unit unit :=
  sample_env [lit "a\b.txt"; lit "a/b.txt"] (fun _ => lit "x") (fun _ => [])
    (fun _ => []) [].

(** A folder with a text file, a CSV file and a workbook. *)
Definition one_cell : DataFrame :=
  {| columns := [Some (lit "k")]; rows := [[Some (lit "v")]; [None]] |}.

Definition mixed_env : Env unit unit :=
  sample_env [lit "notes.txt"; lit "t.csv"; lit "book.xlsx"] (fun _ => lit "x")
    (fun _ => two_rows) (fun _ => [(lit "S1", one_cell); (lit "S2", one_cell)]) [].

(** A workbook [x.xlsx] with a sheet named [d.csv], next to a CSV file
    named [x.xlsx sheet:d.csv]. *)
Definition marker_env : Env unit unit :=
  sample_env [lit "x.xlsx"; lit "x.xlsx sheet:d.csv"] (fun _ => lit "x")
    (fun _ => [[lit "k=v"]]) (fun _ => [(lit "d.csv", one_cell)]) [].

(** ** Further operations of the module *)

(** [d.get(k)] *)
Fixpoint dict_get {V : Type} (d : dict V) (k : str) : option V :=
  match d with
  | [] => None
  | (k', v) :: d' => if str_eqb k k' then Some v else dict_get d' k
  end.

(** The text that chunks stand for when every chunk after the first gives
    up the [O] characters it shares with the chunk before it. *)
Definition rejoin (O : nat) (chunks : list str) : str :=
  match chunks with
  | [] => []
  | c :: rest => c ++ concat (map (skipn O) rest)
  end.

Definition all_space (s : str) : Prop := Forall (fun c => is_space c = true) s.

(** A state after further requests [cs]. *)
Definition add_calls {vec : Type} (s : State vec) (cs : list Call) : State vec :=
  {| store_index := store_index s; meta := meta s; disk := disk s;
     calls := calls s ++ cs |}.

(** The index, the metadata and the disk are what they were. *)
Definition same_store {vec : Type} (s s' : State vec) : Prop :=
  store_index s' = store_index s /\ meta s' = meta s /\ disk s' = disk s.

(** The messages of the [RuntimeError]s that ingestion raises. *)
Definition ingest_messages : list str :=
  [lit "No supported files found in folder.";
   lit "No text extracted from supported files.";
   lit "pdf2image not installed or failed to import.";
   lit "pandas not installed. Run: pip install pandas openpyxl"].

(** A computation that leaves index, metadata and disk alone and raises
    nothing but the [RuntimeError]s above. *)
Definition quiet {vec A : Type} (m : M vec A) : Prop :=
  forall s,
    match m s with
    | Ret _ s' => same_store s s'
    | Raise e s' =>
        same_store s s' /\ exists msg, e = RuntimeError msg /\ In msg ingest_messages
    | Diverge => True
    end.

(** The file type a record names fits the fields it carries. *)
Definition type_ok (m : MetaRecord) : Prop :=
  match unit_of m with
  | UPage _ pg _ => file_type m = lit "pdf" /\ (1 <= pg)%nat
  | UChunk _ _ => file_type m = lit "image" \/ file_type m = lit "text"
  | URow _ _ => file_type m = lit "csv" /\ chunk_id m = 0%nat
  | USheetRow _ _ _ => file_type m = lit "excel" /\ chunk_id m = 0%nat
  end.

(** A record made for the file with relative path [p] of [folder]. *)
Definition record_of_file {image vec : Type} (env : Env image vec)
    (folder p : str) (m : MetaRecord) : Prop :=
  rel m = slashes p /\
  source m = abspath env (path_join env folder p) /\
  tag m = unit_tag (unit_of m) /\
  type_ok m.

(** [RAGPipeline.load] *)
Definition load {vec : Type} : M vec unit :=
  bind get
    (fun s =>
       match index_file (disk s), meta_file (disk s) with
       | Some ix, Some ms =>
           modify (fun s => {| store_index := Some ix; meta := ms;
                               disk := disk s; calls := calls s |})
       | _, _ => raise (FileNotFoundError (lit "Index not found. Build index first."))
       end).

(** The namespace [argparse] hands to [main]. *)
Record Args := {
  arg_dir : option str;
  arg_ask : option str;
  arg_store : str;
  arg_poppler : option str;
  arg_topk : Z;
  arg_ocr : option str;
  arg_qa : option str;
  arg_embed : option str
}.

(** [o or d]: [None] and the empty string give the default. *)
Definition or_else (o : option str) (d : str) : str :=
  match o with
  | Some (c :: s) => c :: s
  | _ => d
  end.

(** The [PipelineConfig] that [main] builds. *)
Definition main_config (a : Args) : PipelineConfig :=
  {| poppler_path := arg_poppler a;
     ocr_model := or_else (arg_ocr a) (lit "qwen3-vl:8b-instruct-q4_K_M");
     qa_model := or_else (arg_qa a) (lit "gemma3:12b-it-q4_K_M");
     embed_model := or_else (arg_embed a) (lit "qwen3-embedding:8b-q4_K_M");
     dpi := 220;
     max_ocr_img_side := 1600;
     chunk_chars := 1200;
     chunk_overlap := 200;
     top_k := arg_topk a;
     work_dir := arg_store a;
     index_name := lit "faiss.index";
     meta_name := lit "meta.pkl";
     manifest_name := lit "manifest.json" |}.

(** [RAGPipeline(cfg)] over a store directory that holds [d]. *)
Definition new_pipeline {vec : Type} (d : Disk vec) : State vec :=
  {| store_index := None; meta := []; disk := d; calls := [] |}.

Definition usage : str := lit "Use --dir to ingest or --ask to query.".

(** [main], run over a store directory that holds [d]; the value is what
    [main] itself prints. *)
Definition main {image vec : Type} (env : Env image vec) (fuel : nat)
    (a : Args) (d : Disk vec) : outcome vec (list str) :=
  let cfg := main_config a in
  let rag := new_pipeline d in
  match arg_dir a with
  | Some (c :: dir_) =>
      bind (ingest_folder env cfg fuel (c :: dir_)) (fun _ => ret []) rag
  | _ =>
      match arg_ask a with
      | Some (c :: q) =>
          bind load
            (fun _ => bind (query env cfg (c :: q)) (fun ans => ret [ans])) rag
      | _ => Ret [usage] rag
      end
  end.

(** The accumulators [all_chunks] and [meta] after the records [news] were
    appended: the chunk list grows by their texts. *)
Definition grows (acc acc' : Acc) (news : list MetaRecord) : Prop :=
  fst acc' = fst acc ++ map text news /\ snd acc' = snd acc ++ news.

(** The ["files"] dictionary of the manifest that was on disk. *)
Definition manifest_before {vec : Type} (s : State vec) : dict str :=
  match manifest_file (disk s) with
  | Some m => m
  | None => []
  end.

(** A computation that returns or raises from every state. *)
Definition halts {vec A : Type} (m : M vec A) : Prop :=
  forall s, m s <> Diverge.

(** ** Further sample inputs *)

(** A folder whose only supported file holds white space. *)
Definition blank_env : Env unit unit :=
  sample_env [lit "blank.txt"] (fun _ => lit "   ") (fun _ => []) (fun _ => []) [].

(** A folder with a PDF on a machine without [pdf2image]. *)
Definition no_pdf_env : Env unit unit :=
  {| os := Posix;
     lower := ascii_lower;
     abspath := fun p => p;
     isdir := fun _ => true;
     walk := fun _ => [lit "scan.pdf"];
     sha256_file := fun _ => lit "00";
     have_pdf2image := false;
     convert_from_path := fun _ => [tt];
     image_open := fun _ => tt;
     vision_chat := fun _ _ => lit "x";
     read_text := fun _ => [];
     csv_reader := fun _ => [];
     have_pandas := true;
     read_excel := fun _ => [];
     embeddings := fun _ _ => tt;
     l2_normalize := fun v => v;
     index_search := fun _ _ _ => [];
     text_chat := fun _ _ _ => lit " x " |}.

Definition ingest_args : Args :=
  {| arg_dir := Some (lit "/data"); arg_ask := None; arg_store := lit "rag_store";
     arg_poppler := None; arg_topk := 10; arg_ocr := None; arg_qa := None;
     arg_embed := None |}.

Definition ask_args : Args :=
  {| arg_dir := None; arg_ask := Some (lit "why?"); arg_store := lit "rag_store";
     arg_poppler := None; arg_topk := 10; arg_ocr := None; arg_qa := None;
     arg_embed := None |}.

(** ** The arithmetic of [OllamaEmbedder.embed]

    Lines 133 and 134 of the source work on NumPy [float32] values:
    [np.asarray(r["embedding"], dtype=np.float32)] reads the Python floats
    of the reply into a [float32] array [v], and
    [v / (np.linalg.norm(v) + 1e-12)] divides it by its norm plus the
    literal [1e-12].  [float32] is IEEE 754 binary32 (24 bits of precision,
    exponent bound 128), a Python float is binary64 (53 bits, bound 1024);
    every operation rounds to nearest, ties to even. *)

Definition f32 := spec_float.
Definition f64 := spec_float.

Definition f32_add : f32 -> f32 -> f32 := SFadd 24 128.
Definition f32_mul : f32 -> f32 -> f32 := SFmul 24 128.
Definition f32_div : f32 -> f32 -> f32 := SFdiv 24 128.
Definition f32_sqrt : f32 -> f32 := SFsqrt 24 128.

(** The Python float of an integer literal, and the quotient of two Python
    floats. *)
Definition f64_of_Z (n : Z) : f64 := binary_normalize 53 1024 n 0 false.
Definition f64_div : f64 -> f64 -> f64 := SFdiv 53 1024.

(** The [float32] of an integer times a power of two. *)
Definition f32_of_Z (n e : Z) : f32 := binary_normalize 24 128 n e false.

(** A Python float stored as [float32]. *)
Definition f32_of_f64 (x : f64) : f32 :=
  match x with
  | S754_finite s m e => binary_round 24 128 s m e
  | _ => x
  end.

(** The literal [1e-12]: the binary64 number nearest to 10^-12, which is
    the correctly rounded quotient of the binary64 numbers 1 and 10^12. *)
Definition py_1e_12 : f64 := f64_div (f64_of_Z 1) (f64_of_Z (10 ^ 12)).

(** In [np.linalg.norm(v) + 1e-12] the left operand is a [float32] scalar
    and the right one a Python float, which takes the type of the other
    operand: the sum is a [float32] addition (NumPy 2).  Under the
    value-based promotion of NumPy 1 the sum is taken in binary64 and is
    rounded to [float32] when the array is divided by it. *)
Definition eps32 : f32 := f32_of_f64 py_1e_12.

(** [np.asarray(raw, dtype=np.float32)] *)
Definition asarray32 (raw : list f64) : list f32 := map f32_of_f64 raw.

(** [x.dot(y)] on [float32] arrays: products and sums are rounded to
    [float32], the sum runs in index order. *)
Definition dot32 (x y : list f32) : f32 :=
  fold_left (fun acc p => f32_add acc (f32_mul (fst p) (snd p)))
    (combine x y) (S754_zero false).

(** [np.linalg.norm(v)] for a one-dimensional real array is
    [sqrt(v.dot(v))]. *)
Definition linalg_norm (v : list f32) : f32 := f32_sqrt (dot32 v v).

(** Line 134: [v / (np.linalg.norm(v) + 1e-12)]. *)
Definition l2_normalize32 (v : list f32) : list f32 :=
  let d := f32_add (linalg_norm v) eps32 in
  map (fun x => f32_div x d) v.

(** Lines 133 and 134: from the reply's list of Python floats to the row
    that [embed] appends. *)
Definition embedding_row (raw : list f64) : list f32 :=
  l2_normalize32 (asarray32 raw).

Definition is_zero (x : f32) : bool :=
  match x with
  | S754_zero _ => true
  | _ => false
  end.

Definition all_zero (v : list f32) : bool := forallb is_zero v.

(** Within 2^-10 of 1: a bound far looser than the rounding error of
    [float32], whose unit roundoff is 2^-24. *)
Definition near_one (x : f32) : bool :=
  SFleb (f32_of_Z 1023 (-10)) x && SFleb x (f32_of_Z 1025 (-10)).

(** *** Exact values

    A finite [float32] with sign [s], mantissa [m] and exponent [e] is the
    real number [(-1)^s * m * 2^e]; the Euclidean norm of a row is the
    square root of the sum of the squares of these numbers.  Infinities
    and NaN are no real numbers: [F2R] maps them to 0, and the norm is
    only used for rows without them. *)

Definition pow2 (e : Z) : R := powerRZ 2 e.

Definition F2R (x : spec_float) : R :=
  match x with
  | S754_finite s m e => ((if s then -1 else 1) * IZR (Zpos m) * pow2 e)%R
  | _ => 0%R
  end.

Definition sum_sq (v : list f32) : R :=
  fold_right (fun x a => (F2R x * F2R x + a)%R) 0%R v.

Definition euclid_norm (v : list f32) : R := sqrt (sum_sq v).

(** The spacing of [float32] at 1, [np.finfo(np.float32).eps] = 2^-23. *)
Definition f32_epsilon : R := (/ 8388608)%R.

(** A component that is zero, or a normal [float32] (24 significant digits)
    whose magnitude is at least 2^-50 and less than 2^50. *)
Definition in_range (x : f32) : bool :=
  match x with
  | S754_zero _ => true
  | S754_finite _ m e => (Zpos (digits2_pos m) =? 24) && (-73 <=? e) && (e <=? 26)
  | _ => false
  end.

(** A normal [float32] of magnitude at least 2^-20. *)
Definition sizable (x : f32) : bool :=
  match x with
  | S754_finite _ m e => (Zpos (digits2_pos m) =? 24) && (-43 <=? e)
  | _ => false
  end.

(** The accumulator of [dot32] after [k] components whose squares add up
    to [S]: zero as long as every component was zero, afterwards a normal
    [float32] whose value differs from [S] by at most [k] roundings. *)
Definition acc_ok (acc : f32) (S : R) (k : nat) : Prop :=
  (acc = S754_zero false /\ S = 0%R) \/
  (exists m e,
     acc = S754_finite false m e /\ Zpos (digits2_pos m) = 24 /\ (1 <= k)%nat /\
     (pow2 (-100) <= S <= INR k * pow2 100)%R /\
     (S * (1 - f32_epsilon) ^ k <= IZR (Zpos m) * pow2 e <= S * (1 + f32_epsilon) ^ k)%R).

(** An embeddings service that answers each prompt with the vector
    [replies] gives for it, on a machine whose vectors are [float32]
    arrays. *)
Definition float_env (replies : str -> list f64) : Env unit (list f32) :=
  {| os := Posix;
     lower := ascii_lower;
     abspath := fun p => p;
     isdir := fun _ => true;
     walk := fun _ => [];
     sha256_file := fun _ => lit "00";
     have_pdf2image := true;
     convert_from_path := fun _ => [tt];
     image_open := fun _ => tt;
     vision_chat := fun _ _ => lit "x";
     read_text := fun _ => [];
     csv_reader := fun _ => [];
     have_pandas := true;
     read_excel := fun _ => [];
     embeddings := fun _ t => replies t;
     l2_normalize := embedding_row;
     index_search := fun _ _ _ => [];
     text_chat := fun _ _ _ => lit " x " |}.

Definition float_state : State (list f32) :=
  {| store_index := None; meta := [];
     disk := {| index_file := None; meta_file := None; manifest_file := None |};
     calls := [] |}.

(** Replies of length two: [1e30, 1e30] for the prompt "big", [1e-12, 0.0]
    for the prompt "small", [3.0, 4.0] for any other prompt. *)
Definition big_raw : list f64 := [f64_of_Z (10 ^ 30); f64_of_Z (10 ^ 30)].
Definition small_raw : list f64 := [py_1e_12; S754_zero false].
Definition plain_raw : list f64 := [f64_of_Z 3; f64_of_Z 4].

Definition sample_replies (t : str) : list f64 :=
  if str_eqb t (lit "big") then big_raw
  else if str_eqb t (lit "small") then small_raw
  else plain_raw.
(** * Properties *)

Example normalize_ws_ex :
  normalize_ws (lit "  a " ++ [TAB; SP; CR; NL; CR; NL; NL; NL] ++ lit "b  c" ++ [CR])
  = lit "a " ++ [NL; NL] ++ lit "b c".
Proof. vm_compute. reflexivity. Qed.

Example chunk_text_ex :
  chunk_text 10 (lit "abcdefghij") 4 1 = Some [lit "abcd"; lit "defg"; lit "ghij"].
Proof. vm_compute. reflexivity. Qed.

Example chunk_text_ex2 :
  chunk_text 10 (lit "abcdefghijk") 4 1
  = Some (map (cut (lit "abcdefghijk")) (windows 11 4 1)).
Proof. vm_compute. reflexivity. Qed.

(** ** The normaliser *)

Section NormalizeFacts.

Lemma drop_while_suffix p s : exists w, s = w ++ drop_while p s.
Proof.
  induction s as [|c s IH]; simpl.
  - exists []. reflexivity.
  - destruct (p c).
    + destruct IH as [w Hw]. exists (c :: w). simpl. now rewrite <- Hw.
    + exists []. reflexivity.
Qed.

Lemma rstrip_prefix s : exists w, s = rstrip s ++ w.
Proof.
  unfold rstrip.
  destruct (drop_while_suffix is_space (rev s)) as [w Hw].
  exists (rev w).
  rewrite <- rev_app_distr, <- Hw. now rewrite rev_involutive.
Qed.

Lemma strip_infix s : exists u w, s = u ++ strip s ++ w.
Proof.
  unfold strip, lstrip.
  destruct (drop_while_suffix is_space s) as [u Hu].
  destruct (rstrip_prefix (drop_while is_space s)) as [w Hw].
  exists u, w. now rewrite <- Hw.
Qed.

Lemma drop_while_head_ok s : head_ok (drop_while is_space s).
Proof.
  induction s as [|c s IH]; simpl; [exact I|].
  destruct (is_space c) eqn:E; [exact IH | exact E].
Qed.

Lemma drop_while_id s : head_ok s -> drop_while is_space s = s.
Proof.
  destruct s as [|c s]; simpl; [reflexivity|]. intros ->. reflexivity.
Qed.

Lemma rstrip_idem s : rstrip (rstrip s) = rstrip s.
Proof.
  unfold rstrip. rewrite rev_involutive.
  rewrite (drop_while_id (drop_while is_space (rev s))); [reflexivity|].
  apply drop_while_head_ok.
Qed.

Lemma rstrip_head_ok s : head_ok s -> head_ok (rstrip s).
Proof.
  intros H. destruct (rstrip_prefix s) as [w Hw].
  destruct (rstrip s) as [|c r]; [exact I|].
  rewrite Hw in H. exact H.
Qed.

Lemma strip_idem s : strip (strip s) = strip s.
Proof.
  unfold strip, lstrip.
  rewrite (drop_while_id (rstrip (drop_while is_space s))).
  - apply rstrip_idem.
  - apply rstrip_head_ok, drop_while_head_ok.
Qed.

(** *** Carriage returns *)

Lemma replace_cr_no_cr s : no_cr (replace_cr s).
Proof.
  unfold no_cr, replace_cr. apply Forall_forall. intros c Hc.
  apply in_map_iff in Hc. destruct Hc as [d [<- _]].
  destruct (N.eqb_spec d CR); [discriminate | assumption].
Qed.

Lemma replace_crlf_id s : no_cr s -> replace_crlf s = s.
Proof.
  induction s as [|c s IH]; intros H; [reflexivity|].
  inversion H as [|? ? Hc Hs]; subst.
  simpl. destruct s as [|c2 s2]; [reflexivity|].
  destruct (N.eqb_spec c CR); [contradiction|]. simpl.
  f_equal. apply IH, Hs.
Qed.

Lemma replace_cr_id s : no_cr s -> replace_cr s = s.
Proof.
  induction 1 as [|c s Hc Hs IH]; [reflexivity|].
  unfold replace_cr in *. simpl. rewrite IH.
  destruct (N.eqb_spec c CR); [contradiction | reflexivity].
Qed.

Lemma sub_blanks_from_no_cr s : forall b, no_cr s -> no_cr (sub_blanks_from b s).
Proof.
  induction s as [|c s IH]; intros b H; simpl; [constructor|].
  inversion H as [|? ? Hc Hs]; subst.
  destruct (is_blank c); [destruct b|].
  - apply IH, Hs.
  - constructor; [discriminate | apply IH, Hs].
  - constructor; [exact Hc | apply IH, Hs].
Qed.

Lemma flush_newlines_no_cr k : no_cr (flush_newlines k).
Proof.
  unfold flush_newlines, no_cr.
  destruct (3 <=? k)%nat.
  - repeat constructor; discriminate.
  - apply Forall_forall. intros c Hc. apply repeat_spec in Hc. subst. discriminate.
Qed.

Lemma sub_newlines_from_no_cr s :
  forall k, no_cr s -> no_cr (sub_newlines_from k s).
Proof.
  induction s as [|c s IH]; intros k H; simpl.
  - apply flush_newlines_no_cr.
  - inversion H as [|? ? Hc Hs]; subst.
    destruct (c =? NL)%N; [apply IH, Hs|].
    apply Forall_app. split; [apply flush_newlines_no_cr|].
    constructor; [exact Hc | apply IH, Hs].
Qed.

Lemma strip_no_cr s : no_cr s -> no_cr (strip s).
Proof.
  intros H. destruct (strip_infix s) as [u [w E]].
  rewrite E in H. apply Forall_app in H. destruct H as [_ H].
  apply Forall_app in H. tauto.
Qed.

(** *** Blanks *)

Lemma sub_blanks_from_ok s : forall b, blanks_ok b (sub_blanks_from b s) = true.
Proof.
  induction s as [|c s IH]; intros b; simpl; [reflexivity|].
  destruct (is_blank c) eqn:E.
  - destruct b; [apply IH|]. simpl. now rewrite IH.
  - simpl. rewrite E. apply IH.
Qed.

Lemma sub_blanks_from_id s :
  forall b, blanks_ok b s = true -> sub_blanks_from b s = s.
Proof.
  induction s as [|c s IH]; intros b H; simpl in *; [reflexivity|].
  destruct (is_blank c) eqn:E.
  - apply andb_prop in H. destruct H as [H H2].
    apply andb_prop in H. destruct H as [H0 H1].
    destruct b; [discriminate|].
    apply N.eqb_eq in H0. subst c. f_equal. now apply IH.
  - f_equal. now apply IH.
Qed.

Lemma blanks_ok_weaken s : forall b, blanks_ok b s = true -> blanks_ok false s = true.
Proof.
  destruct s as [|c s]; intros b H; simpl in *; [reflexivity|].
  destruct (is_blank c); [|exact H].
  apply andb_prop in H. destruct H as [H H2].
  apply andb_prop in H. destruct H as [H0 H1].
  now rewrite H0, H2.
Qed.

Lemma blanks_ok_suffix u : forall b s,
  blanks_ok b (u ++ s) = true -> blanks_ok false s = true.
Proof.
  induction u as [|c u IH]; intros b s H; simpl in *.
  - eapply blanks_ok_weaken; eauto.
  - destruct (is_blank c).
    + apply andb_prop in H. destruct H as [_ H]. eapply IH; eauto.
    + eapply IH; eauto.
Qed.

Lemma blanks_ok_prefix s : forall b w,
  blanks_ok b (s ++ w) = true -> blanks_ok b s = true.
Proof.
  induction s as [|c s IH]; intros b w H; simpl in *; [reflexivity|].
  destruct (is_blank c).
  - apply andb_prop in H. destruct H as [H H2]. rewrite H. simpl. eapply IH; eauto.
  - eapply IH; eauto.
Qed.

Lemma strip_blanks_ok s : blanks_ok false s = true -> blanks_ok false (strip s) = true.
Proof.
  intros H. destruct (strip_infix s) as [u [w E]]. rewrite E in H.
  apply blanks_ok_suffix in H. eapply blanks_ok_prefix; eauto.
Qed.

Lemma NL_not_blank : is_blank NL = false.
Proof. reflexivity. Qed.

Lemma blanks_ok_flush k b s :
  blanks_ok b (flush_newlines k ++ s)
  = blanks_ok (match k with O => b | _ => false end) s.
Proof.
  unfold flush_newlines.
  destruct k as [|[|[|k]]]; reflexivity.
Qed.

Lemma sub_newlines_from_blanks_ok s : forall k b b',
  blanks_ok b s = true ->
  (k <> O -> b = false) -> (k = O -> b' = b) ->
  blanks_ok b' (sub_newlines_from k s) = true.
Proof.
  induction s as [|c s IH]; intros k b b' H Hk Hb; simpl in *.
  - rewrite <- (app_nil_r (flush_newlines k)), blanks_ok_flush. reflexivity.
  - destruct (N.eqb_spec c NL) as [->|Hc].
    + rewrite NL_not_blank in H. apply (IH (S k) false b'); auto. discriminate.
    + rewrite blanks_ok_flush. simpl.
      assert (Hb' : match k with O => b' | _ => false end = b).
      { destruct k; [auto | symmetry; apply Hk; discriminate]. }
      rewrite Hb'.
      destruct (is_blank c).
      * apply andb_prop in H. destruct H as [H H2]. rewrite H. simpl.
        apply (IH O true true); auto. intros F; now elim F.
      * apply (IH O false false); auto.
Qed.

(** *** Newlines *)

Lemma newlines_ok_flush k c s :
  c <> NL -> newlines_ok 0 (flush_newlines k ++ c :: s) = newlines_ok 0 s.
Proof.
  intros Hc. apply N.eqb_neq in Hc.
  unfold flush_newlines. destruct k as [|[|[|k]]]; simpl; rewrite Hc; reflexivity.
Qed.

Lemma sub_newlines_from_ok s : forall k, newlines_ok 0 (sub_newlines_from k s) = true.
Proof.
  induction s as [|c s IH]; intros k; simpl.
  - unfold flush_newlines. destruct k as [|[|[|k]]]; reflexivity.
  - destruct (N.eqb_spec c NL) as [->|Hc]; [apply IH|].
    rewrite newlines_ok_flush by assumption. apply IH.
Qed.

Lemma repeat_snoc_cons (c : char) k s : repeat c k ++ c :: s = repeat c (S k) ++ s.
Proof.
  induction k as [|k IH]; simpl; [reflexivity|]. f_equal. exact IH.
Qed.

Lemma sub_newlines_from_id s : forall k,
  newlines_ok k s = true -> (k <= 2)%nat ->
  sub_newlines_from k s = repeat NL k ++ s.
Proof.
  induction s as [|c s IH]; intros k H Hk; simpl in *.
  - unfold flush_newlines.
    destruct (Nat.leb_spec 3 k); [lia|]. now rewrite app_nil_r.
  - destruct (N.eqb_spec c NL) as [->|Hc].
    + apply andb_prop in H. destruct H as [H1 H2].
      apply Nat.ltb_lt in H1.
      rewrite IH by (auto; lia). symmetry. apply repeat_snoc_cons.
    + unfold flush_newlines.
      destruct (Nat.leb_spec 3 k); [lia|].
      rewrite (IH O H) by lia. reflexivity.
Qed.

Lemma newlines_ok_mono s : forall j k,
  (j <= k)%nat -> newlines_ok k s = true -> newlines_ok j s = true.
Proof.
  induction s as [|c s IH]; intros j k Hjk H; simpl in *; [reflexivity|].
  destruct (c =? NL)%N; [|exact H].
  apply andb_prop in H. destruct H as [H1 H2].
  apply Nat.ltb_lt in H1.
  apply andb_true_intro. split.
  - apply Nat.ltb_lt. lia.
  - apply (IH (S j) (S k)); [lia | exact H2].
Qed.

Lemma newlines_ok_suffix u : forall k s,
  newlines_ok k (u ++ s) = true -> newlines_ok 0 s = true.
Proof.
  induction u as [|c u IH]; intros k s H; simpl in *.
  - apply (newlines_ok_mono s 0 k); [lia | exact H].
  - destruct (c =? NL)%N.
    + apply andb_prop in H. destruct H as [_ H]. eapply IH; eauto.
    + eapply IH; eauto.
Qed.

Lemma newlines_ok_prefix s : forall k w,
  newlines_ok k (s ++ w) = true -> newlines_ok k s = true.
Proof.
  induction s as [|c s IH]; intros k w H; simpl in *; [reflexivity|].
  destruct (c =? NL)%N.
  - apply andb_prop in H. destruct H as [H H2]. rewrite H. simpl. eapply IH; eauto.
  - eapply IH; eauto.
Qed.

Lemma strip_newlines_ok s : newlines_ok 0 s = true -> newlines_ok 0 (strip s) = true.
Proof.
  intros H. destruct (strip_infix s) as [u [w E]]. rewrite E in H.
  apply newlines_ok_suffix in H. eapply newlines_ok_prefix; eauto.
Qed.

(** *** The normal form *)

Lemma normalize_ws_no_cr t : no_cr (normalize_ws t).
Proof.
  unfold normalize_ws, sub_newlines, sub_blanks.
  apply strip_no_cr, sub_newlines_from_no_cr, sub_blanks_from_no_cr,
    replace_cr_no_cr.
Qed.

Lemma normalize_ws_blanks_ok t : blanks_ok false (normalize_ws t) = true.
Proof.
  unfold normalize_ws, sub_newlines, sub_blanks.
  apply strip_blanks_ok.
  apply (sub_newlines_from_blanks_ok _ O false false); auto.
  apply sub_blanks_from_ok.
Qed.

Lemma normalize_ws_newlines_ok t : newlines_ok 0 (normalize_ws t) = true.
Proof.
  unfold normalize_ws, sub_newlines.
  apply strip_newlines_ok, sub_newlines_from_ok.
Qed.

(** A string in normal form is left as it is. *)
Lemma normalize_ws_normal_form (y : str) :
  no_cr y -> blanks_ok false y = true -> newlines_ok 0 y = true ->
  strip y = y -> normalize_ws y = y.
Proof.
  intros Hcr Hbl Hnl Hst. unfold normalize_ws.
  rewrite (replace_crlf_id y Hcr), (replace_cr_id y Hcr).
  unfold sub_blanks. rewrite (sub_blanks_from_id y false Hbl).
  unfold sub_newlines. rewrite (sub_newlines_from_id y 0 Hnl) by lia.
  exact Hst.
Qed.

Lemma normalize_ws_stripped t : strip (normalize_ws t) = normalize_ws t.
Proof. unfold normalize_ws. apply strip_idem. Qed.

(** C7: the text normaliser is idempotent,
    [normalize_ws (normalize_ws x) = normalize_ws x] for every string [x]. *)
Theorem normalize_ws_idempotent (x : str) :
  normalize_ws (normalize_ws x) = normalize_ws x.
Proof.
  apply normalize_ws_normal_form.
  - apply normalize_ws_no_cr.
  - apply normalize_ws_blanks_ok.
  - apply normalize_ws_newlines_ok.
  - apply normalize_ws_stripped.
Qed.

End NormalizeFacts.

(** ** The chunker *)

Section ChunkFacts.

Lemma slice_in_range s a b :
  0 <= a <= b -> b <= len s ->
  slice s a b = firstn (Z.to_nat (b - a)) (skipn (Z.to_nat a) s).
Proof.
  intros Hab Hb. unfold slice, clamp_index.
  destruct (Z.ltb_spec a 0), (Z.ltb_spec b 0); try lia.
  rewrite !Z.min_l by lia. reflexivity.
Qed.

Lemma len_slice s a b : 0 <= a <= b -> b <= len s -> len (slice s a b) = b - a.
Proof.
  intros Hab Hb. rewrite slice_in_range by assumption.
  unfold len in *. rewrite length_firstn, length_skipn. lia.
Qed.

Lemma cdiv_spec a b : 0 < b -> b * (cdiv a b - 1) < a <= b * cdiv a b.
Proof.
  intros Hb. unfold cdiv.
  pose proof (Z.div_mod (a + b - 1) b) as E.
  pose proof (Z.mod_pos_bound (a + b - 1) b Hb) as B.
  lia.
Qed.

Variables (T : str) (C O : Z).
Hypothesis C_pos : 0 < C.
Hypothesis O_range : 0 <= O < C.
Hypothesis T_nonempty : 0 < len T.

Let L := len T.
Let n := window_count L C O.

Lemma window_count_bounds : 1 <= n <= L.
Proof using C_pos O_range T_nonempty.
  unfold n, window_count, L.
  destruct (Z.leb_spec (len T) 0); [lia|].
  destruct (Z.ltb_spec O (len T)); [|lia].
  pose proof (cdiv_spec (len T - O) (C - O)). nia.
Qed.

(** Window [k] starts inside the text; the last window is the only one that
    reaches the end of the text. *)
Lemma window_start_lt k : 0 <= k < n -> k * (C - O) < L.
Proof using C_pos O_range T_nonempty.
  unfold n, window_count, L.
  destruct (Z.leb_spec (len T) 0); [lia|].
  destruct (Z.ltb_spec O (len T)); [|nia].
  pose proof (cdiv_spec (len T - O) (C - O)). nia.
Qed.

Lemma window_last_end : L <= (n - 1) * (C - O) + C.
Proof using C_pos O_range T_nonempty.
  unfold n, window_count, L.
  destruct (Z.leb_spec (len T) 0); [lia|].
  destruct (Z.ltb_spec O (len T)); [|nia].
  pose proof (cdiv_spec (len T - O) (C - O)). nia.
Qed.

Lemma window_inner_end k : 0 <= k < n - 1 -> k * (C - O) + C < L.
Proof using C_pos O_range T_nonempty.
  unfold n, window_count, L.
  destruct (Z.leb_spec (len T) 0); [lia|].
  destruct (Z.ltb_spec O (len T)); [|nia].
  pose proof (cdiv_spec (len T - O) (C - O)). nia.
Qed.

Lemma chunk_loop_windows : forall m k acc fuel,
  Z.of_nat (k + S m) = n -> (S m <= fuel)%nat ->
  chunk_loop fuel T C O (Z.of_nat k * (C - O)) acc
  = Some (acc ++ map (cut T) (map (window L C O) (seq k (S m)))).
Proof using C_pos O_range T_nonempty.
  induction m as [|m IH]; intros k acc fuel Hk Hfuel;
    (destruct fuel as [|fuel]; [lia|]); cbn [chunk_loop].
  - pose proof (window_start_lt (Z.of_nat k)) as Hs.
    pose proof window_last_end as He.
    fold L.
    destruct (Z.ltb_spec (Z.of_nat k * (C - O)) L); [|lia].
    replace (n - 1) with (Z.of_nat k) in He by lia.
    destruct (Z.eqb_spec (Z.min L (Z.of_nat k * (C - O) + C)) L); [|lia].
    reflexivity.
  - pose proof (window_start_lt (Z.of_nat k)) as Hs.
    pose proof (window_inner_end (Z.of_nat k)) as He.
    fold L.
    destruct (Z.ltb_spec (Z.of_nat k * (C - O)) L); [|lia].
    destruct (Z.eqb_spec (Z.min L (Z.of_nat k * (C - O) + C)) L); [lia|].
    assert (0 <= Z.of_nat k * (C - O)) by (apply Z.mul_nonneg_nonneg; lia).
    replace (Z.max 0 (Z.min L (Z.of_nat k * (C - O) + C) - O))
      with (Z.of_nat (S k) * (C - O)) by (rewrite Nat2Z.inj_succ; lia).
    rewrite IH by lia.
    rewrite <- app_assoc. reflexivity.
Qed.

End ChunkFacts.

Lemma chunk_text_windows t C O fuel :
  0 < C -> 0 <= O < C -> (length (normalize_ws t) <= fuel)%nat ->
  chunk_text fuel t C O
  = Some (map (cut (normalize_ws t)) (windows (len (normalize_ws t)) C O)).
Proof.
  intros HC HO Hfuel. unfold chunk_text.
  destruct (normalize_ws t) as [|c T'] eqn:E; [reflexivity|].
  set (T := c :: T') in *.
  assert (HT : 0 < len T) by (unfold len, T; simpl; lia).
  pose proof (window_count_bounds T C O HC HO HT) as Hn.
  pose proof (chunk_loop_windows T C O HC HO HT
                (Z.to_nat (window_count (len T) C O - 1)) 0 [] fuel) as H.
  unfold windows.
  replace (Z.to_nat (window_count (len T) C O))
    with (S (Z.to_nat (window_count (len T) C O - 1))) by lia.
  apply H; unfold len in *; lia.
Qed.

Lemma nth_error_windows L C O i w :
  nth_error (windows L C O) i = Some w <->
  Z.of_nat i < window_count L C O /\ w = window L C O i.
Proof.
  unfold windows. split.
  - intros H.
    destruct (Nat.lt_ge_cases i (Z.to_nat (window_count L C O))) as [Hi|Hi].
    + rewrite nth_error_map, nth_error_seq in H.
      destruct (Nat.ltb_spec i (Z.to_nat (window_count L C O))); [|lia].
      simpl in H. inversion H. split; [lia | reflexivity].
    + assert (N : nth_error (map (window L C O)
                     (seq 0 (Z.to_nat (window_count L C O)))) i = None).
      { apply nth_error_None. rewrite length_map, length_seq. exact Hi. }
      congruence.
  - intros [Hi ->].
    rewrite nth_error_map, nth_error_seq.
    destruct (Nat.ltb_spec i (Z.to_nat (window_count L C O))); [|lia].
    reflexivity.
Qed.

Lemma length_windows L C O :
  0 <= window_count L C O ->
  Z.of_nat (length (windows L C O)) = window_count L C O.
Proof.
  intros H. unfold windows. rewrite length_map, length_seq. lia.
Qed.

(** Under a misconfigured overlap the window never moves. *)
Lemma chunk_loop_stalls T C O : 1 <= C -> C <= O -> C < len T ->
  forall fuel acc, chunk_loop fuel T C O 0 acc = None.
Proof.
  intros HC HO HL. induction fuel as [|fuel IH]; intros acc; [reflexivity|].
  cbn [chunk_loop].
  destruct (Z.ltb_spec 0 (len T)); [|lia].
  destruct (Z.eqb_spec (Z.min (len T) (0 + C)) (len T)); [lia|].
  replace (Z.max 0 (Z.min (len T) (0 + C) - O)) with 0 by lia.
  apply IH.
Qed.

Lemma window_eq L C O i :
  window L C O i
  = (Z.of_nat i * (C - O), Z.min L (Z.of_nat i * (C - O) + C)).
Proof. reflexivity. Qed.

Lemma nth_error_windows_pair L C O i s e :
  nth_error (windows L C O) i = Some (s, e) ->
  Z.of_nat i < window_count L C O /\
  s = Z.of_nat i * (C - O) /\ e = Z.min L (Z.of_nat i * (C - O) + C).
Proof.
  intros H. apply nth_error_windows in H. destruct H as [Hi E].
  rewrite window_eq in E. split; [exact Hi|]. split; congruence.
Qed.

Lemma window_facts T C O i :
  0 < C -> 0 <= O < C -> 0 < len T ->
  Z.of_nat i < window_count (len T) C O ->
  let s := Z.of_nat i * (C - O) in
  let e := Z.min (len T) (s + C) in
  0 <= s /\ s < e /\ e <= len T /\
  (Z.of_nat i + 1 < window_count (len T) C O -> e = s + C /\ e < len T) /\
  (Z.of_nat i + 1 = window_count (len T) C O -> e = len T).
Proof.
  intros HC HO HT Hi s e.
  pose proof (window_start_lt T C O HC HO HT (Z.of_nat i)) as H1.
  pose proof (window_last_end T C O HC HO HT) as H2.
  pose proof (window_inner_end T C O HC HO HT (Z.of_nat i)) as H3.
  assert (0 <= s) by (apply Z.mul_nonneg_nonneg; lia).
  repeat split; unfold e; lia.
Qed.

(** Every position of a non-empty text lies in one of its windows. *)
Lemma windows_cover (T : str) (C O : Z) :
  0 < C -> 0 <= O < C -> 0 < len T ->
  forall p, 0 <= p < len T ->
  exists i s e,
    nth_error (windows (len T) C O) i = Some (s, e) /\ s <= p < e.
Proof.
  intros HC HO HL p Hp.
  pose proof (window_count_bounds T C O HC HO HL) as Hn.
  set (L := len T) in *.
  set (n := window_count L C O) in *.
  set (i := Z.min (n - 1) (p / (C - O))).
  assert (Hdiv : (C - O) * (p / (C - O)) <= p < (C - O) * (p / (C - O)) + (C - O)).
  { pose proof (Z.div_mod p (C - O)) as E.
    pose proof (Z.mod_pos_bound p (C - O)) as B. lia. }
  assert (Hq : 0 <= p / (C - O)) by (apply Z.div_pos; lia).
  assert (Hi : Z.of_nat (Z.to_nat i) < n) by lia.
  pose proof (window_facts T C O _ HC HO HL Hi) as F. fold L in F. cbv zeta in F.
  exists (Z.to_nat i), (Z.of_nat (Z.to_nat i) * (C - O)),
    (Z.min L (Z.of_nat (Z.to_nat i) * (C - O) + C)).
  split; [apply nth_error_windows; split; [exact Hi | reflexivity]|].
  replace (Z.of_nat (Z.to_nat i)) with i in * by lia.
  destruct (Z.le_gt_cases (n - 1) (p / (C - O))) as [Hc|Hc].
  - replace i with (n - 1) in * by lia. nia.
  - replace i with (p / (C - O)) in * by lia. nia.
Qed.

(** C1: for parameters [C > 0] and [0 <= O < C], [chunk_text] returns, and
    its chunks are cut from the normalised text [T] of length [L] at offsets
    [spans] such that: an empty [T] gives no chunk; otherwise the number of
    chunks is [ceil((L-O)/(C-O))] when [L > O] and 1 when not, the first
    chunk starts at 0, every chunk is the non-empty piece of [T] between its
    offsets, a chunk that has a successor has length exactly [C] and its
    successor starts [O] characters before its end (so the two share exactly
    [O] characters), the last chunk ends at [L], and every position of [T]
    lies in some chunk. *)
Theorem chunk_text_sliding_windows (t : str) (C O : Z) :
  0 < C -> 0 <= O < C ->
  let T := normalize_ws t in
  let L := len T in
  exists spans : list (Z * Z),
    (forall fuel, (length T <= fuel)%nat ->
       chunk_text fuel t C O = Some (map (cut T) spans)) /\
    (L = 0 -> spans = []) /\
    (0 < L ->
       Z.of_nat (length spans) = (if O <? L then cdiv (L - O) (C - O) else 1) /\
       (exists e, nth_error spans 0 = Some (0, e)) /\
       (forall i s e, nth_error spans i = Some (s, e) ->
          0 <= s < e /\ e <= L /\ len (cut T (s, e)) = e - s) /\
       (forall i s e s' e',
          nth_error spans i = Some (s, e) ->
          nth_error spans (S i) = Some (s', e') ->
          e - s = C /\ s' = e - O /\ s <= s' /\ e < e') /\
       (exists s, nth_error spans (length spans - 1) = Some (s, L)) /\
       (forall p, 0 <= p < L ->
          exists i s e, nth_error spans i = Some (s, e) /\ s <= p < e)).
Proof.
  intros HC HO T L.
  exists (windows L C O).
  split; [intros fuel Hfuel; now apply chunk_text_windows|].
  split.
  { intros HL. unfold windows, window_count. rewrite HL. reflexivity. }
  intros HL.
  pose proof (window_count_bounds T C O HC HO HL) as Hn. fold L in Hn.
  assert (Hlen : Z.of_nat (length (windows L C O)) = window_count L C O)
    by (apply length_windows; lia).
  split.
  { rewrite Hlen. unfold window_count.
    destruct (Z.leb_spec L 0); [lia | reflexivity]. }
  split.
  { exists (Z.min L (0 + C)). apply nth_error_windows. split; [lia | reflexivity]. }
  split.
  { intros i s e H. apply nth_error_windows_pair in H. destruct H as [Hi [-> ->]].
    pose proof (window_facts T C O i HC HO HL Hi) as F. fold L in F. cbv zeta in F.
    assert (B : 0 <= Z.of_nat i * (C - O) < Z.min L (Z.of_nat i * (C - O) + C)
                /\ Z.min L (Z.of_nat i * (C - O) + C) <= L) by lia.
    destruct B as [B1 B2]. split; [exact B1|]. split; [exact B2|].
    unfold cut. simpl fst. simpl snd. apply len_slice; [lia | exact B2]. }
  split.
  { intros i s e s' e' H H'.
    apply nth_error_windows_pair in H. destruct H as [Hi [-> ->]].
    apply nth_error_windows_pair in H'. destruct H' as [Hi' [-> ->]].
    pose proof (window_facts T C O i HC HO HL Hi) as F.
    pose proof (window_facts T C O (S i) HC HO HL Hi') as F'.
    fold L in F, F'. cbv zeta in F, F'.
    rewrite Nat2Z.inj_succ in *. lia. }
  split.
  { exists (Z.of_nat (length (windows L C O) - 1) * (C - O)).
    apply nth_error_windows.
    assert (Hi : Z.of_nat (length (windows L C O) - 1) < window_count L C O) by lia.
    split; [exact Hi|].
    pose proof (window_facts T C O _ HC HO HL Hi) as F. fold L in F. cbv zeta in F.
    rewrite window_eq. f_equal. lia. }
  intros p Hp. apply windows_cover; assumption.
Qed.

Lemma chunk_text_sliding_windows_witness :
  exists spans : list (Z * Z),
    (forall fuel, (length (normalize_ws (lit "abcdefghij")) <= fuel)%nat ->
       chunk_text fuel (lit "abcdefghij") 4 1
       = Some (map (cut (normalize_ws (lit "abcdefghij"))) spans)) /\
    (len (normalize_ws (lit "abcdefghij")) = 0 -> spans = []) /\
    (0 < len (normalize_ws (lit "abcdefghij")) ->
       Z.of_nat (length spans)
       = (if 1 <? len (normalize_ws (lit "abcdefghij"))
          then cdiv (len (normalize_ws (lit "abcdefghij")) - 1) (4 - 1) else 1) /\
       (exists e, nth_error spans 0 = Some (0, e)) /\
       (forall i s e, nth_error spans i = Some (s, e) ->
          0 <= s < e /\ e <= len (normalize_ws (lit "abcdefghij")) /\
          len (cut (normalize_ws (lit "abcdefghij")) (s, e)) = e - s) /\
       (forall i s e s' e',
          nth_error spans i = Some (s, e) ->
          nth_error spans (S i) = Some (s', e') ->
          e - s = 4 /\ s' = e - 1 /\ s <= s' /\ e < e') /\
       (exists s, nth_error spans (length spans - 1)
                  = Some (s, len (normalize_ws (lit "abcdefghij")))) /\
       (forall p, 0 <= p < len (normalize_ws (lit "abcdefghij")) ->
          exists i s e, nth_error spans i = Some (s, e) /\ s <= p < e)).
Proof.
  apply (chunk_text_sliding_windows (lit "abcdefghij") 4 1); lia.
Defined.

Lemma overlap_shared (T : str) (s C O : nat) (m : nat) :
  (O <= C)%nat -> (O <= m)%nat -> (s + C - O + m <= length T)%nat ->
  let a := firstn C (skipn s T) in
  let b := firstn m (skipn (s + C - O) T) in
  (s + C <= length T)%nat ->
  skipn (length a - O) a = firstn O b /\ length (firstn O b) = O.
Proof.
  intros HOC HOm Hlen a b HsC.
  assert (La : length a = C).
  { unfold a. rewrite length_firstn, length_skipn. lia. }
  rewrite La. unfold a, b.
  rewrite skipn_firstn_comm, skipn_skipn, firstn_firstn.
  replace (C - (C - O))%nat with O by lia.
  replace (C - O + s)%nat with (s + C - O)%nat by lia.
  replace (Nat.min O m) with O by lia.
  split; [reflexivity|].
  rewrite length_firstn, length_skipn. lia.
Qed.

(** C6: for parameters [C > 0] and [0 <= O < C], [chunk_text] returns, and
    for any two consecutive chunks [a] and [b] of its result the last [O]
    characters of [a] are, character for character, the first [O] characters
    of [b]. *)
Theorem chunk_text_overlap_identical (t : str) (C O : Z) :
  0 < C -> 0 <= O < C ->
  exists chunks : list str,
    (forall fuel, (length (normalize_ws t) <= fuel)%nat ->
       chunk_text fuel t C O = Some chunks) /\
    (forall i a b,
       nth_error chunks i = Some a ->
       nth_error chunks (S i) = Some b ->
       skipn (length a - Z.to_nat O) a = firstn (Z.to_nat O) b /\
       length (firstn (Z.to_nat O) b) = Z.to_nat O).
Proof.
  intros HC HO.
  set (T := normalize_ws t). set (L := len T).
  exists (map (cut T) (windows L C O)).
  split; [intros fuel Hfuel; now apply chunk_text_windows|].
  intros i a b Ha Hb.
  rewrite nth_error_map in Ha, Hb.
  destruct (nth_error (windows L C O) i) as [[s e]|] eqn:Ei; [|discriminate].
  destruct (nth_error (windows L C O) (S i)) as [[s' e']|] eqn:Ei'; [|discriminate].
  simpl in Ha, Hb. injection Ha as <-. injection Hb as <-.
  apply nth_error_windows_pair in Ei. destruct Ei as [Hi [Es Ee]].
  apply nth_error_windows_pair in Ei'. destruct Ei' as [Hi' [Es' Ee']].
  assert (HL : 0 < len T).
  { destruct (Z.leb_spec L 0) as [Hle|Hgt]; [|exact Hgt].
    unfold window_count in Hi. destruct (Z.leb_spec L 0); lia. }
  pose proof (window_facts T C O i HC HO HL Hi) as F.
  pose proof (window_facts T C O (S i) HC HO HL Hi') as F'.
  fold L in F, F'. cbv zeta in F, F'.
  rewrite Nat2Z.inj_succ in *.
  assert (B : 0 <= s /\ e = s + C /\ e < L /\ s' = s + C - O /\ s' < e' /\ e' <= L
              /\ e < e') by lia.
  destruct B as (B1 & B2 & B3 & B4 & B5 & B6 & B7).
  unfold cut. cbn [fst snd].
  rewrite (slice_in_range T s e) by (fold L; lia).
  rewrite (slice_in_range T s' e') by (fold L; lia).
  replace (Z.to_nat (e - s)) with (Z.to_nat C) by lia.
  replace (Z.to_nat s') with (Z.to_nat s + Z.to_nat C - Z.to_nat O)%nat by lia.
  unfold L, len in *.
  apply overlap_shared; lia.
Qed.

Lemma chunk_text_overlap_identical_witness :
  exists chunks : list str,
    (forall fuel, (length (normalize_ws (lit "abcdefghij")) <= fuel)%nat ->
       chunk_text fuel (lit "abcdefghij") 4 1 = Some chunks) /\
    (forall i a b,
       nth_error chunks i = Some a ->
       nth_error chunks (S i) = Some b ->
       skipn (length a - Z.to_nat 1) a = firstn (Z.to_nat 1) b /\
       length (firstn (Z.to_nat 1) b) = Z.to_nat 1).
Proof.
  apply (chunk_text_overlap_identical (lit "abcdefghij") 4 1); lia.
Defined.

(** C10: [chunk_text] normalises its input before it cuts: for parameters
    [C > 0] and [0 <= O < C] the result on [t] is the result on
    [normalize_ws t], it is returned, and its chunks are pieces of the
    normalised text that leave no position of the normalised text out. *)
Theorem chunk_text_normalizes_first (t : str) (C O : Z) :
  0 < C -> 0 <= O < C ->
  (forall fuel, chunk_text fuel t C O = chunk_text fuel (normalize_ws t) C O) /\
  exists spans : list (Z * Z),
    (forall fuel, (length (normalize_ws t) <= fuel)%nat ->
       chunk_text fuel t C O = Some (map (cut (normalize_ws t)) spans)) /\
    (forall p, 0 <= p < len (normalize_ws t) ->
       exists i s e, nth_error spans i = Some (s, e) /\ s <= p < e).
Proof.
  intros HC HO. split.
  - intros fuel. unfold chunk_text.
    rewrite (normalize_ws_normal_form (normalize_ws t));
      auto using normalize_ws_no_cr, normalize_ws_blanks_ok,
        normalize_ws_newlines_ok, normalize_ws_stripped.
  - exists (windows (len (normalize_ws t)) C O).
    split; [intros fuel Hfuel; now apply chunk_text_windows|].
    intros p Hp. apply windows_cover; auto. lia.
Qed.

Lemma chunk_text_normalizes_first_witness :
  (forall fuel,
     chunk_text fuel (lit " a  b ") 3 1
     = chunk_text fuel (normalize_ws (lit " a  b ")) 3 1) /\
  exists spans : list (Z * Z),
    (forall fuel, (length (normalize_ws (lit " a  b ")) <= fuel)%nat ->
       chunk_text fuel (lit " a  b ") 3 1
       = Some (map (cut (normalize_ws (lit " a  b "))) spans)) /\
    (forall p, 0 <= p < len (normalize_ws (lit " a  b ")) ->
       exists i s e, nth_error spans i = Some (s, e) /\ s <= p < e).
Proof.
  apply (chunk_text_normalizes_first (lit " a  b ") 3 1); lia.
Defined.

(** C2: with chunk size 1 and overlap 1 the loop of [chunk_text] never
    leaves the text ["ab"]: the next window starts again at offset 0, so no
    number of iterations produces a result. *)
Theorem chunk_text_overlap_not_guarded :
  forall fuel, chunk_text fuel (lit "ab") 1 1 = None.
Proof.
  intros fuel. unfold chunk_text.
  change (normalize_ws (lit "ab")) with (lit "ab").
  change (lit "ab") with [97%N; 98%N].
  apply chunk_loop_stalls; unfold len; simpl; lia.
Qed.

(** ** Citation tags *)

Example tag_collision_ex :
  exists s',
    ingest_folder collision_env sample_cfg 1 (lit "/data") fresh_state = Ret tt s' /\
    map tag (meta s') = [lit "[file:a/b.txt c000]"; lit "[file:a/b.txt c000]"].
Proof. vm_compute. eexists. split; reflexivity. Qed.

(** C3, as stated, fails: on a POSIX folder that holds a file named
    [a\b.txt] and a file [b.txt] in the directory [a], one run of
    [ingest_folder] completes with two metadata records that carry the same
    citation tag. *)
Lemma ingest_folder_tags_collide :
  exists s',
    ingest_folder collision_env sample_cfg 1 (lit "/data") fresh_state = Ret tt s' /\
    ~ NoDup (map tag (meta s')).
Proof.
  vm_compute. eexists. split; [reflexivity|].
  intros H. inversion H as [|x l Hnotin Hl]; subst.
  apply Hnotin. left. reflexivity.
Qed.

(** *** Decimal numbers *)

Lemma uint_chars_digits d : all_digits (uint_chars d).
Proof.
  unfold all_digits. induction d; simpl; constructor; auto.
Qed.

Lemma uint_chars_inj d1 : forall d2, uint_chars d1 = uint_chars d2 -> d1 = d2.
Proof.
  induction d1; intros d2 H; destruct d2; simpl in H;
    try discriminate H; try reflexivity;
    injection H as H; f_equal; apply IHd1; exact H.
Qed.

Lemma zeros_uint_chars k d :
  repeat 48%N k ++ uint_chars d = uint_chars (Nat.iter k Decimal.D0 d).
Proof.
  induction k as [|k IH]; simpl; [reflexivity|]. now rewrite IH.
Qed.

Lemma of_uint_zeros k d : Nat.of_uint (Nat.iter k Decimal.D0 d) = Nat.of_uint d.
Proof.
  induction k as [|k IH]; simpl; [reflexivity|].
  rewrite <- IH. reflexivity.
Qed.

Lemma fmt03_inj n m : fmt03 n = fmt03 m -> n = m.
Proof.
  unfold fmt03, str_of_nat. rewrite !zeros_uint_chars. intros H.
  apply uint_chars_inj in H.
  apply (f_equal Nat.of_uint) in H.
  rewrite !of_uint_zeros, !DecimalNat.Unsigned.of_to in H. exact H.
Qed.

Lemma fmt03_digits n : all_digits (fmt03 n).
Proof.
  unfold fmt03, str_of_nat. rewrite zeros_uint_chars. apply uint_chars_digits.
Qed.

Lemma fmt03_nonempty n : fmt03 n <> [].
Proof.
  unfold fmt03, str_of_nat. intros H.
  apply app_eq_nil in H. destruct H as [H1 H2].
  rewrite H2 in H1. discriminate H1.
Qed.

(** *** Splitting a string at its final number *)

Lemma head_digits_unique d1 : forall d2 c1 c2 x y,
  all_digits d1 -> all_digits d2 ->
  is_digit c1 = false -> is_digit c2 = false ->
  d1 ++ c1 :: x = d2 ++ c2 :: y ->
  d1 = d2 /\ c1 = c2 /\ x = y.
Proof.
  induction d1 as [|a d1 IH]; intros d2 c1 c2 x y H1 H2 Hc1 Hc2 E.
  - destruct d2 as [|b d2]; simpl in E.
    + injection E as -> ->. auto.
    + injection E as -> _. inversion H2; subst. congruence.
  - destruct d2 as [|b d2]; simpl in E.
    + injection E as -> _. inversion H1; subst. congruence.
    + injection E as -> E. inversion H1; inversion H2; subst.
      destruct (IH d2 c1 c2 x y) as (-> & -> & ->); auto.
Qed.

Lemma tail_digits_unique x y c1 c2 d1 d2 :
  all_digits d1 -> all_digits d2 ->
  is_digit c1 = false -> is_digit c2 = false ->
  x ++ c1 :: d1 = y ++ c2 :: d2 ->
  x = y /\ c1 = c2 /\ d1 = d2.
Proof.
  intros H1 H2 Hc1 Hc2 E.
  apply (f_equal (@rev char)) in E.
  rewrite !rev_app_distr in E. simpl in E. rewrite <- !app_assoc in E. simpl in E.
  apply head_digits_unique in E; auto; try (apply Forall_rev; assumption).
  destruct E as (Ed & Ec & Ex).
  apply (f_equal (@rev char)) in Ed, Ex. rewrite !rev_involutive in Ed, Ex.
  auto.
Qed.

Lemma ends_with_digit_app x d :
  d <> [] -> all_digits d -> ends_with_digit (x ++ d) = true.
Proof.
  intros Hd Hall.
  destruct (exists_last Hd) as (d' & c & ->).
  unfold ends_with_digit. rewrite app_assoc, rev_app_distr. simpl.
  apply Forall_app in Hall. destruct Hall as [_ Hc]. now inversion Hc.
Qed.

(** *** Occurrences of the sheet marker *)

Lemma starts_with_app sub w : starts_with sub (sub ++ w) = true.
Proof.
  induction sub as [|a sub IH]; simpl; [reflexivity|].
  now rewrite N.eqb_refl, IH.
Qed.

Lemma has_infix_here sub w : has_infix sub (sub ++ w) = true.
Proof.
  assert (U : forall s, has_infix sub s
                        = starts_with sub s
                          || match s with [] => false | _ :: s' => has_infix sub s' end)
    by (intros [|c s]; reflexivity).
  rewrite U, starts_with_app. reflexivity.
Qed.

Lemma has_infix_app u sub w : has_infix sub (u ++ sub ++ w) = true.
Proof.
  induction u as [|c u IH]; [exact (has_infix_here sub w)|].
  change (has_infix sub ((c :: u) ++ sub ++ w))
    with (starts_with sub (c :: u ++ sub ++ w) || has_infix sub (u ++ sub ++ w)).
  rewrite IH. apply orb_true_r.
Qed.

Lemma has_infix_tail sub c s : has_infix sub (c :: s) = false -> has_infix sub s = false.
Proof.
  simpl. intros H. apply orb_false_elim in H. tauto.
Qed.

Lemma sheet_marker_first y a b :
  has_infix (lit " sheet:") y = false ->
  lit " sheet:" ++ a = y ++ lit " sheet:" ++ b -> y = [].
Proof.
  intros Hy E.
  destruct y as [|c0 y]; [reflexivity|]. exfalso.
  destruct y as [|c1 y]; [discriminate E|].
  destruct y as [|c2 y]; [discriminate E|].
  destruct y as [|c3 y]; [discriminate E|].
  destruct y as [|c4 y]; [discriminate E|].
  destruct y as [|c5 y]; [discriminate E|].
  destruct y as [|c6 y]; [discriminate E|].
  injection E as <- <- <- <- <- <- <- _.
  discriminate Hy.
Qed.

Lemma sheet_marker_unique x : forall y a b,
  has_infix (lit " sheet:") x = false ->
  has_infix (lit " sheet:") y = false ->
  x ++ lit " sheet:" ++ a = y ++ lit " sheet:" ++ b ->
  x = y /\ a = b.
Proof.
  induction x as [|c x IH]; intros y a b Hx Hy E.
  - pose proof (sheet_marker_first y a b Hy E) as ->.
    split; [reflexivity|]. apply (app_inv_head (lit " sheet:")). exact E.
  - destruct y as [|c' y].
    + symmetry in E. pose proof (sheet_marker_first (c :: x) b a Hx E). discriminate.
    + injection E as -> E.
      destruct (IH y a b) as [-> ->]; auto; eapply has_infix_tail; eauto.
Qed.

(** *** Tags tell units apart *)

Lemma unit_tag_stem u :
  unit_tag u
  = lit "[file:" ++ ((unit_stem u ++ [SP]) ++ 99%N :: fmt03 (unit_num u)) ++ [93%N].
Proof.
  destruct u; simpl; rewrite <- ?app_assoc; simpl; rewrite <- ?app_assoc;
    reflexivity.
Qed.

Lemma unit_tag_split u v :
  unit_tag u = unit_tag v ->
  unit_stem u = unit_stem v /\ unit_num u = unit_num v.
Proof.
  rewrite !unit_tag_stem. intros H.
  apply app_inv_head in H. apply app_inj_tail in H. destruct H as [H _].
  apply tail_digits_unique in H; try apply fmt03_digits; try reflexivity.
  destruct H as (Hs & _ & Hn).
  apply app_inj_tail in Hs. destruct Hs as [Hs _].
  split; [exact Hs | apply fmt03_inj; exact Hn].
Qed.

(** A stem that ends in a number: the part before the number and its last
    letter are determined. *)
Lemma numbered_stem x y c1 c2 n m :
  is_digit c1 = false -> is_digit c2 = false ->
  x ++ c1 :: fmt03 n = y ++ c2 :: fmt03 m ->
  x = y /\ c1 = c2 /\ n = m.
Proof.
  intros H1 H2 E.
  apply tail_digits_unique in E; auto using fmt03_digits.
  destruct E as (-> & -> & E). apply fmt03_inj in E. auto.
Qed.

Lemma page_stem r p : r ++ lit " p" ++ fmt03 p = (r ++ [SP]) ++ 112%N :: fmt03 p.
Proof. rewrite <- app_assoc. reflexivity. Qed.

Lemma row_stem r i : r ++ lit " row" ++ fmt03 i = (r ++ lit " ro") ++ 119%N :: fmt03 i.
Proof. rewrite <- app_assoc. reflexivity. Qed.

Lemma sheet_stem r sh i :
  r ++ lit " sheet:" ++ sh ++ lit " row" ++ fmt03 i
  = ((r ++ lit " sheet:" ++ sh) ++ lit " ro") ++ 119%N :: fmt03 i.
Proof. rewrite <- !app_assoc. reflexivity. Qed.

Lemma stem_ends_with_digit x n : ends_with_digit (x ++ fmt03 n) = true.
Proof. apply ends_with_digit_app; [apply fmt03_nonempty | apply fmt03_digits]. Qed.

Lemma chunk_stem_not_numbered r x c n :
  ends_with_digit r = false -> r <> x ++ c :: fmt03 n.
Proof.
  intros H E. subst r.
  change (x ++ c :: fmt03 n) with (x ++ [c] ++ fmt03 n) in H.
  rewrite app_assoc, stem_ends_with_digit in H. discriminate.
Qed.

Theorem unit_tag_inj u v :
  unit_ok u -> unit_ok v -> unit_tag u = unit_tag v -> u = v.
Proof.
  intros Hu Hv E. apply unit_tag_split in E. destruct E as [Es En].
  destruct u as [r p ci | r ci | r i | r sh i];
    destruct v as [r' p' ci' | r' ci' | r' i' | r' sh' i'];
    cbn [unit_stem unit_num unit_ok] in Es, En, Hu, Hv;
    rewrite ?sheet_stem, ?page_stem, ?row_stem in Es.
  - apply numbered_stem in Es; try reflexivity.
    destruct Es as (Er & _ & ->). apply app_inj_tail in Er.
    destruct Er as [-> _]. subst. reflexivity.
  - exfalso. symmetry in Es. revert Es. now apply chunk_stem_not_numbered.
  - apply numbered_stem in Es; try reflexivity. destruct Es as (_ & F & _). discriminate F.
  - apply numbered_stem in Es; try reflexivity. destruct Es as (_ & F & _). discriminate F.
  - exfalso. revert Es. now apply chunk_stem_not_numbered.
  - subst. reflexivity.
  - exfalso. revert Es. now apply chunk_stem_not_numbered.
  - exfalso. revert Es. now apply chunk_stem_not_numbered.
  - apply numbered_stem in Es; try reflexivity. destruct Es as (_ & F & _). discriminate F.
  - exfalso. symmetry in Es. revert Es. now apply chunk_stem_not_numbered.
  - apply numbered_stem in Es; try reflexivity.
    destruct Es as (Er & _ & ->).
    apply (app_inv_tail (lit " ro")) in Er. subst. reflexivity.
  - exfalso. apply numbered_stem in Es; try reflexivity.
    destruct Es as (Er & _ & _).
    apply (app_inv_tail (lit " ro")) in Er. subst r.
    rewrite has_infix_app in Hu. discriminate.
  - apply numbered_stem in Es; try reflexivity. destruct Es as (_ & F & _). discriminate F.
  - exfalso. symmetry in Es. revert Es. now apply chunk_stem_not_numbered.
  - exfalso. apply numbered_stem in Es; try reflexivity.
    destruct Es as (Er & _ & _).
    apply (app_inv_tail (lit " ro")) in Er. subst r'.
    rewrite has_infix_app in Hv. discriminate.
  - apply numbered_stem in Es; try reflexivity.
    destruct Es as (Er & _ & ->).
    apply (app_inv_tail (lit " ro")) in Er.
    apply sheet_marker_unique in Er; auto.
    destruct Er as [-> ->]. reflexivity.
Qed.

Lemma NoDup_map_inj_in {A B : Type} (f : A -> B) (l : list A) :
  (forall x y, In x l -> In y l -> f x = f y -> x = y) ->
  NoDup l -> NoDup (map f l).
Proof.
  induction l as [|a l IH]; intros Hinj Hnd; simpl; [constructor|].
  inversion Hnd as [|? ? Hnotin Hl]; subst.
  constructor.
  - intros Hin. apply in_map_iff in Hin. destruct Hin as (y & Ey & Hy).
    apply Hinj in Ey; [subst; contradiction | right; exact Hy | left; reflexivity].
  - apply IH; [|exact Hl].
    intros x y Hx Hy. apply Hinj; right; assumption.
Qed.

Lemma batch_tags_NoDup (P : unit_id -> Prop) (news : list MetaRecord) :
  (forall u, P u -> unit_ok u) ->
  batch_ok P news -> NoDup (map tag news).
Proof.
  intros HP [Hall Hnd].
  assert (E : map tag news = map unit_tag (map unit_of news)).
  { rewrite map_map. apply map_ext_in. intros m Hm.
    rewrite Forall_forall in Hall. apply (Hall m Hm). }
  rewrite E. apply NoDup_map_inj_in; [|exact Hnd].
  intros u v Hu Hv Huv.
  apply in_map_iff in Hu. destruct Hu as (m & <- & Hm).
  apply in_map_iff in Hv. destruct Hv as (m' & <- & Hm').
  rewrite Forall_forall in Hall.
  apply unit_tag_inj; [apply HP, (Hall m Hm) | apply HP, (Hall m' Hm') | exact Huv].
Qed.

(** *** Batches of records *)

Lemma batch_nil (P : unit_id -> Prop) : batch_ok P [].
Proof. split; constructor. Qed.

Lemma batch_weaken (P Q : unit_id -> Prop) news :
  (forall u, P u -> Q u) -> batch_ok P news -> batch_ok Q news.
Proof.
  intros HPQ [Hall Hnd]. split; [|exact Hnd].
  eapply Forall_impl; [|exact Hall]. intros m [Ht Hp]. auto.
Qed.

Lemma NoDup_append {A : Type} (l1 l2 : list A) :
  NoDup l1 -> NoDup l2 -> (forall a, In a l1 -> In a l2 -> False) ->
  NoDup (l1 ++ l2).
Proof.
  induction l1 as [|a l1 IH]; intros H1 H2 Hd; simpl; [exact H2|].
  inversion H1 as [|? ? Hnotin Hl1]; subst. constructor.
  - intros Hin. apply in_app_or in Hin. destruct Hin as [Hin|Hin].
    + contradiction.
    + apply (Hd a); [left; reflexivity | exact Hin].
  - apply IH; auto. intros b Hb1 Hb2. apply (Hd b); [right; exact Hb1 | exact Hb2].
Qed.

Lemma batch_app (P Q R : unit_id -> Prop) n1 n2 :
  batch_ok P n1 -> batch_ok Q n2 ->
  (forall u, P u -> Q u -> False) ->
  (forall u, P u -> R u) -> (forall u, Q u -> R u) ->
  batch_ok R (n1 ++ n2).
Proof.
  intros [H1 N1] [H2 N2] Hd HP HQ. split.
  - apply Forall_app. split.
    + eapply Forall_impl; [|exact H1]. intros m [Ht Hp]. auto.
    + eapply Forall_impl; [|exact H2]. intros m [Ht Hp]. auto.
  - rewrite map_app. apply NoDup_append; auto.
    intros u Hu1 Hu2.
    apply in_map_iff in Hu1. destruct Hu1 as (m1 & <- & Hm1).
    apply in_map_iff in Hu2. destruct Hu2 as (m2 & E & Hm2).
    rewrite Forall_forall in H1, H2.
    apply (Hd (unit_of m1)); [apply (H1 m1 Hm1)|].
    rewrite <- E. apply (H2 m2 Hm2).
Qed.

Lemma NoDup_fst_enumerate {A : Type} (l : list A) : NoDup (map fst (enumerate l)).
Proof.
  unfold enumerate.
  assert (E : forall (k : nat) (l : list A),
             map fst (combine (seq k (length l)) l) = seq k (length l)).
  { intros k l0. revert k. induction l0 as [|a l0 IH]; intros k; simpl;
      [reflexivity | now rewrite IH]. }
  rewrite E. apply seq_NoDup.
Qed.

Lemma NoDup_fst_filter {A : Type} (f : nat * A -> bool) (xs : list (nat * A)) :
  NoDup (map fst xs) -> NoDup (map fst (filter f xs)).
Proof.
  induction xs as [|x xs IH]; intros H; simpl; [constructor|].
  inversion H as [|? ? Hnotin Hl]; subst.
  destruct (f x); [|auto].
  simpl. constructor; [|auto].
  intros Hin. apply Hnotin.
  apply in_map_iff in Hin. destruct Hin as (y & E & Hy).
  apply filter_In in Hy. apply in_map_iff. exists y. tauto.
Qed.

(** Records made from numbered items, the number telling the units apart. *)
Lemma indexed_batch {A : Type} (U : nat -> unit_id) (mk : nat * A -> MetaRecord)
    (P : unit_id -> Prop) (xs : list (nat * A)) :
  (forall x, tag (mk x) = unit_tag (unit_of (mk x)) /\ unit_of (mk x) = U (fst x)) ->
  (forall i j, U i = U j -> i = j) ->
  (forall i, P (U i)) ->
  NoDup (map fst xs) ->
  batch_ok P (map mk xs).
Proof.
  intros Hmk Hinj HP Hnd. split.
  - apply Forall_forall. intros m Hm.
    apply in_map_iff in Hm. destruct Hm as (x & <- & Hx).
    destruct (Hmk x) as [Ht Hu]. split; [exact Ht|]. rewrite Hu. apply HP.
  - rewrite map_map.
    assert (E : map (fun x => unit_of (mk x)) xs = map U (map fst xs)).
    { rewrite map_map. apply map_ext. intros x. apply Hmk. }
    rewrite E. apply NoDup_map_inj_in; [|exact Hnd].
    intros i j _ _. apply Hinj.
Qed.

Lemma fold_add_chunks (mk : nat -> str -> MetaRecord) : forall xs (acc : Acc),
  snd (fold_left
         (fun a x => (fst a ++ [snd x], snd a ++ [mk (fst x) (snd x)])) xs acc)
  = snd acc ++ map (fun x => mk (fst x) (snd x)) xs.
Proof.
  induction xs as [|x xs IH]; intros acc; simpl; [now rewrite app_nil_r|].
  rewrite IH. simpl. now rewrite <- app_assoc.
Qed.

Lemma fold_add_rows {A : Type} (mk : nat -> str -> MetaRecord)
    (line : nat * A -> str) : forall xs (acc : Acc),
  snd (fold_left (fun a x => add_row mk (fst x) (line x) a) xs acc)
  = snd acc
    ++ map (fun x => mk (fst x) (line x))
         (filter (fun x => match strip (line x) with [] => false | _ => true end) xs).
Proof.
  induction xs as [|x xs IH]; intros acc; simpl; [now rewrite app_nil_r|].
  rewrite IH. unfold add_row.
  destruct (strip (line x)); simpl; [reflexivity|].
  now rewrite <- app_assoc.
Qed.

(** *** Extensions and final digits *)

Lemma splitext_ext_suffix o q :
  splitext_ext o q = [] \/ exists k, splitext_ext o q = skipn k q.
Proof.
  unfold splitext_ext.
  destruct (_ <? _); [|left; reflexivity].
  destruct (existsb _ _); [right; eexists; reflexivity | left; reflexivity].
Qed.

Lemma ends_with_digit_suffix a b : b <> [] -> ends_with_digit (a ++ b) = ends_with_digit b.
Proof.
  intros Hb. destruct (exists_last Hb) as (b' & c & ->).
  unfold ends_with_digit. rewrite app_assoc, !rev_app_distr. reflexivity.
Qed.

Lemma ext_keeps_final_digit o q e :
  splitext_ext o q = e -> e <> [] -> ends_with_digit e = ends_with_digit q.
Proof.
  intros E Hne. destruct (splitext_ext_suffix o q) as [H|[k H]]; [congruence|].
  rewrite E in H. rewrite H in *.
  rewrite <- (firstn_skipn k q) at 2.
  symmetry. apply ends_with_digit_suffix. exact Hne.
Qed.

Lemma str_in_In x l : str_in x l = true -> In x l.
Proof.
  unfold str_in. intros H. apply existsb_exists in H.
  destruct H as (y & Hy & E). unfold str_eqb in E. revert E.
  destruct (list_eq_dec N.eq_dec x y); [subst; intros _; exact Hy | discriminate].
Qed.

Lemma slashes_final_digit p :
  ends_with_digit (slashes p) = true ->
  exists s d, p = s ++ [d] /\ is_digit d = true.
Proof.
  unfold ends_with_digit, slashes. rewrite <- map_rev.
  match goal with
  | |- context [map _ ?x] => destruct x as [|c r] eqn:E
  end; simpl; [discriminate|].
  intros H. exists (rev r), c.
  split.
  - apply (f_equal (@rev N)) in E. rewrite rev_involutive in E. exact E.
  - destruct (N.eqb_spec c 92); [subst; discriminate H | exact H].
Qed.

(** ** The pipeline *)

Section PipelineFacts.

Variables image vec : Type.
Variable env : Env image vec.
Variable cfg : PipelineConfig.

Lemma filter_none {A : Type} (f : A -> bool) (l : list A) :
  (forall x, In x l -> f x = false) -> filter f l = [].
Proof.
  induction l as [|x l IH]; intros H; [reflexivity|]. simpl.
  rewrite (H x) by (left; reflexivity).
  apply IH. intros y Hy. apply H. right. exact Hy.
Qed.

(** C5: when the folder exists and none of the files below it has a
    supported extension, [ingest_folder] raises the error "No supported
    files found in folder." and the state it leaves, the three files of the
    store included, is the state it started from. *)
Theorem ingest_folder_no_supported_files (fuel : nat) (folder : str)
    (s : State vec) :
  isdir env (abspath env folder) = true ->
  (forall p, In p (walk env (abspath env folder)) -> supported env p = false) ->
  ingest_folder env cfg fuel folder s
  = Raise (RuntimeError (lit "No supported files found in folder.")) s.
Proof.
  intros Hdir Hnone. unfold ingest_folder.
  rewrite Hdir. cbn [negb].
  rewrite (filter_none _ _ Hnone).
  cbv [bind load_manifest get ret raise].
  destruct (manifest_file (disk s)); reflexivity.
Qed.

(** *** Query *)

Lemma bind_Ret {A B : Type} (m : M vec A) (k : A -> M vec B) s a s' :
  m s = Ret a s' -> bind m k s = k a s'.
Proof. intros H. unfold bind. now rewrite H. Qed.

Lemma contexts_loop (ms : list MetaRecord) : forall (idxs : list Z)
    (acc : list MetaRecord) (s0 : State vec),
  (forall i, In i (filter (fun i => 0 <=? i) idxs) -> i < Z.of_nat (length ms)) ->
  exists ctx,
    for_each idxs
      (fun ctx i =>
         if 0 <=? i then
           match nth_error ms (Z.to_nat i) with
           | Some m => ret (ctx ++ [m])
           | None => raise IndexError
           end
         else ret ctx) acc s0
    = Ret (acc ++ ctx) s0 /\
    Forall2 (fun i m => nth_error ms (Z.to_nat i) = Some m)
      (filter (fun i => 0 <=? i) idxs) ctx.
Proof.
  induction idxs as [|i idxs IH]; intros acc s0 Hin.
  - exists []. split; [now rewrite app_nil_r | constructor].
  - cbn [for_each filter] in *. unfold bind at 1.
    destruct (Z.leb_spec 0 i) as [Hi|Hi].
    + assert (Hlt : i < Z.of_nat (length ms)) by (apply Hin; left; reflexivity).
      destruct (nth_error ms (Z.to_nat i)) as [m|] eqn:E.
      * destruct (IH (acc ++ [m]) s0) as [ctx [Hrun Hall]].
        { intros j Hj. apply Hin. right. exact Hj. }
        exists (m :: ctx). unfold ret at 1. rewrite Hrun.
        split; [now rewrite <- app_assoc | constructor; assumption].
      * apply nth_error_None in E. lia.
    + destruct (IH acc s0) as [ctx [Hrun Hall]]; [exact Hin|].
      exists ctx. unfold ret at 1. rewrite Hrun. split; [reflexivity | exact Hall].
Qed.


(** *** Ingestion of a CSV file *)

Lemma slashes_id (p : str) :
  forallb (fun c => negb (c =? 92)%N) p = true -> slashes p = p.
Proof.
  induction p as [|c p IH]; intros H; [reflexivity|].
  simpl in H. apply andb_prop in H. destruct H as [Hc Hp].
  unfold slashes in *. simpl. rewrite (IH Hp).
  destruct (c =? 92)%N; [discriminate | reflexivity].
Qed.

(** C9: when the folder holds exactly one file, a CSV file whose reader
    yields the rows [a,b] and [1,2], [ingest_folder] completes with exactly
    two metadata records, tagged [[file:<rel> row000 c000]] and
    [[file:<rel> row001 c000]] with texts "a | b" and "1 | 2", where
    [<rel>] is the file's relative path with [/] as separator (the name
    itself when it has no backslash); the records are what is written to the
    metadata file. *)
Theorem ingest_two_row_csv (fuel : nat) (folder name : str) (s : State vec) :
  isdir env (abspath env folder) = true ->
  walk env (abspath env folder) = [name] ->
  ext_of env name = lit ".csv" ->
  csv_reader env (path_join env (abspath env folder) name)
  = [[lit "a"; lit "b"]; [lit "1"; lit "2"]] ->
  exists s',
    ingest_folder env cfg fuel folder s = Ret tt s' /\
    map (fun m => (tag m, text m)) (meta s')
    = [(lit "[file:" ++ slashes name ++ lit " row000 c000]", lit "a | b");
       (lit "[file:" ++ slashes name ++ lit " row001 c000]", lit "1 | 2")] /\
    map file_type (meta s') = [lit "csv"; lit "csv"] /\
    meta_file (disk s') = Some (meta s') /\
    (forallb (fun c => negb (c =? 92)%N) name = true -> slashes name = name).
Proof.
  intros Hdir Hwalk Hext Hcsv.
  assert (Hm : exists prev, load_manifest s = Ret prev s).
  { unfold load_manifest, bind, get.
    destruct (manifest_file (disk s)); eexists; reflexivity. }
  destruct Hm as [prev Hm].
  unfold ingest_folder. rewrite Hdir, Hwalk. cbn [negb filter].
  unfold supported. rewrite Hext.
  change (str_in (lit ".csv") supported_exts) with true. cbv iota.
  rewrite (bind_Ret _ _ _ _ _ Hm).
  cbn [for_each].
  unfold ingest_file. rewrite Hext.
  change (str_eqb (lit ".csv") (lit ".pdf")) with false.
  change (str_in (lit ".csv") exts_img) with false.
  change (str_in (lit ".csv") exts_txt) with false.
  change (str_in (lit ".csv") exts_csv) with true.
  cbv iota. unfold ingest_csv. rewrite Hcsv.
  eexists. split; [reflexivity|].
  split; [reflexivity|].
  split; [reflexivity|].
  split; [reflexivity|].
  apply slashes_id.
Qed.

(** *** Tags of one run *)

Lemma bind_Ret_inv {A B : Type} (m : M vec A) (k : A -> M vec B) s b s' :
  bind m k s = Ret b s' -> exists a s1, m s = Ret a s1 /\ k a s1 = Ret b s'.
Proof.
  unfold bind. destruct (m s) as [a s1| |]; try discriminate.
  intros H. exists a, s1. auto.
Qed.

Lemma chunked_rel_no_digit (L : list str) (p : str) :
  lower_keeps_last_digit env ->
  Forall (fun e => ends_with_digit e = false /\ e <> []) L ->
  str_in (ext_of env p) L = true ->
  ends_with_digit (slashes p) = false.
Proof.
  intros Hl HL Hin. apply str_in_In in Hin.
  rewrite Forall_forall in HL. destruct (HL _ Hin) as [He Hne].
  destruct (ends_with_digit (slashes p)) eqn:E; [|reflexivity]. exfalso.
  apply slashes_final_digit in E. destruct E as (s & d & -> & Hd).
  destruct (Hl s d Hd) as [s' Es'].
  unfold ext_of in He, Hne. rewrite Es' in He, Hne.
  rewrite (ext_keeps_final_digit _ _ _ eq_refl Hne) in He.
  unfold ends_with_digit in He. rewrite rev_app_distr in He. simpl in He.
  congruence.
Qed.

Lemma exts_img_letters :
  Forall (fun e => ends_with_digit e = false /\ e <> []) exts_img.
Proof. repeat constructor; discriminate. Qed.

Lemma exts_txt_letters :
  Forall (fun e => ends_with_digit e = false /\ e <> []) exts_txt.
Proof. repeat constructor; discriminate. Qed.

Lemma chunks_batch (ftype path rel_ : str) (chunks : list str) (acc : Acc) :
  ends_with_digit rel_ = false ->
  exists news,
    snd (add_chunks (chunk_record env ftype path rel_) chunks acc) = snd acc ++ news /\
    batch_ok (fun u => unit_ok u /\ unit_rel u = rel_) news.
Proof.
  intros Hrel. unfold add_chunks. rewrite fold_add_chunks.
  eexists. split; [reflexivity|].
  apply (indexed_batch (fun ci => UChunk rel_ ci)).
  - intros x. split; reflexivity.
  - intros i j H. now injection H.
  - intros i. split; [exact Hrel | reflexivity].
  - apply NoDup_fst_enumerate.
Qed.

Lemma page_batch (path rel_ : str) (page_ : nat) (chunks : list str) (acc : Acc) :
  exists news,
    snd (add_chunks (pdf_record env path rel_ page_) chunks acc) = snd acc ++ news /\
    batch_ok (fun u => exists ci, u = UPage rel_ page_ ci) news.
Proof.
  unfold add_chunks. rewrite fold_add_chunks.
  eexists. split; [reflexivity|].
  apply (indexed_batch (fun ci => UPage rel_ page_ ci)).
  - intros x. split; reflexivity.
  - intros i j H. now injection H.
  - intros i. exists i. reflexivity.
  - apply NoDup_fst_enumerate.
Qed.

Lemma csv_batch (path rel_ : str) (rws : list (list str)) (acc : Acc) :
  has_infix (lit " sheet:") rel_ = false ->
  exists news,
    snd (fold_left
           (fun a x => add_row (csv_record env path rel_) (fst x) (csv_line (snd x)) a)
           (enumerate rws) acc) = snd acc ++ news /\
    batch_ok (fun u => unit_ok u /\ unit_rel u = rel_) news.
Proof.
  intros Hrel.
  rewrite (fold_add_rows (csv_record env path rel_) (fun x => csv_line (snd x))).
  eexists. split; [reflexivity|].
  apply (indexed_batch (fun r => URow rel_ r)
           (fun x => csv_record env path rel_ (fst x) (csv_line (snd x)))).
  - intros x. split; reflexivity.
  - intros i j H. now injection H.
  - intros i. split; [exact Hrel | reflexivity].
  - apply NoDup_fst_filter, NoDup_fst_enumerate.
Qed.

Lemma sheet_batch (path rel_ : str) (acc : Acc) (sh : str * DataFrame) :
  exists news,
    snd (ingest_sheet env path rel_ acc sh) = snd acc ++ news /\
    batch_ok (fun u => exists r, u = USheetRow rel_ (fst sh) r) news.
Proof.
  unfold ingest_sheet. destruct (df_empty (snd sh)).
  - exists []. split; [now rewrite app_nil_r | apply batch_nil].
  - rewrite (fold_add_rows (excel_record env path rel_ (fst sh))
               (fun x => format_df_row env (normalize_columns (columns (snd sh)))
                           (fillna (snd x)))).
    eexists. split; [reflexivity|].
    apply (indexed_batch (fun r => USheetRow rel_ (fst sh) r)
             (fun x => excel_record env path rel_ (fst sh) (fst x)
                         (format_df_row env (normalize_columns (columns (snd sh)))
                            (fillna (snd x))))).
    + intros x. split; reflexivity.
    + intros i j H. now injection H.
    + intros i. exists i. reflexivity.
    + apply NoDup_fst_filter, NoDup_fst_enumerate.
Qed.

Lemma sheets_batch (path rel_ : str) : forall (sheets : list (str * DataFrame))
    (acc : Acc),
  NoDup (map fst sheets) ->
  exists news,
    snd (fold_left (ingest_sheet env path rel_) sheets acc) = snd acc ++ news /\
    batch_ok (fun u => exists sh r, u = USheetRow rel_ sh r /\ In sh (map fst sheets))
      news.
Proof.
  induction sheets as [|sh sheets IH]; intros acc Hnd.
  - exists []. split; [simpl; now rewrite app_nil_r | apply batch_nil].
  - inversion Hnd as [|? ? Hnotin Hrest]; subst.
    destruct (sheet_batch path rel_ acc sh) as (n1 & E1 & B1).
    destruct (IH (ingest_sheet env path rel_ acc sh) Hrest) as (n2 & E2 & B2).
    exists (n1 ++ n2). split.
    + simpl. rewrite E2, E1. now rewrite <- app_assoc.
    + eapply batch_app; [exact B1 | exact B2 | | |].
      * intros u [r ->] (sh' & r' & E & Hin). injection E as <- _. contradiction.
      * intros u [r ->]. exists (fst sh), r. split; [reflexivity | left; reflexivity].
      * intros u (sh' & r' & -> & Hin). exists sh', r'. split; [reflexivity | right; exact Hin].
Qed.

Lemma pages_batch (fuel : nat) (path rel_ : str) :
  forall (pages : list (nat * image)) (acc : Acc) s acc' s',
  NoDup (map fst pages) ->
  for_each pages
    (fun acc iimg =>
       bind (ocr_image env cfg (snd iimg))
         (fun t =>
            bind (chunk_text_m cfg fuel t)
              (fun chunks =>
                 ret (add_chunks (pdf_record env path rel_ (fst iimg + 1)) chunks acc))))
    acc s = Ret acc' s' ->
  exists news,
    snd acc' = snd acc ++ news /\
    batch_ok (fun u => exists i ci, u = UPage rel_ (i + 1) ci /\ In i (map fst pages))
      news.
Proof.
  induction pages as [|pg pages IH]; intros acc s acc' s' Hnd Hrun.
  - simpl in Hrun. injection Hrun as <- _.
    exists []. split; [now rewrite app_nil_r | apply batch_nil].
  - inversion Hnd as [|? ? Hnotin Hrest]; subst.
    cbn [for_each] in Hrun.
    apply bind_Ret_inv in Hrun. destruct Hrun as (acc1 & s1 & Hbody & Hrun).
    apply bind_Ret_inv in Hbody. destruct Hbody as (t & s2 & _ & Hbody).
    apply bind_Ret_inv in Hbody. destruct Hbody as (chunks & s3 & _ & Hbody).
    injection Hbody as <- _.
    destruct (page_batch path rel_ (fst pg + 1) chunks acc) as (n1 & E1 & B1).
    destruct (IH _ _ _ _ Hrest Hrun) as (n2 & E2 & B2).
    exists (n1 ++ n2). split.
    + rewrite E2, E1. now rewrite <- app_assoc.
    + eapply batch_app; [exact B1 | exact B2 | | |].
      * intros u [ci ->] (i & ci' & E & Hin). injection E as E _.
        assert (fst pg = i) by lia. subst i. contradiction.
      * intros u [ci ->]. exists (fst pg), ci. split; [reflexivity | left; reflexivity].
      * intros u (i & ci & -> & Hin). exists i, ci. split; [reflexivity | right; exact Hin].
Qed.

Lemma str_in_app x l1 l2 : str_in x (l1 ++ l2) = str_in x l1 || str_in x l2.
Proof. unfold str_in. apply existsb_app. Qed.

Lemma ingest_file_batch (fuel : nat) (folder : str) (st : Acc * dict str)
    (p : str) s st' s' :
  lower_keeps_last_digit env ->
  (forall path, NoDup (map fst (read_excel env path))) ->
  (str_in (ext_of env p) (exts_csv ++ exts_xlsx) = true ->
   has_infix (lit " sheet:") (slashes p) = false) ->
  ingest_file env cfg fuel folder st p s = Ret st' s' ->
  exists news,
    snd (fst st') = snd (fst st) ++ news /\
    batch_ok (fun u => unit_ok u /\ unit_rel u = slashes p) news.
Proof.
  intros Hlow Hbook Hrow Hrun. unfold ingest_file in Hrun.
  apply bind_Ret_inv in Hrun. destruct Hrun as (acc' & s1 & Hbranch & Hret).
  injection Hret as <- _. cbn [fst].
  rewrite str_in_app in Hrow.
  destruct (str_eqb (ext_of env p) (lit ".pdf")).
  { unfold ingest_pdf in Hbranch.
    destruct (have_pdf2image env); cbn [negb] in Hbranch; [|discriminate].
    apply pages_batch in Hbranch; [|apply NoDup_fst_enumerate].
    destruct Hbranch as (news & E & B). exists news. split; [exact E|].
    eapply batch_weaken; [|exact B].
    intros u (i & ci & -> & _). split; [exact I | reflexivity]. }
  destruct (str_in (ext_of env p) exts_img) eqn:Eimg.
  { unfold ingest_image in Hbranch.
    apply bind_Ret_inv in Hbranch. destruct Hbranch as (t & s2 & _ & Hbranch).
    apply bind_Ret_inv in Hbranch. destruct Hbranch as (chunks & s3 & _ & Hbranch).
    injection Hbranch as <- _.
    apply chunks_batch.
    eapply chunked_rel_no_digit; [exact Hlow | apply exts_img_letters | exact Eimg]. }
  destruct (str_in (ext_of env p) exts_txt) eqn:Etxt.
  { unfold ingest_text in Hbranch.
    apply bind_Ret_inv in Hbranch. destruct Hbranch as (chunks & s3 & _ & Hbranch).
    injection Hbranch as <- _.
    apply chunks_batch.
    eapply chunked_rel_no_digit; [exact Hlow | apply exts_txt_letters | exact Etxt]. }
  destruct (str_in (ext_of env p) exts_csv) eqn:Ecsv.
  { unfold ingest_csv in Hbranch. injection Hbranch as <- _.
    apply csv_batch. apply Hrow. reflexivity. }
  destruct (str_in (ext_of env p) exts_xlsx) eqn:Exlsx.
  { unfold ingest_excel in Hbranch.
    destruct (have_pandas env); cbn [negb] in Hbranch; [|discriminate].
    injection Hbranch as <- _.
    destruct (sheets_batch (path_join env folder p) (slashes p)
                (read_excel env (path_join env folder p)) (fst st) (Hbook _))
      as (news & E & B).
    exists news. split; [exact E|].
    eapply batch_weaken; [|exact B].
    intros u (sh & r & -> & _). split; [apply Hrow; reflexivity | reflexivity]. }
  injection Hbranch as <- _.
  exists []. split; [now rewrite app_nil_r | apply batch_nil].
Qed.

Lemma files_batch (fuel : nat) (folder : str) :
  lower_keeps_last_digit env ->
  (forall path, NoDup (map fst (read_excel env path))) ->
  forall (files : list str) (st : Acc * dict str) s st' s',
  NoDup (map slashes files) ->
  (forall p, In p files ->
     str_in (ext_of env p) (exts_csv ++ exts_xlsx) = true ->
     has_infix (lit " sheet:") (slashes p) = false) ->
  for_each files (ingest_file env cfg fuel folder) st s = Ret st' s' ->
  exists news,
    snd (fst st') = snd (fst st) ++ news /\
    batch_ok (fun u => unit_ok u /\ In (unit_rel u) (map slashes files)) news.
Proof.
  intros Hlow Hbook.
  induction files as [|p files IH]; intros st s st' s' Hnd Hrow Hrun.
  - simpl in Hrun. injection Hrun as <- _.
    exists []. split; [now rewrite app_nil_r | apply batch_nil].
  - inversion Hnd as [|? ? Hnotin Hrest]; subst.
    cbn [for_each] in Hrun.
    apply bind_Ret_inv in Hrun. destruct Hrun as (st1 & s1 & Hfile & Hrun).
    apply ingest_file_batch in Hfile; auto;
      [|intros Hx; apply Hrow; [left; reflexivity | exact Hx]].
    destruct Hfile as (n1 & E1 & B1).
    apply IH in Hrun; auto;
      [|intros q Hq Hx; apply Hrow; [right; exact Hq | exact Hx]].
    destruct Hrun as (n2 & E2 & B2).
    exists (n1 ++ n2). split.
    + rewrite E2, E1. now rewrite <- app_assoc.
    + eapply batch_app; [exact B1 | exact B2 | | |].
      * intros u [_ E] [_ Hin]. rewrite E in Hin. contradiction.
      * intros u [Hok E]. split; [exact Hok | left; symmetry; exact E].
      * intros u [Hok Hin]. split; [exact Hok | right; exact Hin].
Qed.

(** C3, amended: when the relative paths of the files a run processes stay
    pairwise distinct after [\] is replaced by [/], and none of the CSV and
    Excel files among them has [" sheet:"] in its relative path, no two
    metadata records of a completed run of [ingest_folder] carry the same
    citation tag.  ([str.lower] leaves a final digit in place and a
    workbook has no two sheets of one name.) *)
Theorem ingest_folder_tags_unique (fuel : nat) (folder : str) (s s' : State vec) :
  lower_keeps_last_digit env ->
  (forall path, NoDup (map fst (read_excel env path))) ->
  NoDup (map slashes (filter (supported env) (walk env (abspath env folder)))) ->
  (forall p, In p (filter (supported env) (walk env (abspath env folder))) ->
     str_in (ext_of env p) (exts_csv ++ exts_xlsx) = true ->
     has_infix (lit " sheet:") (slashes p) = false) ->
  ingest_folder env cfg fuel folder s = Ret tt s' ->
  NoDup (map tag (meta s')).
Proof.
  intros Hlow Hbook Hnd Hrow Hrun. unfold ingest_folder in Hrun.
  destruct (isdir env (abspath env folder)); cbn [negb] in Hrun; [|discriminate].
  apply bind_Ret_inv in Hrun. destruct Hrun as (prev & s0 & _ & Hrun).
  destruct (filter (supported env) (walk env (abspath env folder)))
    as [|p0 files] eqn:Efiles; [discriminate|].
  apply bind_Ret_inv in Hrun. destruct Hrun as (r & s1 & Hloop & Hrun).
  apply files_batch in Hloop; auto.
  destruct Hloop as (news & E & B). cbn [fst snd app] in E.
  cbv zeta in Hrun.
  destruct (fst (fst r)) as [|ch chs]; [discriminate|].
  apply bind_Ret_inv in Hrun. destruct Hrun as (vectors & s2 & _ & Hrun).
  cbv [bind set_index save_index save_meta save_manifest modify get ret] in Hrun.
  cbn [store_index] in Hrun.
  injection Hrun as <-. cbn [meta]. rewrite E.
  apply (batch_tags_NoDup _ _ (fun u H => proj1 H) B).
Qed.

(** *** The embedding client keeps the order of its inputs *)

Lemma embed_loop_in_order : forall (texts : list str) (acc : list vec) (s : State vec),
  exists s',
    for_each texts
      (fun vecs t =>
         bind (log_call (CallEmbeddings (embed_model cfg) t))
           (fun _ => ret (vecs ++ [l2_normalize env (embeddings env (embed_model cfg) t)])))
      acc s
    = Ret (acc ++ map (fun t => l2_normalize env (embeddings env (embed_model cfg) t)) texts) s'.
Proof.
  induction texts as [|t texts IH]; intros acc s.
  - exists s. simpl. now rewrite app_nil_r.
  - cbn [for_each]. unfold bind at 1. cbv [bind log_call modify ret].
    match goal with
    | |- exists s', for_each _ _ _ ?s1 = _ =>
        destruct (IH (acc ++ [l2_normalize env (embeddings env (embed_model cfg) t)]) s1)
          as [s' Hs']
    end.
    exists s'. cbv [bind log_call modify ret] in Hs'. rewrite Hs'.
    simpl. now rewrite <- app_assoc.
Qed.

Lemma embed_in_order (texts : list str) (s : State vec) :
  texts <> [] ->
  exists s',
    embed env cfg texts s
    = Ret (map (fun t => l2_normalize env (embeddings env (embed_model cfg) t)) texts) s'.
Proof.
  intros Hne. unfold embed.
  destruct (embed_loop_in_order texts [] s) as [s' Hs'].
  exists s'. rewrite (bind_Ret _ _ _ _ _ Hs'). simpl.
  destruct texts; [contradiction | reflexivity].
Qed.

End PipelineFacts.

Lemma ingest_folder_no_supported_files_witness :
  ingest_folder (sample_env [lit "notes.doc"; lit "README"] (fun _ => [])
                   (fun _ => []) (fun _ => []) [])
    sample_cfg 0 (lit "/data") fresh_state
  = Raise (RuntimeError (lit "No supported files found in folder.")) fresh_state.
Proof.
  apply ingest_folder_no_supported_files.
  - reflexivity.
  - intros p [<-|[<-|[]]]; vm_compute; reflexivity.
Defined.


Lemma ingest_two_row_csv_witness :
  exists s',
    ingest_folder (sample_env [lit "t.csv"] (fun _ => []) (fun _ => two_rows)
                     (fun _ => []) [])
      sample_cfg 0 (lit "/data") fresh_state = Ret tt s' /\
    map (fun m => (tag m, text m)) (meta s')
    = [(lit "[file:" ++ slashes (lit "t.csv") ++ lit " row000 c000]", lit "a | b");
       (lit "[file:" ++ slashes (lit "t.csv") ++ lit " row001 c000]", lit "1 | 2")] /\
    map file_type (meta s') = [lit "csv"; lit "csv"] /\
    meta_file (disk s') = Some (meta s') /\
    (forallb (fun c => negb (c =? 92)%N) (lit "t.csv") = true ->
     slashes (lit "t.csv") = lit "t.csv").
Proof.
  apply (ingest_two_row_csv unit unit
           (sample_env [lit "t.csv"] (fun _ => []) (fun _ => two_rows)
              (fun _ => []) [])
           sample_cfg 0 (lit "/data") (lit "t.csv") fresh_state);
    reflexivity.
Defined.


Example query_answer_ex :
  exists s2,
    query (sample_env [] (fun _ => []) (fun _ => []) (fun _ => []) [0; -1])
      sample_cfg (lit "why?") ready_state = Ret (lit "x") s2 /\
    exists user, calls s2 = [CallEmbeddings (embed_model sample_cfg) (lit "why?");
                             CallChat (qa_model sample_cfg) qa_system user].
Proof. eexists. split; [reflexivity|]. eexists. reflexivity. Qed.

Lemma ascii_lower_keeps_last_digit files texts csvs books hits :
  lower_keeps_last_digit (sample_env files texts csvs books hits).
Proof.
  intros s d Hd. exists (ascii_lower s). cbn [lower sample_env].
  unfold ascii_lower. rewrite map_app. simpl. f_equal. f_equal.
  unfold is_digit in Hd. apply andb_prop in Hd. destruct Hd as [H1 H2].
  apply N.leb_le in H1, H2.
  destruct (N.leb_spec 65 d); [|reflexivity].
  destruct (N.leb_spec d 90); [lia | reflexivity].
Qed.

Lemma ingest_folder_tags_unique_witness :
  exists s',
    ingest_folder mixed_env sample_cfg 1 (lit "/data") fresh_state = Ret tt s' /\
    NoDup (map tag (meta s')).
Proof.
  assert (R : exists s',
             ingest_folder mixed_env sample_cfg 1 (lit "/data") fresh_state
             = Ret tt s')
    by (vm_compute; eexists; reflexivity).
  destruct R as [s' R]. exists s'. split; [exact R|].
  apply (ingest_folder_tags_unique unit unit mixed_env sample_cfg 1 (lit "/data")
           fresh_state s').
  - apply ascii_lower_keeps_last_digit.
  - intros path. cbn [read_excel mixed_env sample_env map fst].
    repeat constructor; simpl; intuition discriminate.
  - vm_compute. repeat constructor; simpl; intuition discriminate.
  - intros p Hin _. vm_compute in Hin.
    destruct Hin as [<-|[<-|[<-|[]]]]; vm_compute; reflexivity.
  - exact R.
Defined.

Example mixed_tags_ex :
  exists s',
    ingest_folder mixed_env sample_cfg 1 (lit "/data") fresh_state = Ret tt s' /\
    map tag (meta s')
    = [lit "[file:notes.txt c000]";
       lit "[file:t.csv row000 c000]"; lit "[file:t.csv row001 c000]";
       lit "[file:book.xlsx sheet:S1 row000 c000]";
       lit "[file:book.xlsx sheet:S2 row000 c000]"] /\
    map text (meta s') = [lit "x"; lit "a | b"; lit "1 | 2"; lit "k=v"; lit "k=v"].
Proof. vm_compute. eexists. repeat split; reflexivity. Qed.

Example marker_collision_ex :
  exists s',
    ingest_folder marker_env sample_cfg 1 (lit "/data") fresh_state = Ret tt s' /\
    map tag (meta s')
    = [lit "[file:x.xlsx sheet:d.csv row000 c000]";
       lit "[file:x.xlsx sheet:d.csv row000 c000]"].
Proof. vm_compute. eexists. split; reflexivity. Qed.

(** Joining a name to a folder and to the root folder. *)
Example path_join_ex :
  path_join (sample_env [] (fun _ => []) (fun _ => []) (fun _ => []) [])
    (lit "/data") (lit "t.csv") = lit "/data/t.csv" /\
  path_join (sample_env [] (fun _ => []) (fun _ => []) (fun _ => []) [])
    (lit "/") (lit "n.txt") = lit "/n.txt".
Proof. split; reflexivity. Qed.

(** * Further properties *)

(** ** The shape of normalised text *)

Lemma blanks_ok_no_tab s : forall b, blanks_ok b s = true -> ~ In TAB s.
Proof.
  induction s as [|c s IH]; intros b H; [intros []|].
  simpl in H. intros [E|Hin].
  - subst c. change (is_blank TAB) with true in H.
    change (TAB =? SP)%N with false in H. discriminate H.
  - destruct (is_blank c).
    + apply andb_prop in H. destruct H as [_ H]. exact (IH _ H Hin).
    + exact (IH _ H Hin).
Qed.

Lemma blanks_ok_no_double_space s : forall b,
  blanks_ok b s = true -> has_infix [SP; SP] s = false.
Proof.
  induction s as [|c s IH]; intros b H; [reflexivity|].
  simpl in H.
  change (has_infix [SP; SP] (c :: s))
    with (starts_with [SP; SP] (c :: s) || has_infix [SP; SP] s).
  assert (Hrest : exists b', blanks_ok b' s = true).
  { destruct (is_blank c); [|eauto].
    apply andb_prop in H. destruct H as [_ H]. eauto. }
  destruct Hrest as [b' Hrest]. rewrite (IH _ Hrest), orb_false_r.
  cbn [starts_with].
  destruct (N.eqb_spec SP c) as [<-|]; [|reflexivity].
  change (is_blank SP) with true in H.
  apply andb_prop in H. destruct H as [_ H].
  destruct s as [|c2 s]; [reflexivity|].
  destruct (N.eqb_spec SP c2) as [<-|]; [|reflexivity].
  simpl in H. discriminate H.
Qed.

Lemma newlines_ok_no_run s : forall k,
  newlines_ok k s = true ->
  has_infix [NL; NL; NL] s = false /\
  ((1 <= k)%nat -> starts_with [NL; NL] s = false) /\
  ((2 <= k)%nat -> starts_with [NL] s = false).
Proof.
  induction s as [|c s IH]; intros k H; [repeat split; reflexivity|].
  simpl in H.
  change (has_infix [NL; NL; NL] (c :: s))
    with (starts_with [NL; NL; NL] (c :: s) || has_infix [NL; NL; NL] s).
  cbn [starts_with].
  destruct (N.eqb_spec c NL) as [->|Hc].
  - apply andb_prop in H. destruct H as [Hk H]. apply Nat.ltb_lt in Hk.
    destruct (IH _ H) as (H1 & H2 & H3).
    change (NL =? NL)%N with true. cbn [andb].
    repeat split.
    + rewrite H1, orb_false_r. apply H2. lia.
    + intros Hk1. apply H3. lia.
    + intros Hk2. exfalso. lia.
  - destruct (IH _ H) as (H1 & _ & _).
    destruct (N.eqb_spec NL c) as [E|_]; [congruence|].
    repeat split; auto.
Qed.

Lemma rstrip_last_ok s : head_ok (rev (rstrip s)).
Proof.
  unfold rstrip. rewrite rev_involutive. apply drop_while_head_ok.
Qed.

(** X1: normalised text has no carriage return and no tab, no two spaces in
    a row, no three newlines in a row, and neither begins nor ends with
    white space. *)
Theorem normalize_ws_shape (t : str) :
  ~ In CR (normalize_ws t) /\
  ~ In TAB (normalize_ws t) /\
  has_infix [SP; SP] (normalize_ws t) = false /\
  has_infix [NL; NL; NL] (normalize_ws t) = false /\
  head_ok (normalize_ws t) /\
  head_ok (rev (normalize_ws t)).
Proof.
  repeat split.
  - pose proof (normalize_ws_no_cr t) as H. unfold no_cr in H.
    rewrite Forall_forall in H. intros Hin. exact (H _ Hin eq_refl).
  - exact (blanks_ok_no_tab _ _ (normalize_ws_blanks_ok t)).
  - exact (blanks_ok_no_double_space _ _ (normalize_ws_blanks_ok t)).
  - exact (proj1 (newlines_ok_no_run _ _ (normalize_ws_newlines_ok t))).
  - unfold normalize_ws, strip, lstrip.
    apply rstrip_head_ok, drop_while_head_ok.
  - unfold normalize_ws, strip. apply rstrip_last_ok.
Qed.

(** ** What the normaliser keeps and what it drops *)

Lemma replace_crlf_pair (P : str -> str -> Prop) :
  P [] [] ->
  (forall c, P [c] [c]) ->
  (forall s, P s (replace_crlf s) -> P (CR :: NL :: s) (NL :: replace_crlf s)) ->
  (forall c c2 s, ((c =? CR) && (c2 =? NL))%N = false ->
     P (c2 :: s) (replace_crlf (c2 :: s)) ->
     P (c :: c2 :: s) (c :: replace_crlf (c2 :: s))) ->
  forall s, P s (replace_crlf s).
Proof.
  intros H0 H1 H2 H3.
  assert (H : forall s, P s (replace_crlf s) /\ forall c, P (c :: s) (replace_crlf (c :: s))).
  { induction s as [|c2 s [IHs IHc]].
    - split; [exact H0 | exact H1].
    - split; [apply IHc|]. intros c.
      change (replace_crlf (c :: c2 :: s))
        with (if ((c =? CR) && (c2 =? NL))%N then NL :: replace_crlf s
              else c :: replace_crlf (c2 :: s)).
      destruct ((c =? CR) && (c2 =? NL))%N eqn:E.
      + apply andb_prop in E. destruct E as [Ec Ec2].
        apply N.eqb_eq in Ec, Ec2. subst. apply H2, IHs.
      + apply H3; [exact E | apply IHc]. }
  intros s. apply H.
Qed.

Lemma replace_crlf_Forall (P : char -> Prop) s :
  P NL -> Forall P s -> Forall P (replace_crlf s).
Proof.
  intros HNL.
  apply (replace_crlf_pair (fun s r => Forall P s -> Forall P r)); auto.
  - intros s0 IH H. inversion H as [|? ? _ H']; inversion H' as [|? ? _ H'']; subst.
    constructor; auto.
  - intros c c2 s0 _ IH H. inversion H; subst. constructor; auto.
Qed.

Lemma replace_crlf_keeps c s : c <> CR -> In c s -> In c (replace_crlf s).
Proof.
  intros Hc.
  apply (replace_crlf_pair (fun s r => In c s -> In c r)); auto.
  - intros s0 IH [E|[E|Hin]]; [congruence | left; auto | right; auto].
  - intros c1 c2 s0 _ IH [E|Hin]; [left; exact E | right; auto].
Qed.

Lemma replace_crlf_length s : (length (replace_crlf s) <= length s)%nat.
Proof.
  apply (replace_crlf_pair (fun s r => (length r <= length s)%nat)); simpl; intros; lia.
Qed.

Lemma sub_blanks_from_Forall (P : char -> Prop) s : forall b,
  P SP -> Forall P s -> Forall P (sub_blanks_from b s).
Proof.
  induction s as [|c s IH]; intros b HSP H; simpl; [constructor|].
  inversion H; subst.
  destruct (is_blank c); [destruct b|]; auto.
Qed.

Lemma sub_blanks_from_keeps c s : forall b,
  is_blank c = false -> In c s -> In c (sub_blanks_from b s).
Proof.
  induction s as [|c' s IH]; intros b Hc Hin; [destruct Hin|].
  simpl. destruct Hin as [->|Hin].
  - rewrite Hc. left. reflexivity.
  - destruct (is_blank c'); [destruct b|]; [auto | right; auto | right; auto].
Qed.

Lemma sub_blanks_from_length s : forall b,
  (length (sub_blanks_from b s) <= length s)%nat.
Proof.
  induction s as [|c s IH]; intros b; simpl; [lia|].
  destruct (is_blank c); [destruct b|]; simpl;
    [specialize (IH true) | specialize (IH true) | specialize (IH false)]; lia.
Qed.

Lemma flush_newlines_Forall (P : char -> Prop) k : P NL -> Forall P (flush_newlines k).
Proof.
  intros H. unfold flush_newlines. destruct (3 <=? k)%nat.
  - repeat constructor; exact H.
  - apply Forall_forall. intros c Hc. apply repeat_spec in Hc. now subst.
Qed.

Lemma flush_newlines_length k : (length (flush_newlines k) <= k)%nat.
Proof.
  unfold flush_newlines. destruct (Nat.leb_spec 3 k); simpl; [lia|].
  rewrite repeat_length. lia.
Qed.

Lemma sub_newlines_from_Forall (P : char -> Prop) s : forall k,
  P NL -> Forall P s -> Forall P (sub_newlines_from k s).
Proof.
  induction s as [|c s IH]; intros k HNL H; simpl.
  - now apply flush_newlines_Forall.
  - inversion H; subst. destruct (c =? NL)%N; auto.
    apply Forall_app. split; [now apply flush_newlines_Forall|]. constructor; auto.
Qed.

Lemma sub_newlines_from_keeps c s : forall k,
  c <> NL -> In c s -> In c (sub_newlines_from k s).
Proof.
  induction s as [|c' s IH]; intros k Hc Hin; [destruct Hin|].
  simpl. destruct Hin as [->|Hin].
  - destruct (N.eqb_spec c NL); [contradiction|].
    apply in_or_app. right. left. reflexivity.
  - destruct (c' =? NL)%N; [auto|].
    apply in_or_app. right. right. auto.
Qed.

Lemma sub_newlines_from_length s : forall k,
  (length (sub_newlines_from k s) <= k + length s)%nat.
Proof.
  induction s as [|c s IH]; intros k; simpl.
  - pose proof (flush_newlines_length k). lia.
  - destruct (c =? NL)%N.
    + specialize (IH (S k)). lia.
    + rewrite length_app. simpl.
      pose proof (flush_newlines_length k). specialize (IH 0%nat). lia.
Qed.

Lemma drop_while_keeps c s :
  is_space c = false -> In c s -> In c (drop_while is_space s).
Proof.
  intros Hc. induction s as [|c' s IH]; intros Hin; [destruct Hin|].
  simpl. destruct (is_space c') eqn:E; [|exact Hin].
  destruct Hin as [->|Hin]; [congruence | auto].
Qed.

Lemma strip_keeps c s : is_space c = false -> In c s -> In c (strip s).
Proof.
  intros Hc Hin. unfold strip, rstrip, lstrip.
  apply in_rev. rewrite rev_involutive.
  apply drop_while_keeps; [exact Hc|].
  apply -> in_rev. apply drop_while_keeps; assumption.
Qed.

Lemma drop_while_all_space s : all_space s -> drop_while is_space s = [].
Proof.
  induction 1 as [|c s Hc _ IH]; [reflexivity|]. simpl. now rewrite Hc.
Qed.

Lemma strip_length s : (length (strip s) <= length s)%nat.
Proof.
  destruct (strip_infix s) as (u & w & E).
  rewrite E at 2. rewrite !length_app. lia.
Qed.

(** X2: the normalised text is empty exactly when the input consists of
    white space only; every other character of the input is kept. *)
Theorem normalize_ws_empty_iff (t : str) :
  (normalize_ws t = [] <-> all_space t) /\
  (forall c, is_space c = false -> In c t -> In c (normalize_ws t)).
Proof.
  assert (Hkeep : forall c, is_space c = false -> In c t -> In c (normalize_ws t)).
  { intros c Hc Hin. unfold normalize_ws, sub_newlines, sub_blanks.
    assert (c <> CR) by (intros ->; discriminate Hc).
    assert (c <> NL) by (intros ->; discriminate Hc).
    assert (Hb : is_blank c = false).
    { unfold is_blank. destruct (N.eqb_spec c SP) as [->|]; [discriminate Hc|].
      destruct (N.eqb_spec c TAB) as [->|]; [discriminate Hc | reflexivity]. }
    apply strip_keeps; [exact Hc|].
    apply sub_newlines_from_keeps; [assumption|].
    apply sub_blanks_from_keeps; [exact Hb|].
    unfold replace_cr. apply in_map_iff. exists c. split.
    - destruct (N.eqb_spec c CR); [contradiction | reflexivity].
    - apply replace_crlf_keeps; assumption. }
  split; [|exact Hkeep]. split.
  - intros E. apply Forall_forall. intros c Hin.
    destruct (is_space c) eqn:Hc; [reflexivity|].
    pose proof (Hkeep c Hc Hin) as F. rewrite E in F. destruct F.
  - intros H. unfold normalize_ws, strip, lstrip, sub_newlines, sub_blanks.
    rewrite drop_while_all_space; [reflexivity|].
    apply sub_newlines_from_Forall; [reflexivity|].
    apply sub_blanks_from_Forall; [reflexivity|].
    unfold replace_cr. apply Forall_forall. intros c Hc.
    apply in_map_iff in Hc. destruct Hc as (d & <- & Hd).
    destruct (N.eqb_spec d CR); [reflexivity|].
    pose proof (replace_crlf_Forall (fun c => is_space c = true) t eq_refl H) as F.
    rewrite Forall_forall in F. exact (F d Hd).
Qed.

(** X3: normalisation never makes a text longer. *)
Theorem normalize_ws_length (t : str) :
  (length (normalize_ws t) <= length t)%nat.
Proof.
  unfold normalize_ws, sub_newlines, sub_blanks.
  pose proof (replace_crlf_length t) as H1.
  pose proof (sub_blanks_from_length (replace_cr (replace_crlf t)) false) as H2.
  pose proof (sub_newlines_from_length
                (sub_blanks_from false (replace_cr (replace_crlf t))) 0) as H3.
  pose proof (strip_length
                (sub_newlines_from 0
                   (sub_blanks_from false (replace_cr (replace_crlf t))))) as H4.
  eapply Nat.le_trans; [exact H4|].
  eapply Nat.le_trans; [exact H3|]. cbn [Nat.add].
  eapply Nat.le_trans; [exact H2|].
  unfold replace_cr. rewrite length_map. exact H1.
Qed.

(** The characters of a text that are not white space, in order. *)
Lemma visible_replace_crlf s :
  filter (fun c => negb (is_space c)) (replace_crlf s)
  = filter (fun c => negb (is_space c)) s.
Proof.
  apply (replace_crlf_pair
           (fun s r => filter (fun c => negb (is_space c)) r
                       = filter (fun c => negb (is_space c)) s)).
  - reflexivity.
  - intros c. reflexivity.
  - intros s0 IH. cbn [filter].
    change (is_space CR) with true. change (is_space NL) with true. exact IH.
  - intros c c2 s0 _ IH.
    change (filter (fun c => negb (is_space c)) (c :: replace_crlf (c2 :: s0)))
      with (if negb (is_space c)
            then c :: filter (fun c => negb (is_space c)) (replace_crlf (c2 :: s0))
            else filter (fun c => negb (is_space c)) (replace_crlf (c2 :: s0))).
    rewrite IH. reflexivity.
Qed.

Lemma visible_replace_cr s :
  filter (fun c => negb (is_space c)) (replace_cr s)
  = filter (fun c => negb (is_space c)) s.
Proof.
  unfold replace_cr. induction s as [|c s IH]; [reflexivity|].
  cbn [map filter]. rewrite IH.
  destruct (N.eqb_spec c CR) as [->|]; reflexivity.
Qed.

Lemma blank_is_space c : is_blank c = true -> is_space c = true.
Proof.
  unfold is_blank. intros H. apply orb_prop in H.
  destruct H as [H|H]; apply N.eqb_eq in H; subst; reflexivity.
Qed.

Lemma visible_sub_blanks s : forall b,
  filter (fun c => negb (is_space c)) (sub_blanks_from b s)
  = filter (fun c => negb (is_space c)) s.
Proof.
  induction s as [|c s IH]; intros b; [reflexivity|].
  cbn [sub_blanks_from filter].
  destruct (is_blank c) eqn:E.
  - rewrite (blank_is_space c E). cbn [negb].
    destruct b; [apply IH|]. cbn [filter]. change (is_space SP) with true. apply IH.
  - cbn [filter]. now rewrite IH.
Qed.

Lemma visible_flush k s :
  filter (fun c => negb (is_space c)) (flush_newlines k ++ s)
  = filter (fun c => negb (is_space c)) s.
Proof.
  rewrite filter_app.
  assert (E : filter (fun c => negb (is_space c)) (flush_newlines k) = []).
  { unfold flush_newlines. destruct (3 <=? k)%nat; [reflexivity|].
    induction k as [|k IH]; [reflexivity | exact IH]. }
  now rewrite E.
Qed.

Lemma visible_sub_newlines s : forall k,
  filter (fun c => negb (is_space c)) (sub_newlines_from k s)
  = filter (fun c => negb (is_space c)) s.
Proof.
  induction s as [|c s IH]; intros k; cbn [sub_newlines_from].
  - rewrite <- (app_nil_r (flush_newlines k)). apply visible_flush.
  - destruct (N.eqb_spec c NL) as [->|].
    + rewrite IH. reflexivity.
    + rewrite visible_flush. cbn [filter]. now rewrite IH.
Qed.

Lemma visible_drop_while s :
  filter (fun c => negb (is_space c)) (drop_while is_space s)
  = filter (fun c => negb (is_space c)) s.
Proof.
  induction s as [|c s IH]; [reflexivity|].
  cbn [drop_while]. destruct (is_space c) eqn:E; [|reflexivity].
  cbn [filter]. rewrite E. exact IH.
Qed.

Lemma visible_strip s :
  filter (fun c => negb (is_space c)) (strip s)
  = filter (fun c => negb (is_space c)) s.
Proof.
  unfold strip, rstrip, lstrip.
  rewrite filter_rev, visible_drop_while, <- filter_rev, rev_involutive.
  apply visible_drop_while.
Qed.

(** X22: normalisation changes white space only: the characters that are
    not white space are the same, in the same order, before and after. *)
Theorem normalize_ws_keeps_visible (t : str) :
  filter (fun c => negb (is_space c)) (normalize_ws t)
  = filter (fun c => negb (is_space c)) t.
Proof.
  unfold normalize_ws, sub_newlines, sub_blanks.
  rewrite visible_strip, visible_sub_newlines, visible_sub_blanks,
    visible_replace_cr, visible_replace_crlf.
  reflexivity.
Qed.

(** ** More on the chunker *)

Lemma slice_whole (T : str) : slice T 0 (len T) = T.
Proof.
  rewrite slice_in_range by (unfold len; lia).
  rewrite Z.sub_0_r. unfold len. rewrite Nat2Z.id. simpl. apply firstn_all.
Qed.

Lemma chunk_loop_single (T : str) (C O : Z) (fuel : nat) :
  0 < len T -> len T <= C ->
  chunk_loop (S fuel) T C O 0 [] = Some [T].
Proof.
  intros HL HC. cbn [chunk_loop].
  destruct (Z.ltb_spec 0 (len T)); [|lia].
  replace (Z.min (len T) (0 + C)) with (len T) by lia.
  rewrite Z.eqb_refl, slice_whole. reflexivity.
Qed.

(** X4: a text whose normal form is not empty and fits into one chunk comes
    back as that normal form alone, whatever the overlap is. *)
Theorem chunk_text_single_chunk (t : str) (C O : Z) (fuel : nat) :
  0 < len (normalize_ws t) -> len (normalize_ws t) <= C ->
  chunk_text (S fuel) t C O = Some [normalize_ws t].
Proof.
  intros HL HC. unfold chunk_text.
  destruct (normalize_ws t) as [|c T] eqn:E; [unfold len in HL; simpl in HL; lia|].
  now apply chunk_loop_single.
Qed.

Lemma chunk_text_single_chunk_witness :
  chunk_text 1 (lit "Hello world") 1200 200 = Some [normalize_ws (lit "Hello world")].
Proof.
  apply (chunk_text_single_chunk (lit "Hello world") 1200 200 0);
    vm_compute; [reflexivity | discriminate].
Defined.

(** X5: for a chunk size of at least 1 and a non-negative overlap,
    [chunk_text] returns exactly when the overlap is smaller than the chunk
    size or the normalised text fits into one chunk; otherwise no number of
    iterations ends its loop. *)
Theorem chunk_text_returns_iff (t : str) (C O : Z) :
  1 <= C -> 0 <= O ->
  ((exists fuel chunks, chunk_text fuel t C O = Some chunks) <->
   (O < C \/ len (normalize_ws t) <= C)).
Proof.
  intros HC HO. split.
  - intros (fuel & chunks & Hrun).
    destruct (Z.lt_ge_cases O C) as [|HOC]; [left; assumption|].
    destruct (Z.le_gt_cases (len (normalize_ws t)) C) as [|HL]; [right; assumption|].
    exfalso. unfold chunk_text in Hrun.
    destruct (normalize_ws t) as [|c T] eqn:E; [unfold len in HL; simpl in HL; lia|].
    rewrite chunk_loop_stalls in Hrun by lia. discriminate.
  - intros [HOC|HL].
    + exists (length (normalize_ws t)). eexists.
      apply chunk_text_windows; lia.
    + destruct (Z.le_gt_cases (len (normalize_ws t)) 0) as [Hz|Hpos].
      * exists 0%nat, []. unfold chunk_text.
        destruct (normalize_ws t); [reflexivity | unfold len in Hz; simpl in Hz; lia].
      * exists 1%nat, [normalize_ws t]. unfold chunk_text.
        destruct (normalize_ws t) as [|c T] eqn:E;
          [unfold len in Hpos; simpl in Hpos; lia|].
        now apply chunk_loop_single.
Qed.

Lemma chunk_text_returns_iff_witness :
  (exists fuel chunks, chunk_text fuel (lit "abc") 2 5 = Some chunks) <->
  (5 < 2 \/ len (normalize_ws (lit "abc")) <= 2).
Proof.
  apply (chunk_text_returns_iff (lit "abc") 2 5); lia.
Defined.

Lemma chunk_loop_rejoin (T : str) (C O : Z) :
  0 <= O < C ->
  forall fuel start acc chunks,
  0 <= start ->
  chunk_loop fuel T C O start acc = Some chunks ->
  exists news,
    chunks = acc ++ news /\
    concat (map (skipn (Z.to_nat O)) news) = skipn (Z.to_nat (start + O)) T.
Proof.
  intros HO. induction fuel as [|fuel IH]; intros start acc chunks Hs Hrun;
    [discriminate|].
  cbn [chunk_loop] in Hrun.
  destruct (Z.ltb_spec start (len T)) as [Hlt|Hge].
  - set (e := Z.min (len T) (start + C)) in *.
    assert (Hcut : skipn (Z.to_nat O) (slice T start e)
                   = firstn (Z.to_nat (e - start - O)) (skipn (Z.to_nat (start + O)) T)).
    { rewrite slice_in_range by (unfold e; lia).
      rewrite skipn_firstn_comm, skipn_skipn.
      f_equal; [lia | f_equal; lia]. }
    destruct (Z.eqb_spec e (len T)) as [Eend|Nend].
    + injection Hrun as <-. exists [slice T start e]. split; [reflexivity|].
      simpl. rewrite app_nil_r, Hcut.
      apply firstn_all2. rewrite length_skipn. unfold len in *. lia.
    + apply IH in Hrun; [|lia].
      destruct Hrun as (news & -> & Hnews).
      exists (slice T start e :: news). split; [now rewrite <- app_assoc|].
      simpl. rewrite Hcut, Hnews.
      replace (Z.max 0 (e - O) + O) with (start + C) by (unfold e in *; lia).
      replace (e - start - O) with (C - O) by (unfold e in *; lia).
      replace (Z.to_nat (start + C))
        with (Z.to_nat (C - O) + Z.to_nat (start + O))%nat by lia.
      rewrite <- skipn_skipn. apply firstn_skipn.
  - injection Hrun as <-. exists []. split; [now rewrite app_nil_r|].
    simpl. symmetry. apply skipn_all2. unfold len in *. lia.
Qed.

(** X6: for [C > 0] and [0 <= O < C] the chunks give the normalised text
    back: the first chunk followed by every later chunk without its first
    [O] characters is the normalised text (with [O = 0], the chunks
    concatenated). *)
Theorem chunk_text_rejoin (t : str) (C O : Z) :
  0 < C -> 0 <= O < C ->
  exists chunks,
    (forall fuel, (length (normalize_ws t) <= fuel)%nat ->
       chunk_text fuel t C O = Some chunks) /\
    rejoin (Z.to_nat O) chunks = normalize_ws t.
Proof.
  intros HC HO.
  exists (map (cut (normalize_ws t)) (windows (len (normalize_ws t)) C O)).
  split; [intros fuel Hfuel; now apply chunk_text_windows|].
  pose proof (chunk_text_windows t C O (length (normalize_ws t)) HC HO (le_n _))
    as Hrun.
  set (chunks := map (cut (normalize_ws t)) (windows (len (normalize_ws t)) C O)) in *.
  unfold chunk_text in Hrun.
  destruct (normalize_ws t) as [|c T'] eqn:E.
  { subst chunks. reflexivity. }
  set (T := c :: T') in *.
  destruct (length T) as [|fuel] eqn:Efuel; [discriminate Efuel|].
  pose proof Hrun as Hfirst. cbn [chunk_loop] in Hfirst.
  apply (chunk_loop_rejoin T C O HO) in Hrun; [|lia].
  destruct Hrun as (news & Hchunks & Hjoin). simpl in Hchunks.
  assert (HL : 0 < len T) by (unfold len, T; simpl; lia).
  destruct (Z.ltb_spec 0 (len T)); [|lia].
  set (e := Z.min (len T) (0 + C)) in *.
  assert (Hhead : exists rest, chunks = slice T 0 e :: rest).
  { destruct (e =? len T).
    - injection Hfirst as <-. eexists. reflexivity.
    - apply (chunk_loop_rejoin T C O HO) in Hfirst; [|lia].
      destruct Hfirst as (rest & -> & _). eexists. reflexivity. }
  destruct Hhead as (rest & Hhead).
  rewrite Hhead. rewrite Hhead in Hchunks. subst news.
  cbn [rejoin]. simpl in Hjoin.
  rewrite <- (firstn_skipn (Z.to_nat O) (slice T 0 e)), <- app_assoc, Hjoin.
  rewrite slice_in_range by (unfold e; lia).
  simpl skipn at 1. rewrite firstn_firstn.
  replace (Z.to_nat (0 + O)) with (Z.to_nat O) by lia.
  destruct (Z.le_gt_cases O (e - 0)) as [Hle|Hgt].
  - replace (Nat.min (Z.to_nat O) (Z.to_nat (e - 0))) with (Z.to_nat O) by lia.
    apply firstn_skipn.
  - replace (Nat.min (Z.to_nat O) (Z.to_nat (e - 0))) with (Z.to_nat (e - 0)) by lia.
    assert (Ee : e = len T) by (unfold e in *; lia).
    rewrite Ee. unfold len. rewrite Z.sub_0_r, Nat2Z.id, firstn_all.
    rewrite skipn_all2 by (unfold len in *; lia). apply app_nil_r.
Qed.

Lemma chunk_text_rejoin_witness :
  exists chunks,
    (forall fuel, (length (normalize_ws (lit "abcdefghij")) <= fuel)%nat ->
       chunk_text fuel (lit "abcdefghij") 4 1 = Some chunks) /\
    rejoin (Z.to_nat 1) chunks = normalize_ws (lit "abcdefghij").
Proof.
  apply (chunk_text_rejoin (lit "abcdefghij") 4 1); lia.
Defined.

(** ** More on the pipeline *)

Section PipelineMore.

Variables image vec : Type.
Variable env : Env image vec.
Variable cfg : PipelineConfig.

(** *** The embedding client *)

Lemma add_calls_app (s : State vec) cs ds :
  add_calls (add_calls s cs) ds = add_calls s (cs ++ ds).
Proof. unfold add_calls. simpl. now rewrite <- app_assoc. Qed.

Lemma embed_loop_calls : forall (texts : list str) (acc : list vec) (s : State vec),
  for_each texts
    (fun vecs t =>
       bind (log_call (CallEmbeddings (embed_model cfg) t))
         (fun _ => ret (vecs ++ [l2_normalize env (embeddings env (embed_model cfg) t)])))
    acc s
  = Ret (acc ++ map (fun t => l2_normalize env (embeddings env (embed_model cfg) t)) texts)
      (add_calls s (map (CallEmbeddings (embed_model cfg)) texts)).
Proof.
  induction texts as [|t texts IH]; intros acc s.
  - simpl. unfold add_calls, ret. rewrite !app_nil_r. destruct s; reflexivity.
  - cbn [for_each]. unfold bind at 1.
    change (bind (log_call (CallEmbeddings (embed_model cfg) t))
              (fun _ => ret (acc ++ [l2_normalize env (embeddings env (embed_model cfg) t)])) s)
      with (Ret (acc ++ [l2_normalize env (embeddings env (embed_model cfg) t)])
              (add_calls s [CallEmbeddings (embed_model cfg) t])).
    cbv beta iota.
    rewrite IH, add_calls_app. simpl. now rewrite <- app_assoc.
Qed.

Lemma embed_returns (t : str) (texts : list str) (s : State vec) :
  embed env cfg (t :: texts) s
  = Ret (map (fun t => l2_normalize env (embeddings env (embed_model cfg) t)) (t :: texts))
      (add_calls s (map (CallEmbeddings (embed_model cfg)) (t :: texts))).
Proof.
  unfold embed.
  rewrite (bind_Ret vec _ _ _ _ _ (embed_loop_calls (t :: texts) [] s)). reflexivity.
Qed.

(** X7: for a non-empty list of texts the embedding client returns one
    normalised vector per text, in the order of the texts, after one
    embeddings request per text in that order; for the empty list it raises
    [ValueError] without any request. *)
Theorem embed_one_vector_per_text (texts : list str) (s : State vec) :
  (texts <> [] ->
   embed env cfg texts s
   = Ret (map (fun t => l2_normalize env (embeddings env (embed_model cfg) t)) texts)
       (add_calls s (map (CallEmbeddings (embed_model cfg)) texts))) /\
  (texts = [] -> embed env cfg texts s = Raise ValueError s).
Proof.
  split.
  - intros Hne. destruct texts as [|t texts]; [contradiction|].
    apply embed_returns.
  - intros ->. reflexivity.
Qed.

(** *** What ingestion leaves alone *)

Lemma same_store_refl (s : State vec) : same_store s s.
Proof. repeat split. Qed.

Lemma same_store_trans (s1 s2 s3 : State vec) :
  same_store s1 s2 -> same_store s2 s3 -> same_store s1 s3.
Proof.
  intros (A1 & A2 & A3) (B1 & B2 & B3). repeat split; congruence.
Qed.

Lemma quiet_ret {A : Type} (a : A) : quiet (ret (vec := vec) a).
Proof. intros s. apply same_store_refl. Qed.

Lemma quiet_raise {A : Type} (msg : str) :
  In msg ingest_messages -> quiet (raise (vec := vec) (A := A) (RuntimeError msg)).
Proof. intros H s. split; [apply same_store_refl | eauto]. Qed.

Lemma quiet_log_call (c : Call) : quiet (log_call (vec := vec) c).
Proof. intros s. repeat split. Qed.

Lemma quiet_bind {A B : Type} (m : M vec A) (k : A -> M vec B) :
  quiet m -> (forall a, quiet (k a)) -> quiet (bind m k).
Proof.
  intros Hm Hk s. unfold bind. specialize (Hm s).
  destruct (m s) as [a s1|e s1|]; [|exact Hm|exact I].
  specialize (Hk a s1).
  destruct (k a s1) as [b s2|e s2|]; [| |exact I].
  - eapply same_store_trans; eauto.
  - destruct Hk as [Hs He]. split; [eapply same_store_trans; eauto | exact He].
Qed.

Lemma quiet_for_each {A B : Type} (body : B -> A -> M vec B) :
  (forall acc x, quiet (body acc x)) ->
  forall l acc, quiet (for_each l body acc).
Proof.
  intros Hbody. induction l as [|x l IH]; intros acc.
  - apply quiet_ret.
  - cbn [for_each]. apply quiet_bind; [apply Hbody | intros a; apply IH].
Qed.

Lemma quiet_chunk_text_m (fuel : nat) (t : str) : quiet (chunk_text_m (vec := vec) cfg fuel t).
Proof.
  unfold chunk_text_m.
  destruct (chunk_text fuel t (chunk_chars cfg) (chunk_overlap cfg));
    [apply quiet_ret | intros s; exact I].
Qed.

Lemma quiet_ocr_image (img : image) : quiet (ocr_image env cfg img).
Proof.
  unfold ocr_image. apply quiet_bind; [apply quiet_log_call | intros _; apply quiet_ret].
Qed.

Lemma quiet_ingest_file (fuel : nat) (folder : str) st p :
  quiet (ingest_file env cfg fuel folder st p).
Proof.
  unfold ingest_file.
  apply quiet_bind; [|intros a; apply quiet_ret].
  destruct (str_eqb _ _).
  { unfold ingest_pdf. destruct (have_pdf2image env); cbn [negb].
    - apply quiet_for_each. intros acc x.
      apply quiet_bind; [apply quiet_ocr_image|]. intros t.
      apply quiet_bind; [apply quiet_chunk_text_m | intros c; apply quiet_ret].
    - apply quiet_raise. simpl. tauto. }
  destruct (str_in _ exts_img).
  { unfold ingest_image.
    apply quiet_bind; [apply quiet_ocr_image|]. intros t.
    apply quiet_bind; [apply quiet_chunk_text_m | intros c; apply quiet_ret]. }
  destruct (str_in _ exts_txt).
  { unfold ingest_text.
    apply quiet_bind; [apply quiet_chunk_text_m | intros c; apply quiet_ret]. }
  destruct (str_in _ exts_csv); [apply quiet_ret|].
  destruct (str_in _ exts_xlsx); [|apply quiet_ret].
  unfold ingest_excel. destruct (have_pandas env); cbn [negb].
  - apply quiet_ret.
  - apply quiet_raise. simpl. tauto.
Qed.

Lemma quiet_embed (t : str) (texts : list str) : quiet (embed env cfg (t :: texts)).
Proof.
  intros s.
  rewrite embed_returns. repeat split.
Qed.

Lemma quiet_load_manifest : quiet (load_manifest (vec := vec)).
Proof.
  intros s. unfold load_manifest, bind, get.
  destruct (manifest_file (disk s)); apply same_store_refl.
Qed.

(** Every way [ingest_folder] can end. *)
Lemma ingest_folder_cases (fuel : nat) (folder : str) (s : State vec) :
  match ingest_folder env cfg fuel folder s with
  | Ret _ s' =>
      exists prev r s1 ch chs,
        isdir env (abspath env folder) = true /\
        load_manifest s = Ret prev s /\
        for_each (filter (supported env) (walk env (abspath env folder)))
          (ingest_file env cfg fuel (abspath env folder)) (([], []), prev) s
        = Ret r s1 /\
        same_store s s1 /\
        fst (fst r) = ch :: chs /\
        s' = {| store_index :=
                  Some (map (fun t => l2_normalize env (embeddings env (embed_model cfg) t))
                          (ch :: chs));
                meta := snd (fst r);
                disk := {| index_file :=
                             Some (map (fun t => l2_normalize env
                                                   (embeddings env (embed_model cfg) t))
                                     (ch :: chs));
                           meta_file := Some (snd (fst r));
                           manifest_file := Some (snd r) |};
                calls := calls s1
                         ++ map (CallEmbeddings (embed_model cfg)) (ch :: chs) |}
  | Raise e s' =>
      same_store s s' /\
      (e = FileNotFoundError (abspath env folder) \/
       exists msg, e = RuntimeError msg /\ In msg ingest_messages)
  | Diverge => True
  end.
Proof.
  unfold ingest_folder.
  destruct (isdir env (abspath env folder)); cbn [negb];
    [|split; [apply same_store_refl | left; reflexivity]].
  assert (Hm : exists prev, load_manifest s = Ret prev s).
  { unfold load_manifest, bind, get.
    destruct (manifest_file (disk s)); eexists; reflexivity. }
  destruct Hm as [prev Hm]. rewrite (bind_Ret vec _ _ _ _ _ Hm).
  destruct (filter (supported env) (walk env (abspath env folder))) as [|p0 files].
  { split; [apply same_store_refl|]. right. eexists. split; [reflexivity|]. simpl. tauto. }
  pose proof (quiet_for_each _ (quiet_ingest_file fuel (abspath env folder))
                (p0 :: files) (([], []), prev) s) as Hq.
  unfold bind at 1.
  destruct (for_each (p0 :: files) (ingest_file env cfg fuel (abspath env folder))
              ([], [], prev) s) as [r s1|e s1|] eqn:Hloop; [|exact (conj (proj1 Hq) (or_intror (proj2 Hq)))|exact I].
  cbv zeta.
  destruct (fst (fst r)) as [|ch chs] eqn:Hch.
  { split; [exact Hq|]. right. eexists. split; [reflexivity|]. simpl. tauto. }
  rewrite (bind_Ret vec _ _ _ _ _ (embed_returns ch chs s1)).
  cbv [bind set_index save_index save_meta save_manifest modify get ret add_calls].
  cbn [store_index meta disk calls index_file meta_file manifest_file].
  exists prev, r, s1, ch, chs.
  split; [reflexivity|]. split; [exact Hm|]. split; [exact Hloop|].
  split; [exact Hq|]. split; [exact Hch | reflexivity].
Qed.

(** *** The records of a run *)

Lemma grows_refl (acc : Acc) : grows acc acc [].
Proof. split; simpl; now rewrite app_nil_r. Qed.

Lemma grows_trans (a b c : Acc) n1 n2 :
  grows a b n1 -> grows b c n2 -> grows a c (n1 ++ n2).
Proof.
  intros [A1 A2] [B1 B2]. split.
  - rewrite B1, A1, map_app. now rewrite <- app_assoc.
  - rewrite B2, A2. now rewrite <- app_assoc.
Qed.

Lemma add_chunks_grows (mk : nat -> str -> MetaRecord) (chunks : list str) (acc : Acc) :
  (forall ci ch, text (mk ci ch) = ch) ->
  grows acc (add_chunks mk chunks acc)
    (map (fun x => mk (fst x) (snd x)) (enumerate chunks)).
Proof.
  intros Htext. unfold add_chunks. generalize (enumerate chunks). intros xs.
  revert acc. induction xs as [|x xs IH]; intros acc; [apply grows_refl|].
  cbn [fold_left map].
  change (mk (fst x) (snd x) :: map (fun x => mk (fst x) (snd x)) xs)
    with ([mk (fst x) (snd x)] ++ map (fun x => mk (fst x) (snd x)) xs).
  eapply grows_trans; [|apply IH].
  split; simpl; [now rewrite Htext | reflexivity].
Qed.

Lemma add_rows_grows {A : Type} (mk : nat -> str -> MetaRecord)
    (line : nat * A -> str) (xs : list (nat * A)) (acc : Acc) :
  (forall r l, text (mk r l) = l) ->
  grows acc (fold_left (fun a x => add_row mk (fst x) (line x) a) xs acc)
    (map (fun x => mk (fst x) (line x))
       (filter (fun x => match strip (line x) with [] => false | _ => true end) xs)).
Proof.
  intros Htext. revert acc. induction xs as [|x xs IH]; intros acc; [apply grows_refl|].
  cbn [fold_left filter]. unfold add_row at 2.
  destruct (strip (line x)) eqn:E; [apply IH|].
  cbn [map].
  change (mk (fst x) (line x)
          :: map (fun x => mk (fst x) (line x))
               (filter (fun x => match strip (line x) with [] => false | _ => true end) xs))
    with ([mk (fst x) (line x)]
          ++ map (fun x => mk (fst x) (line x))
               (filter (fun x => match strip (line x) with [] => false | _ => true end) xs)).
  eapply grows_trans; [|apply IH].
  split; simpl; [now rewrite Htext | reflexivity].
Qed.

Lemma Forall_map_all {A B : Type} (Q : B -> Prop) (f : A -> B) (l : list A) :
  (forall x, Q (f x)) -> Forall Q (map f l).
Proof.
  intros H. apply Forall_forall. intros y Hy.
  apply in_map_iff in Hy. destruct Hy as (x & <- & _). apply H.
Qed.

Lemma sheets_records (folder p : str) :
  forall (sheets : list (str * DataFrame)) (acc : Acc),
  exists news,
    grows acc
      (fold_left (ingest_sheet env (path_join env folder p) (slashes p)) sheets acc)
      news /\
    Forall (record_of_file env folder p) news.
Proof.
  induction sheets as [|sh sheets IH]; intros acc.
  - exists []. split; [apply grows_refl | constructor].
  - cbn [fold_left].
    destruct (IH (ingest_sheet env (path_join env folder p) (slashes p) acc sh))
      as (n2 & G2 & F2).
    assert (H1 : exists n1,
               grows acc (ingest_sheet env (path_join env folder p) (slashes p) acc sh) n1 /\
               Forall (record_of_file env folder p) n1).
    { unfold ingest_sheet. destruct (df_empty (snd sh)).
      - exists []. split; [apply grows_refl | constructor].
      - eexists. split.
        + apply (add_rows_grows
                   (excel_record env (path_join env folder p) (slashes p) (fst sh))
                   (fun x => format_df_row env (normalize_columns (columns (snd sh)))
                               (fillna (snd x)))).
          reflexivity.
        + apply Forall_map_all. intros x. repeat split. }
    destruct H1 as (n1 & G1 & F1).
    exists (n1 ++ n2). split; [eapply grows_trans; eauto | apply Forall_app; auto].
Qed.

Lemma pages_records (fuel : nat) (folder p : str) :
  forall (pages : list (nat * image)) (acc : Acc) s acc' s',
  for_each pages
    (fun acc iimg =>
       bind (ocr_image env cfg (snd iimg))
         (fun t =>
            bind (chunk_text_m cfg fuel t)
              (fun chunks =>
                 ret (add_chunks
                        (pdf_record env (path_join env folder p) (slashes p)
                           (fst iimg + 1)) chunks acc))))
    acc s = Ret acc' s' ->
  exists news,
    grows acc acc' news /\ Forall (record_of_file env folder p) news.
Proof.
  induction pages as [|pg pages IH]; intros acc s acc' s' Hrun.
  - simpl in Hrun. injection Hrun as <- _.
    exists []. split; [apply grows_refl | constructor].
  - cbn [for_each] in Hrun.
    apply bind_Ret_inv in Hrun. destruct Hrun as (acc1 & s1 & Hbody & Hrun).
    apply bind_Ret_inv in Hbody. destruct Hbody as (t & s2 & _ & Hbody).
    apply bind_Ret_inv in Hbody. destruct Hbody as (chunks & s3 & _ & Hbody).
    injection Hbody as <- _.
    destruct (IH _ _ _ _ Hrun) as (n2 & G2 & F2).
    eexists. split.
    + eapply grows_trans; [|exact G2]. apply add_chunks_grows. reflexivity.
    + apply Forall_app. split; [|exact F2].
      apply Forall_map_all. intros x. repeat split. simpl. lia.
Qed.

Lemma ingest_file_records (fuel : nat) (folder : str) (st : Acc * dict str)
    (p : str) s st' s' :
  ingest_file env cfg fuel folder st p s = Ret st' s' ->
  snd st' = dict_set (snd st) (slashes p) (sha256_file env (path_join env folder p)) /\
  exists news,
    grows (fst st) (fst st') news /\ Forall (record_of_file env folder p) news.
Proof.
  intros Hrun. unfold ingest_file in Hrun.
  apply bind_Ret_inv in Hrun. destruct Hrun as (acc' & s1 & Hbranch & Hret).
  injection Hret as <- _. cbn [fst snd]. split; [reflexivity|].
  destruct (str_eqb (ext_of env p) (lit ".pdf")).
  { unfold ingest_pdf in Hbranch.
    destruct (have_pdf2image env); cbn [negb] in Hbranch; [|discriminate].
    eapply pages_records. exact Hbranch. }
  destruct (str_in (ext_of env p) exts_img).
  { unfold ingest_image in Hbranch.
    apply bind_Ret_inv in Hbranch. destruct Hbranch as (t & s2 & _ & Hbranch).
    apply bind_Ret_inv in Hbranch. destruct Hbranch as (chunks & s3 & _ & Hbranch).
    injection Hbranch as <- _.
    eexists. split; [apply add_chunks_grows; reflexivity|].
    apply Forall_map_all. intros x. repeat split. left. reflexivity. }
  destruct (str_in (ext_of env p) exts_txt).
  { unfold ingest_text in Hbranch.
    apply bind_Ret_inv in Hbranch. destruct Hbranch as (chunks & s3 & _ & Hbranch).
    injection Hbranch as <- _.
    eexists. split; [apply add_chunks_grows; reflexivity|].
    apply Forall_map_all. intros x. repeat split. right. reflexivity. }
  destruct (str_in (ext_of env p) exts_csv).
  { unfold ingest_csv in Hbranch. injection Hbranch as <- _.
    eexists. split.
    - apply (add_rows_grows (csv_record env (path_join env folder p) (slashes p))
               (fun x => csv_line (snd x))). reflexivity.
    - apply Forall_map_all. intros x. repeat split. }
  destruct (str_in (ext_of env p) exts_xlsx).
  { unfold ingest_excel in Hbranch.
    destruct (have_pandas env); cbn [negb] in Hbranch; [|discriminate].
    injection Hbranch as <- _. apply sheets_records. }
  injection Hbranch as <- _.
  exists []. split; [apply grows_refl | constructor].
Qed.

Lemma files_records (fuel : nat) (folder : str) :
  forall (files : list str) (st : Acc * dict str) s st' s',
  for_each files (ingest_file env cfg fuel folder) st s = Ret st' s' ->
  snd st'
  = fold_left
      (fun d p => dict_set d (slashes p) (sha256_file env (path_join env folder p)))
      files (snd st) /\
  exists news,
    grows (fst st) (fst st') news /\
    Forall (fun m => exists p, In p files /\ record_of_file env folder p m) news.
Proof.
  induction files as [|p files IH]; intros st s st' s' Hrun.
  - simpl in Hrun. injection Hrun as <- _. split; [reflexivity|].
    exists []. split; [apply grows_refl | constructor].
  - cbn [for_each] in Hrun.
    apply bind_Ret_inv in Hrun. destruct Hrun as (st1 & s1 & Hfile & Hrun).
    apply ingest_file_records in Hfile. destruct Hfile as (D1 & n1 & G1 & F1).
    apply IH in Hrun. destruct Hrun as (D2 & n2 & G2 & F2).
    split; [cbn [fold_left]; rewrite D2, D1; reflexivity|].
    exists (n1 ++ n2). split; [eapply grows_trans; eauto|].
    apply Forall_app. split.
    + eapply Forall_impl; [|exact F1]. intros m Hm. exists p. split; [left; reflexivity | exact Hm].
    + eapply Forall_impl; [|exact F2]. intros m (q & Hq & Hm). exists q. split; [right; exact Hq | exact Hm].
Qed.

(** X8: the five [raise] statements of [ingest_folder] itself come before
    its first write.  When a run ends in the [FileNotFoundError] for the
    folder, or in a [RuntimeError] with one of the four messages of
    ingestion, the index, the metadata and the three files of the store are
    what they were before the call.  Errors raised inside the libraries
    that [ingest_folder] calls are not those errors, and nothing is said
    about them. *)
Theorem ingest_folder_own_errors_leave_store (fuel : nat) (folder : str)
    (s s' : State vec) (e : exn) :
  ingest_folder env cfg fuel folder s = Raise e s' ->
  (e = FileNotFoundError (abspath env folder) \/
   exists msg, e = RuntimeError msg /\ In msg ingest_messages) ->
  same_store s s'.
Proof.
  intros H _. pose proof (ingest_folder_cases fuel folder s) as C.
  rewrite H in C. exact (proj1 C).
Qed.

(** X9: after a completed run the index holds, position by position, the
    normalised embedding of the text of the metadata record at that
    position; there is at least one record; and the index and the metadata
    on disk are the ones in memory. *)
Theorem ingest_folder_index_aligned (fuel : nat) (folder : str) (s s' : State vec) :
  ingest_folder env cfg fuel folder s = Ret tt s' ->
  meta s' <> [] /\
  store_index s'
  = Some (map (fun m => l2_normalize env (embeddings env (embed_model cfg) (text m)))
            (meta s')) /\
  index_file (disk s') = store_index s' /\
  meta_file (disk s') = Some (meta s').
Proof.
  intros H. pose proof (ingest_folder_cases fuel folder s) as C.
  rewrite H in C.
  destruct C as (prev & r & s1 & ch & chs & _ & _ & Hloop & _ & Hch & ->).
  apply files_records in Hloop. destruct Hloop as (_ & news & [G1 G2] & _).
  cbn [fst snd app] in G1, G2. cbn [meta store_index disk index_file meta_file].
  rewrite Hch in G1. rewrite G2, G1, map_map.
  split; [|repeat split].
  destruct news; [discriminate G1 | discriminate].
Qed.

(** X10: every metadata record of a completed run belongs to one of the
    processed files: its relative path is that file's with [/] as separator,
    its source is the file's absolute path, its tag is the tag that its page,
    sheet, row and chunk number spell out, and its file type fits the fields
    it carries (a page number of at least 1 for a PDF, chunk number 0 for a
    row of a CSV file or a workbook). *)
Theorem ingest_folder_records_wellformed (fuel : nat) (folder : str)
    (s s' : State vec) :
  ingest_folder env cfg fuel folder s = Ret tt s' ->
  Forall
    (fun m =>
       exists p,
         In p (filter (supported env) (walk env (abspath env folder))) /\
         record_of_file env (abspath env folder) p m)
    (meta s').
Proof.
  intros H. pose proof (ingest_folder_cases fuel folder s) as C.
  rewrite H in C.
  destruct C as (prev & r & s1 & ch & chs & _ & _ & Hloop & _ & _ & ->).
  apply files_records in Hloop. destruct Hloop as (_ & news & [_ G2] & F).
  cbn [fst snd app] in G2. cbn [meta]. rewrite G2. exact F.
Qed.

(** *** The manifest *)

Lemma str_eqb_eq a b : str_eqb a b = true <-> a = b.
Proof.
  unfold str_eqb. destruct (list_eq_dec N.eq_dec a b); split; intros; congruence.
Qed.

Lemma dict_get_set_same {V : Type} (d : dict V) k v :
  dict_get (dict_set d k v) k = Some v.
Proof.
  induction d as [|[k' v'] d IH]; simpl.
  - rewrite (proj2 (str_eqb_eq k k) eq_refl). reflexivity.
  - destruct (str_eqb k k') eqn:E; simpl; rewrite E; [reflexivity | exact IH].
Qed.

Lemma dict_get_set_other {V : Type} (d : dict V) k k' v :
  k' <> k -> dict_get (dict_set d k v) k' = dict_get d k'.
Proof.
  intros Hne. induction d as [|[k0 v0] d IH]; simpl.
  - destruct (str_eqb k' k) eqn:E; [apply str_eqb_eq in E; contradiction | reflexivity].
  - destruct (str_eqb k k0) eqn:E; simpl.
    + apply str_eqb_eq in E. subst k0.
      destruct (str_eqb k' k) eqn:E'; [apply str_eqb_eq in E'; contradiction | reflexivity].
    + destruct (str_eqb k' k0); [reflexivity | exact IH].
Qed.

Lemma manifest_fold (folder : str) : forall (files : list str) (d : dict str),
  let m := fold_left
             (fun d p => dict_set d (slashes p) (sha256_file env (path_join env folder p)))
             files d in
  (forall k, ~ In k (map slashes files) -> dict_get m k = dict_get d k) /\
  (forall p, In p files ->
     exists q, In q files /\ slashes q = slashes p /\
       dict_get m (slashes p) = Some (sha256_file env (path_join env folder q))).
Proof.
  induction files as [|p0 files IH]; intros d; cbn [fold_left map].
  - split; [reflexivity | intros p []].
  - destruct (IH (dict_set d (slashes p0) (sha256_file env (path_join env folder p0))))
      as [Hother Hkey].
    split.
    + intros k Hk. rewrite Hother by (intros F; apply Hk; right; exact F).
      apply dict_get_set_other. intros ->. apply Hk. left. reflexivity.
    + intros p [->|Hp].
      * destruct (in_dec (list_eq_dec N.eq_dec) (slashes p) (map slashes files)) as [Hin|Hout].
        -- apply in_map_iff in Hin. destruct Hin as (q0 & Eq & Hq0).
           destruct (Hkey q0 Hq0) as (q & Hq & E & G).
           rewrite Eq in E, G.
           exists q. split; [right; exact Hq|]. split; [exact E | exact G].
        -- exists p. split; [left; reflexivity|]. split; [reflexivity|].
           rewrite Hother by exact Hout. apply dict_get_set_same.
      * destruct (Hkey p Hp) as (q & Hq & E & G).
        exists q. split; [right; exact Hq | split; assumption].
Qed.

(** X11: after a completed run the manifest on disk keeps every entry of
    the manifest that was there whose key is not the relative path of a
    processed file, and maps the relative path of every processed file to
    the hash of a processed file with that relative path: entries are added
    or overwritten, never removed. *)
Theorem ingest_folder_manifest (fuel : nat) (folder : str) (s s' : State vec) :
  ingest_folder env cfg fuel folder s = Ret tt s' ->
  let files := filter (supported env) (walk env (abspath env folder)) in
  exists m,
    manifest_file (disk s') = Some m /\
    (forall k, ~ In k (map slashes files) ->
       dict_get m k = dict_get (manifest_before s) k) /\
    (forall p, In p files ->
       exists q, In q files /\ slashes q = slashes p /\
         dict_get m (slashes p)
         = Some (sha256_file env (path_join env (abspath env folder) q))).
Proof.
  intros H files. pose proof (ingest_folder_cases fuel folder s) as C.
  rewrite H in C.
  destruct C as (prev & r & s1 & ch & chs & _ & Hm & Hloop & _ & _ & ->).
  apply files_records in Hloop. destruct Hloop as (D & _).
  cbn [snd] in D. cbn [disk manifest_file].
  exists (snd r). split; [reflexivity|].
  assert (Hprev : prev = manifest_before s).
  { unfold load_manifest, bind, get, manifest_before in *.
    destruct (manifest_file (disk s)); injection Hm as <-; reflexivity. }
  rewrite D, Hprev. apply manifest_fold.
Qed.

(** *** Optional dependencies *)

Lemma for_each_Ret_each {A B : Type} (body : B -> A -> M vec B) :
  forall (l : list A) acc s acc' s',
  for_each l body acc s = Ret acc' s' ->
  forall x, In x l -> exists a s0 a' s0', body a x s0 = Ret a' s0'.
Proof.
  induction l as [|y l IH]; intros acc s acc' s' Hrun x Hin; [destruct Hin|].
  cbn [for_each] in Hrun.
  apply bind_Ret_inv in Hrun. destruct Hrun as (a1 & s1 & Hbody & Hrun).
  destruct Hin as [->|Hin]; [eauto | eapply IH; eauto].
Qed.

Lemma xlsx_not_other e :
  str_in e exts_xlsx = true ->
  str_eqb e (lit ".pdf") = false /\ str_in e exts_img = false /\
  str_in e exts_txt = false /\ str_in e exts_csv = false.
Proof.
  intros H. apply str_in_In in H.
  destruct H as [<-|[<-|[<-|[]]]]; repeat split; reflexivity.
Qed.

(** X12: a run cannot complete when one of the processed files is a PDF
    and [pdf2image] is missing, or is a workbook and [pandas] is missing. *)
Theorem ingest_folder_needs_dependency (fuel : nat) (folder p : str)
    (s s' : State vec) :
  In p (filter (supported env) (walk env (abspath env folder))) ->
  (str_eqb (ext_of env p) (lit ".pdf") = true /\ have_pdf2image env = false) \/
  (str_in (ext_of env p) exts_xlsx = true /\ have_pandas env = false) ->
  ingest_folder env cfg fuel folder s <> Ret tt s'.
Proof.
  intros Hp Hdep H. pose proof (ingest_folder_cases fuel folder s) as C.
  rewrite H in C.
  destruct C as (prev & r & s1 & ch & chs & _ & _ & Hloop & _).
  destruct (for_each_Ret_each _ _ _ _ _ _ Hloop p Hp) as (a & s0 & a' & s0' & Hfile).
  unfold ingest_file in Hfile.
  apply bind_Ret_inv in Hfile. destruct Hfile as (acc' & s2 & Hbranch & _).
  destruct Hdep as [[Hext Hno]|[Hext Hno]].
  - rewrite Hext in Hbranch. unfold ingest_pdf in Hbranch.
    rewrite Hno in Hbranch. discriminate Hbranch.
  - destruct (xlsx_not_other _ Hext) as (E1 & E2 & E3 & E4).
    rewrite E1, E2, E3, E4, Hext in Hbranch. unfold ingest_excel in Hbranch.
    rewrite Hno in Hbranch. discriminate Hbranch.
Qed.

(** *** Query, load and the command line *)

Lemma strip_dont_know : strip dont_know = dont_know.
Proof. reflexivity. Qed.

Lemma query_runs (question : str) (s : State vec) (ix : list vec) :
  store_index s = Some ix ->
  (forall i,
     In i (index_search env ix
             (l2_normalize env (embeddings env (embed_model cfg) question))
             (top_k cfg)) ->
     i < Z.of_nat (length (meta s))) ->
  exists ans s',
    query env cfg question s = Ret ans s' /\ strip ans = ans /\ same_store s s'.
Proof.
  intros Hix Hrange.
  set (qvec := l2_normalize env (embeddings env (embed_model cfg) question)) in *.
  set (idxs := index_search env ix qvec (top_k cfg)) in *.
  set (s1 := add_calls s [CallEmbeddings (embed_model cfg) question]).
  assert (Hembed : embed env cfg [question] s = Ret [qvec] s1) by apply embed_returns.
  assert (Hsearch : store_search env qvec (top_k cfg) s1 = Ret idxs s1).
  { unfold store_search, bind, get. cbn [store_index s1 add_calls]. rewrite Hix.
    reflexivity. }
  destruct (contexts_loop vec (meta s) idxs [] s1) as (ctx & Hctx & _).
  { intros i Hi. apply filter_In in Hi. apply Hrange, Hi. }
  assert (Hctx' : contexts_of idxs s1 = Ret ctx s1).
  { unfold contexts_of, bind, get. exact Hctx. }
  unfold query.
  rewrite (bind_Ret vec _ _ _ _ _ Hembed), (bind_Ret vec _ _ _ _ _ Hsearch),
    (bind_Ret vec _ _ _ _ _ Hctx').
  destruct ctx as [|m ctx].
  - exists dont_know, s1.
    split; [reflexivity|]. split; [apply strip_dont_know | repeat split].
  - unfold qa_answer. cbv [bind log_call modify ret].
    eexists. eexists. split; [reflexivity|]. split; [apply strip_idem | repeat split].
Qed.

(** X13: in a pipeline whose metadata list is as long as its index, when
    the search returns only positions of the index (or negative fillers),
    [query] returns; its answer has no white space at either end; and index,
    metadata and disk are what they were: querying only reads. *)
Theorem query_returns_and_only_reads (question : str) (s : State vec)
    (ix : list vec) :
  store_index s = Some ix ->
  length (meta s) = length ix ->
  (forall i,
     In i (index_search env ix
             (l2_normalize env (embeddings env (embed_model cfg) question))
             (top_k cfg)) ->
     i < Z.of_nat (length ix)) ->
  exists ans s',
    query env cfg question s = Ret ans s' /\ strip ans = ans /\ same_store s s'.
Proof.
  intros Hix Hlen Hrange. apply (query_runs question s ix Hix).
  intros i Hi. rewrite Hlen. apply Hrange, Hi.
Qed.

Lemma load_restores (s' s2 : State vec) ix ms :
  index_file (disk s2) = Some ix -> meta_file (disk s2) = Some ms ->
  load s2 = Ret tt {| store_index := Some ix; meta := ms; disk := disk s2;
                      calls := calls s2 |}.
Proof.
  intros H1 H2. unfold load, bind, get. rewrite H1, H2. reflexivity.
Qed.

Lemma ingest_then_load (fuel : nat) (folder : str) (s s' s2 : State vec) :
  ingest_folder env cfg fuel folder s = Ret tt s' ->
  disk s2 = disk s' ->
  load s2 = Ret tt {| store_index := store_index s'; meta := meta s';
                      disk := disk s2; calls := calls s2 |}.
Proof.
  intros H Hd. pose proof (ingest_folder_cases fuel folder s) as C.
  rewrite H in C.
  destruct C as (prev & r & s1 & ch & chs & _ & _ & _ & _ & _ & E).
  subst s'. cbn [store_index meta]. cbn [disk] in Hd.
  apply (load_restores s2 s2); rewrite Hd; reflexivity.
Qed.

(** X14: what a completed [ingest_folder] wrote can be loaded: on any
    pipeline over the disk the run left, [load] succeeds and installs the
    index and the metadata of the run. *)
Theorem load_after_ingest (fuel : nat) (folder : str) (s s' s2 : State vec) :
  ingest_folder env cfg fuel folder s = Ret tt s' ->
  disk s2 = disk s' ->
  load s2 = Ret tt {| store_index := store_index s'; meta := meta s';
                      disk := disk s2; calls := calls s2 |}.
Proof.
  intros H Hd. pose proof (ingest_folder_cases fuel folder s) as C.
  rewrite H in C.
  destruct C as (prev & r & s1 & ch & chs & _ & _ & _ & _ & _ & E).
  subst s'. cbn [store_index meta]. cbn [disk] in Hd.
  apply (load_restores s2 s2); rewrite Hd; reflexivity.
Qed.

End PipelineMore.

Section CommandLine.

Variables image vec : Type.
Variable env : Env image vec.

(** X15: asked a question over a store directory that lacks the index file
    or the metadata file, [main] raises [FileNotFoundError] with the message
    "Index not found. Build index first." before any request is made. *)
Theorem main_ask_before_ingest (fuel : nat) (a : Args) (d : Disk vec) c q :
  arg_dir a = None \/ arg_dir a = Some [] ->
  arg_ask a = Some (c :: q) ->
  index_file d = None \/ meta_file d = None ->
  main env fuel a d
  = Raise (FileNotFoundError (lit "Index not found. Build index first."))
      (new_pipeline d).
Proof.
  intros Hdir Hask Hmiss. unfold main.
  assert (E : match arg_dir a with Some (_ :: _) => False | _ => True end)
    by (destruct Hdir as [-> | ->]; exact I).
  destruct (arg_dir a) as [[|c0 d0]|]; try contradiction; rewrite Hask;
    unfold bind at 1, load, bind, get; cbn [disk new_pipeline];
    destruct Hmiss as [-> | ->]; try reflexivity;
    destruct (index_file d); reflexivity.
Qed.

(** X16: ingesting with [--dir] and then asking with [--ask] over the
    store the first call left: the second call answers by [query] on a
    pipeline that holds the index and the metadata of the ingestion. *)
Theorem main_ingest_then_ask (fuel fuel2 : nat) (a1 a2 : Args) (d : Disk vec)
    c1 dir_ c2 q out s' :
  arg_dir a1 = Some (c1 :: dir_) ->
  main env fuel a1 d = Ret out s' ->
  arg_dir a2 = None \/ arg_dir a2 = Some [] ->
  arg_ask a2 = Some (c2 :: q) ->
  main env fuel2 a2 (disk s')
  = bind (query env (main_config a2) (c2 :: q)) (fun ans => ret [ans])
      {| store_index := store_index s'; meta := meta s'; disk := disk s';
         calls := [] |}.
Proof.
  intros Hdir1 Hrun Hdir2 Hask. unfold main in Hrun. rewrite Hdir1 in Hrun.
  apply bind_Ret_inv in Hrun. destruct Hrun as ([] & s1 & Hingest & Hret).
  injection Hret as _ <-.
  pose proof (ingest_then_load image vec env (main_config a1) fuel (c1 :: dir_)
                (new_pipeline d) s1 (new_pipeline (disk s1)) Hingest eq_refl) as Hload.
  unfold main.
  assert (E : match arg_dir a2 with Some (_ :: _) => False | _ => True end)
    by (destruct Hdir2 as [-> | ->]; exact I).
  destruct (arg_dir a2) as [[|c0 d0]|]; try contradiction; rewrite Hask;
    rewrite (bind_Ret vec _ _ _ _ _ Hload); reflexivity.
Qed.

End CommandLine.

(** ** Termination of ingestion *)

Section Termination.

Variables image vec : Type.
Variable env : Env image vec.
Variable cfg : PipelineConfig.
Hypothesis chunk_chars_pos : 0 < chunk_chars cfg.
Hypothesis overlap_range : 0 <= chunk_overlap cfg < chunk_chars cfg.

Lemma halts_ret {A : Type} (a : A) : halts (ret (vec := vec) a).
Proof. intros s. discriminate. Qed.

Lemma halts_raise {A : Type} (e : exn) : halts (raise (vec := vec) (A := A) e).
Proof. intros s. discriminate. Qed.

Lemma halts_bind {A B : Type} (m : M vec A) (k : A -> M vec B) :
  halts m -> (forall s a s', m s = Ret a s' -> halts (k a)) -> halts (bind m k).
Proof.
  intros Hm Hk s. unfold bind. specialize (Hm s).
  destruct (m s) as [a s1|e s1|] eqn:E; [|discriminate|contradiction].
  exact (Hk s a s1 E s1).
Qed.

Lemma halts_chunk_text_m (fuel : nat) (t : str) :
  (length (normalize_ws t) <= fuel)%nat -> halts (chunk_text_m (vec := vec) cfg fuel t).
Proof using chunk_chars_pos overlap_range.
  intros Hfuel s. unfold chunk_text_m.
  rewrite (chunk_text_windows t _ _ fuel chunk_chars_pos overlap_range Hfuel).
  discriminate.
Qed.

(** A loop halts for every large enough fuel when each of its steps does. *)
Lemma for_each_halts {A B : Type} (body : nat -> B -> A -> M vec B) :
  forall l : list A,
  (forall x, In x l ->
     exists f, forall fuel, (f <= fuel)%nat -> forall acc, halts (body fuel acc x)) ->
  exists f, forall fuel, (f <= fuel)%nat ->
    forall acc, halts (for_each l (body fuel) acc).
Proof.
  induction l as [|x l IH]; intros Hbody.
  - exists 0%nat. intros fuel _ acc. apply halts_ret.
  - destruct (Hbody x (or_introl eq_refl)) as [f1 H1].
    destruct IH as [f2 H2]; [intros y Hy; apply Hbody; right; exact Hy|].
    exists (Nat.max f1 f2). intros fuel Hfuel acc. cbn [for_each].
    apply halts_bind; [apply H1; lia | intros s a s' _; apply H2; lia].
Qed.

Lemma ocr_image_value (img : image) (s : State vec) t s' :
  ocr_image env cfg img s = Ret t s' ->
  t = normalize_ws (vision_chat env (ocr_model cfg) img).
Proof. unfold ocr_image, bind, log_call, modify, ret. intros H. now injection H. Qed.

Lemma halts_ocr_image (img : image) : halts (ocr_image env cfg img).
Proof. intros s. discriminate. Qed.

Lemma ingest_file_halts (folder p : str) :
  exists f, forall fuel, (f <= fuel)%nat ->
    forall st, halts (ingest_file env cfg fuel folder st p).
Proof using chunk_chars_pos overlap_range.
  unfold ingest_file.
  destruct (str_eqb (ext_of env p) (lit ".pdf")).
  { unfold ingest_pdf. destruct (have_pdf2image env); cbn [negb].
    - destruct (for_each_halts
                  (fun fuel (acc : Acc) (iimg : nat * image) =>
                     bind (ocr_image env cfg (snd iimg))
                       (fun t =>
                          bind (chunk_text_m cfg fuel t)
                            (fun chunks =>
                               ret (add_chunks
                                      (pdf_record env (path_join env folder p) (slashes p)
                                         (fst iimg + 1)) chunks acc))))
                  (enumerate (convert_from_path env (path_join env folder p))))
        as [f Hf].
      { intros x _.
        exists (length (normalize_ws
                          (normalize_ws (vision_chat env (ocr_model cfg) (snd x))))).
        intros fuel Hfuel acc.
        apply halts_bind; [apply halts_ocr_image|].
        intros s t s' Ht. apply ocr_image_value in Ht. subst t.
        apply halts_bind; [now apply halts_chunk_text_m|].
        intros; apply halts_ret. }
      exists f. intros fuel Hfuel st.
      apply halts_bind; [apply Hf; exact Hfuel | intros; apply halts_ret].
    - exists 0%nat. intros fuel _ st.
      apply halts_bind; [apply halts_raise | intros; apply halts_ret]. }
  destruct (str_in (ext_of env p) exts_img).
  { exists (length (normalize_ws
                      (normalize_ws (vision_chat env (ocr_model cfg)
                                       (image_open env (path_join env folder p)))))).
    intros fuel Hfuel st.
    apply halts_bind; [|intros; apply halts_ret].
    unfold ingest_image.
    apply halts_bind; [apply halts_ocr_image|].
    intros s t s' Ht. apply ocr_image_value in Ht. subst t.
    apply halts_bind; [now apply halts_chunk_text_m | intros; apply halts_ret]. }
  destruct (str_in (ext_of env p) exts_txt).
  { exists (length (normalize_ws
                      (normalize_ws (read_text env (path_join env folder p))))).
    intros fuel Hfuel st.
    apply halts_bind; [|intros; apply halts_ret].
    unfold ingest_text.
    apply halts_bind; [now apply halts_chunk_text_m | intros; apply halts_ret]. }
  exists 0%nat. intros fuel _ st.
  apply halts_bind; [|intros; apply halts_ret].
  destruct (str_in (ext_of env p) exts_csv); [apply halts_ret|].
  destruct (str_in (ext_of env p) exts_xlsx); [|apply halts_ret].
  unfold ingest_excel. destruct (have_pandas env); cbn [negb];
    [apply halts_ret | apply halts_raise].
Qed.

Lemma ingest_folder_halts_from (folder : str) :
  exists f, forall fuel, (f <= fuel)%nat -> halts (ingest_folder env cfg fuel folder).
Proof using chunk_chars_pos overlap_range.
  destruct (for_each_halts
              (fun fuel => ingest_file env cfg fuel (abspath env folder))
              (filter (supported env) (walk env (abspath env folder))))
    as [f Hf].
  { intros p _. apply ingest_file_halts. }
  exists f. intros fuel Hfuel s Hdiv.
  unfold ingest_folder in Hdiv.
  destruct (isdir env (abspath env folder)); cbn [negb] in Hdiv; [|discriminate].
  unfold bind at 1 in Hdiv. unfold load_manifest at 1, bind at 1, get in Hdiv.
  set (files := filter (supported env) (walk env (abspath env folder))) in *.
  assert (Hrest : forall prev,
             match files with
             | [] => raise (RuntimeError (lit "No supported files found in folder."))
             | _ :: _ =>
                 bind (for_each files (ingest_file env cfg fuel (abspath env folder))
                         ([], [], prev))
                   (fun r =>
                      match fst (fst r) with
                      | [] => raise (RuntimeError
                                       (lit "No text extracted from supported files."))
                      | _ :: _ =>
                          bind (embed env cfg (fst (fst r)))
                            (fun vectors =>
                               bind (set_index vectors (snd (fst r)))
                                 (fun _ => bind save_index
                                             (fun _ => bind save_meta
                                                         (fun _ => save_manifest (snd r)))))
                      end)
             end s <> Diverge).
  { intros prev. destruct files as [|p0 fs] eqn:Ef; [discriminate|].
    rewrite <- Ef in *. apply halts_bind; [apply Hf; exact Hfuel|].
    intros s0 r s1 _. destruct (fst (fst r)) as [|ch chs]; [apply halts_raise|].
    intros s2. rewrite (bind_Ret vec _ _ _ _ _ (embed_returns image vec env cfg ch chs s2)).
    cbv [bind set_index save_index save_meta save_manifest modify get ret].
    cbn [store_index]. discriminate. }
  destruct (manifest_file (disk s)) as [m|]; cbv [ret] in Hdiv;
    [exact (Hrest m Hdiv) | exact (Hrest [] Hdiv)].
Qed.

(** X17: with a chunk size above 0 and an overlap from 0 up to but not
    including the chunk size, ingestion of any folder terminates: from some
    number of loop iterations on, [ingest_folder] returns or raises. *)
Theorem ingest_folder_terminates (folder : str) (s : State vec) :
  exists fuel0, forall fuel, (fuel0 <= fuel)%nat ->
    ingest_folder env cfg fuel folder s <> Diverge.
Proof using chunk_chars_pos overlap_range.
  destruct (ingest_folder_halts_from folder) as [f Hf].
  exists f. intros fuel Hfuel. apply Hf. exact Hfuel.
Qed.

Lemma halts_loop {A B : Type} (body : B -> A -> M vec B) :
  (forall acc x, halts (body acc x)) -> forall l acc, halts (for_each l body acc).
Proof.
  intros Hbody. induction l as [|x l IH]; intros acc; [apply halts_ret|].
  cbn [for_each]. apply halts_bind; [apply Hbody | intros; apply IH].
Qed.

Lemma halts_query (c : PipelineConfig) (question : str) : halts (query env c question).
Proof.
  unfold query. apply halts_bind.
  { intros s. rewrite (embed_returns image vec env c question [] s). discriminate. }
  intros ? vecs ? _. destruct vecs as [|qvec vecs]; [apply halts_raise|].
  apply halts_bind.
  { intros s1. unfold store_search, bind, get.
    destruct (store_index s1); discriminate. }
  intros ? idxs ? _. apply halts_bind.
  { intros s1. unfold contexts_of, bind, get.
    apply (halts_loop
             (fun ctx i =>
                if 0 <=? i
                then match nth_error (meta s1) (Z.to_nat i) with
                     | Some m => ret (ctx ++ [m])
                     | None => raise IndexError
                     end
                else ret ctx)).
    intros acc i. destruct (0 <=? i); [|apply halts_ret].
    destruct (nth_error (meta s1) (Z.to_nat i)); [apply halts_ret | apply halts_raise]. }
  intros ? ctx ? _. destruct ctx; [apply halts_ret|].
  intros sq. discriminate.
Qed.

End Termination.

(** X18: [main] terminates whatever its arguments are: it always ingests
    with chunk size 1200 and overlap 200, and asking involves no loop of its
    own. *)
Theorem main_terminates {image vec : Type} (env : Env image vec) (a : Args)
    (d : Disk vec) :
  exists fuel0, forall fuel, (fuel0 <= fuel)%nat -> main env fuel a d <> Diverge.
Proof.
  assert (HC : 0 < chunk_chars (main_config a)) by reflexivity.
  assert (HO : 0 <= chunk_overlap (main_config a) < chunk_chars (main_config a))
    by (split; [discriminate | reflexivity]).
  unfold main.
  destruct (arg_dir a) as [[|c dir_]|].
  - exists 0%nat. intros fuel _.
    destruct (arg_ask a) as [[|c q]|]; try discriminate.
    apply halts_bind; [intros s; unfold load, bind, get;
                       destruct (index_file (disk s)); [destruct (meta_file (disk s))|];
                       discriminate|].
    intros ? ? ? _. apply halts_bind; [apply halts_query | intros; apply halts_ret].
  - destruct (ingest_folder_halts_from image vec env (main_config a) HC HO (c :: dir_))
      as [f Hf].
    exists f. intros fuel Hfuel.
    apply halts_bind; [apply Hf; exact Hfuel | intros; apply halts_ret].
  - exists 0%nat. intros fuel _.
    destruct (arg_ask a) as [[|c q]|]; try discriminate.
    apply halts_bind; [intros s; unfold load, bind, get;
                       destruct (index_file (disk s)); [destruct (meta_file (disk s))|];
                       discriminate|].
    intros ? ? ? _. apply halts_bind; [apply halts_query | intros; apply halts_ret].
Qed.

(** ** Rows of CSV files and workbooks *)

Lemma strip_empty_iff (s : str) : strip s = [] <-> all_space s.
Proof.
  split.
  - intros E. apply Forall_forall. intros c Hin.
    destruct (is_space c) eqn:Hc; [reflexivity|].
    pose proof (strip_keeps c s Hc Hin) as F. rewrite E in F. destruct F.
  - intros H. unfold strip, lstrip. now rewrite drop_while_all_space.
Qed.

Lemma strip_nonempty_of (c : char) (s : str) :
  is_space c = false -> In c s -> strip s <> [].
Proof.
  intros Hc Hin E. pose proof (strip_keeps c s Hc Hin) as F.
  rewrite E in F. destruct F.
Qed.

(** X19: a CSV row is skipped exactly when it has no cell, or a single cell
    of white space only; a row of two or more cells is kept even when all
    its cells are empty, its line then being separators. *)
Theorem csv_row_skipped_iff (cells : list str) :
  strip (csv_line cells) = [] <->
  cells = [] \/ exists c, cells = [c] /\ all_space c.
Proof.
  unfold csv_line. destruct cells as [|c1 [|c2 rest]].
  - split; [left; reflexivity | reflexivity].
  - cbn [map join]. rewrite strip_idem, strip_empty_iff. split.
    + intros H. right. exists c1. split; [reflexivity | exact H].
    + intros [F|(c & E & H)]; [discriminate F | injection E as ->; exact H].
  - split.
    + intros E. exfalso. revert E.
      apply (strip_nonempty_of 124%N); [reflexivity|].
      cbn [map join]. apply in_or_app. right. simpl. right. left. reflexivity.
    + intros [F|(c & E & _)]; discriminate.
Qed.

Section Rows.

Variables image vec : Type.
Variable env : Env image vec.

Lemma join_keeps (sep : str) (c : char) (p : str) (ps : list str) :
  In c p -> In c (join sep (p :: ps)).
Proof.
  intros H. destruct ps as [|q ps]; [exact H|].
  cbn [join]. apply in_or_app. left. exact H.
Qed.

Lemma format_df_parts_equals (cols : list str) : forall (values : list (option str)) part,
  In part (format_df_parts env cols values) -> In 61%N part.
Proof.
  induction cols as [|c cols IH]; intros values part Hin; [destruct Hin|].
  destruct values as [|v values]; [destruct Hin|].
  cbn [format_df_parts] in Hin.
  destruct v as [sv|]; [|eapply IH; eauto].
  destruct (match strip sv with [] => true | _ => false end
            || str_in (lower env (strip sv)) [lit "nan"; lit "none"]);
    [eapply IH; eauto|].
  destruct Hin as [<-|Hin]; [|eapply IH; eauto].
  apply in_or_app. right. left. reflexivity.
Qed.

(** X20: the line made of a workbook row is empty exactly when no value
    of the row makes a part: every value that has a column is missing, or
    blank after stripping, or reads [nan] or [none] in lower case. *)
Theorem format_df_row_empty_iff (cols : list str) (values : list (option str)) :
  format_df_row env cols values = [] <->
  Forall
    (fun cv =>
       match snd cv with
       | None => True
       | Some sv =>
           strip sv = [] \/
           str_in (lower env (strip sv)) [lit "nan"; lit "none"] = true
       end)
    (combine cols values).
Proof.
  unfold format_df_row.
  assert (Hparts : format_df_parts env cols values = [] <->
                   Forall
                     (fun cv =>
                        match snd cv with
                        | None => True
                        | Some sv =>
                            strip sv = [] \/
                            str_in (lower env (strip sv)) [lit "nan"; lit "none"] = true
                        end)
                     (combine cols values)).
  { revert values. induction cols as [|c cols IH]; intros values.
    - split; [constructor | reflexivity].
    - destruct values as [|v values]; [split; [constructor | reflexivity]|].
      cbn [format_df_parts combine]. destruct v as [sv|].
      + destruct (strip sv) as [|a r] eqn:Es; cbn [orb].
        * rewrite IH. split; [intros H; constructor; [simpl; left; exact Es | exact H]
                             | intros H; now inversion H].
        * destruct (str_in (lower env (a :: r)) [lit "nan"; lit "none"]) eqn:El.
          -- rewrite IH. split; [intros H; constructor; [cbn [snd]; rewrite Es; right; exact El | exact H]
                                | intros H; now inversion H].
          -- split; [discriminate|]. intros H. inversion H as [|? ? Hv _]; subst.
             cbn [snd] in Hv. rewrite Es in Hv. destruct Hv; congruence.
      + rewrite IH. split; [intros H; constructor; [exact I | exact H]
                           | intros H; now inversion H]. }
  rewrite <- Hparts. split.
  - intros E. destruct (format_df_parts env cols values) as [|p ps] eqn:Ep; [reflexivity|].
    exfalso. revert E. apply (strip_nonempty_of 61%N); [reflexivity|].
    apply join_keeps. apply (format_df_parts_equals cols values). rewrite Ep. left. reflexivity.
  - intros ->. reflexivity.
Qed.

Lemma In_enumerate {A : Type} (l : list A) (i : nat) (x : A) :
  In (i, x) (enumerate l) <-> nth_error l i = Some x.
Proof.
  unfold enumerate.
  assert (H : forall k (l : list A) i x,
             In (i, x) (combine (seq k (length l)) l)
             <-> (k <= i)%nat /\ nth_error l (i - k) = Some x).
  { intros k l0. revert k. induction l0 as [|a l0 IH]; intros k j y; simpl.
    - split; [intros [] | intros [_ F]; destruct (j - k)%nat; discriminate].
    - rewrite IH. split.
      + intros [E|[Hk Hn]].
        * injection E as <- <-. split; [lia|]. now rewrite Nat.sub_diag.
        * split; [lia|]. replace (j - k)%nat with (S (j - S k)) by lia. exact Hn.
      + intros [Hk Hn]. destruct (Nat.eq_dec k j) as [->|Hne].
        * left. rewrite Nat.sub_diag in Hn. simpl in Hn. now injection Hn as ->.
        * right. split; [lia|].
          replace (j - k)%nat with (S (j - S k)) in Hn by lia. exact Hn. }
  rewrite H, Nat.sub_0_r. split; [tauto | intros; split; [lia | assumption]].
Qed.

(** X21: ingestion of a CSV file makes one record for each row that is not
    skipped and no other: the new records are, in the order of the file,
    exactly the records of the rows whose line is not blank, so no two of
    them have the same row number; the record's row number is the position
    of the row in the file, skipped rows counted, and its text is the row's
    line. *)
Theorem ingest_csv_rows (path rel_ : str) (acc : Acc) (s : State vec) :
  exists acc' news,
    ingest_csv env path rel_ acc s = Ret acc' s /\
    grows acc acc' news /\
    news = map (fun x => csv_record env path rel_ (fst x) (csv_line (snd x)))
             (filter (fun x => match strip (csv_line (snd x)) with
                               | [] => false
                               | _ => true
                               end)
                (enumerate (csv_reader env path))) /\
    NoDup (map row news) /\
    (forall m, In m news ->
       exists r cells,
         nth_error (csv_reader env path) r = Some cells /\
         row m = Some r /\ text m = csv_line cells /\ strip (text m) <> []) /\
    (forall r cells,
       nth_error (csv_reader env path) r = Some cells ->
       strip (csv_line cells) <> [] ->
       exists m, In m news /\ row m = Some r /\ text m = csv_line cells).
Proof.
  unfold ingest_csv. eexists. eexists. split; [reflexivity|].
  split.
  { apply (add_rows_grows (csv_record env path rel_) (fun x => csv_line (snd x))).
    reflexivity. }
  split; [reflexivity|].
  split.
  { rewrite map_map. cbn [row csv_record].
    rewrite <- (map_map fst (fun r : nat => Some r)).
    apply NoDup_map_inj_in.
    - intros a b _ _ E. now injection E.
    - apply NoDup_fst_filter, NoDup_fst_enumerate. }
  split.
  - intros m Hm. apply in_map_iff in Hm. destruct Hm as ([r cells] & <- & Hx).
    apply filter_In in Hx. destruct Hx as [Hx Hkeep]. cbn [fst snd] in *.
    exists r, cells. split; [now apply In_enumerate|].
    split; [reflexivity|]. split; [reflexivity|].
    cbn [text csv_record]. destruct (strip (csv_line cells)); [discriminate Hkeep | discriminate].
  - intros r cells Hn Hkeep.
    exists (csv_record env path rel_ r (csv_line cells)).
    split; [|split; reflexivity].
    apply in_map_iff. exists (r, cells). split; [reflexivity|].
    apply filter_In. split; [now apply In_enumerate|].
    cbn [snd]. destruct (strip (csv_line cells)); [contradiction | reflexivity].
Qed.

End Rows.

(** ** The rows of the embedding client *)

(** The reply [3.0, 4.0] comes back as the [float32] numbers nearest to 0.6
    and 0.8, a row of norm 1. *)
Example embedding_row_3_4 :
  embedding_row plain_raw = [f32_of_Z 10066330 (-24); f32_of_Z 13421773 (-24)] /\
  linalg_norm (embedding_row plain_raw) = f32_of_Z 1 0 /\
  near_one (linalg_norm (embedding_row plain_raw)) = true.
Proof. vm_compute. repeat split. Qed.

(** The [float32] epsilon is the number 9223372 * 2^-63, about 1e-12. *)
Example eps32_value : eps32 = S754_finite false 9223372 (-63).
Proof. reflexivity. Qed.

Lemma length_l2_normalize32 (v : list f32) : length (l2_normalize32 v) = length v.
Proof. unfold l2_normalize32. apply length_map. Qed.

Lemma length_embedding_row (raw : list f64) : length (embedding_row raw) = length raw.
Proof.
  unfold embedding_row, asarray32. now rewrite length_l2_normalize32, length_map.
Qed.

Lemma dot32_zeros (v : list f32) :
  all_zero v = true ->
  fold_left (fun acc p => f32_add acc (f32_mul (fst p) (snd p)))
    (combine v v) (S754_zero false) = S754_zero false.
Proof.
  induction v as [|x v IH]; intros Hz; [reflexivity|].
  simpl in Hz. apply andb_true_iff in Hz. destruct Hz as [Hx Hv].
  destruct x as [sx| | |]; try discriminate.
  simpl. destruct sx; simpl; now apply IH.
Qed.

Lemma linalg_norm_zeros (v : list f32) :
  all_zero v = true -> linalg_norm v = S754_zero false.
Proof.
  intros Hz. unfold linalg_norm, dot32. now rewrite (dot32_zeros v Hz).
Qed.

Lemma all_zero_div (d : f32) (v : list f32) :
  (exists m e, d = S754_finite false m e) ->
  all_zero v = true -> all_zero (map (fun x => f32_div x d) v) = true.
Proof.
  intros (m & e & ->). induction v as [|x v IH]; intros Hz; [reflexivity|].
  simpl in Hz. apply andb_true_iff in Hz. destruct Hz as [Hx Hv].
  destruct x as [sx| | |]; try discriminate.
  simpl. now apply IH.
Qed.

Lemma l2_normalize32_zeros (v : list f32) :
  all_zero v = true ->
  all_zero (l2_normalize32 v) = true /\
  linalg_norm (l2_normalize32 v) = S754_zero false.
Proof.
  intros Hz.
  assert (Hrow : all_zero (l2_normalize32 v) = true).
  { unfold l2_normalize32. rewrite (linalg_norm_zeros v Hz).
    apply all_zero_div; [|exact Hz].
    exists 9223372%positive, (-63). reflexivity. }
  split; [exact Hrow | now apply linalg_norm_zeros].
Qed.


(** *** Rounding to [float32]

    [binary_round_aux] cuts a mantissa of at least 24 digits down to 24
    digits and rounds it; the result is one of the two neighbours of the
    number it was given. *)

Section FloatRounding.

Lemma digits2_size (p : positive) : digits2_pos p = Pos.size p.
Proof. induction p; simpl; congruence. Qed.

Lemma digits_bounds (p : positive) :
  2 ^ (Zpos (digits2_pos p) - 1) <= Zpos p < 2 ^ Zpos (digits2_pos p).
Proof.
  rewrite digits2_size. split.
  - pose proof (Pos.size_le p) as H.
    assert (H2 : 2 ^ Zpos (Pos.size p) <= 2 * Zpos p).
    { change (2 * Zpos p) with (Zpos p~0). rewrite <- Pos2Z.inj_pow. exact H. }
    replace (Zpos (Pos.size p)) with (Z.succ (Zpos (Pos.size p) - 1)) in H2 by lia.
    rewrite Z.pow_succ_r in H2 by lia. lia.
  - pose proof (Pos.size_gt p) as H. rewrite <- Pos2Z.inj_pow. exact H.
Qed.

Lemma digits_unique (p : positive) (k : Z) :
  2 ^ (k - 1) <= Zpos p < 2 ^ k -> Zpos (digits2_pos p) = k.
Proof.
  intros [H1 H2]. pose proof (digits_bounds p) as [D1 D2].
  assert (0 < k).
  { destruct (Z_lt_le_dec 0 k); [assumption|].
    assert (2 ^ k <= 2 ^ 0) by (apply Z.pow_le_mono_r; lia). simpl in *. lia. }
  destruct (Z_lt_le_dec (Zpos (digits2_pos p)) k) as [L|L].
  - assert (2 ^ Zpos (digits2_pos p) <= 2 ^ (k - 1)) by (apply Z.pow_le_mono_r; lia). lia.
  - destruct (Z_lt_le_dec k (Zpos (digits2_pos p))) as [L'|L']; [|lia].
    assert (2 ^ k <= 2 ^ (Zpos (digits2_pos p) - 1)) by (apply Z.pow_le_mono_r; lia). lia.
Qed.

Lemma shr_m_shr_1 (mrs : shr_record) :
  0 <= shr_m mrs -> shr_m (shr_1 mrs) = shr_m mrs / 2.
Proof.
  destruct mrs as [m r s]. simpl. intros Hm.
  destruct m as [|p|p]; [reflexivity| |lia].
  destruct p as [p|p|]; simpl.
  - rewrite Pos2Z.inj_xI. apply Z.div_unique with 1; lia.
  - rewrite Pos2Z.inj_xO. apply Z.div_unique with 0; lia.
  - reflexivity.
Qed.

Lemma shr_m_iter (p : positive) : forall mrs : shr_record,
  0 <= shr_m mrs ->
  shr_m (SpecFloat.iter_pos shr_1 p mrs) = shr_m mrs / 2 ^ Zpos p.
Proof.
  induction p as [p IH|p IH|]; intros mrs Hm; simpl SpecFloat.iter_pos.
  - assert (H1 : 0 <= shr_m (shr_1 mrs)).
    { rewrite shr_m_shr_1 by assumption. apply Z.div_pos; lia. }
    assert (H2 : 0 <= shr_m (SpecFloat.iter_pos shr_1 p (shr_1 mrs))).
    { rewrite IH by assumption. apply Z.div_pos; [assumption|]. apply Z.pow_pos_nonneg; lia. }
    rewrite IH by assumption. rewrite IH by assumption. rewrite shr_m_shr_1 by assumption.
    rewrite !Z.div_div by (try apply Z.pow_pos_nonneg; lia).
    f_equal. change 2 with (2 ^ 1) at 1. rewrite <- !Z.pow_add_r by lia. f_equal. lia.
  - assert (H2 : 0 <= shr_m (SpecFloat.iter_pos shr_1 p mrs)).
    { rewrite IH by assumption. apply Z.div_pos; [assumption|]. apply Z.pow_pos_nonneg; lia. }
    rewrite IH by assumption. rewrite IH by assumption.
    rewrite !Z.div_div by (try apply Z.pow_pos_nonneg; lia).
    f_equal. rewrite <- Z.pow_add_r by lia. f_equal. lia.
  - rewrite shr_m_shr_1 by assumption. reflexivity.
Qed.

Lemma round_nearest_even_cases (m : Z) (l : location) :
  round_nearest_even m l = m \/ round_nearest_even m l = m + 1.
Proof.
  destruct l as [|[| |]]; simpl; auto. destruct (Z.even m); auto.
Qed.

Lemma shr_m_record_of_loc (m : Z) (l : location) : shr_m (shr_record_of_loc m l) = m.
Proof. destruct l as [|[| |]]; reflexivity. Qed.

(** The first step of rounding: the mantissa is cut to 24 digits. *)
Lemma shr_fexp_cut (mx : positive) (ex : Z) (lx : location) :
  let d := Zpos (digits2_pos mx) in
  24 <= d -> -149 <= d + ex - 24 ->
  exists mrs,
    shr_fexp 24 128 (Zpos mx) ex lx = (mrs, ex + (d - 24)) /\
    shr_m mrs = Zpos mx / 2 ^ (d - 24).
Proof.
  intros d Hd Hn. unfold shr_fexp, shr, fexp, emin. cbn [Zdigits2]. fold d.
  replace (Z.max (d + ex - 24) (3 - 128 - 24) - ex) with (d - 24) by lia.
  destruct (d - 24) as [|p|p] eqn:E; [| |lia].
  - eexists. split; [rewrite Z.add_0_r; reflexivity|].
    rewrite shr_m_record_of_loc. simpl. now rewrite Z.div_1_r.
  - eexists. split; [reflexivity|].
    rewrite shr_m_iter; rewrite shr_m_record_of_loc; [reflexivity | lia].
Qed.

Lemma cut_bounds (mx : positive) :
  let d := Zpos (digits2_pos mx) in
  24 <= d ->
  2 ^ 23 <= Zpos mx / 2 ^ (d - 24) < 2 ^ 24.
Proof.
  intros d Hd. pose proof (digits_bounds mx) as [D1 D2]. fold d in D1, D2.
  assert (P : 0 < 2 ^ (d - 24)) by (apply Z.pow_pos_nonneg; lia).
  split.
  - apply Z.div_le_lower_bound; [assumption|].
    rewrite <- Z.pow_add_r by lia. replace (d - 24 + 23) with (d - 1) by lia. assumption.
  - apply Z.div_lt_upper_bound; [assumption|].
    rewrite <- Z.pow_add_r by lia. replace (d - 24 + 24) with d by lia. assumption.
Qed.

(** Rounding a mantissa of at least 24 digits in the normal range gives a
    normal [float32]: the mantissa cut to 24 digits, or the next one. *)
Lemma round_aux_spec (sx : bool) (mx : positive) (ex : Z) (lx : location) :
  let d := Zpos (digits2_pos mx) in
  24 <= d -> -149 <= d + ex - 24 -> d + ex <= 127 ->
  exists m e,
    binary_round_aux 24 128 sx (Zpos mx) ex lx = S754_finite sx m e /\
    Zpos (digits2_pos m) = 24 /\
    let m' := Zpos mx / 2 ^ (d - 24) in
    let e' := ex + (d - 24) in
    ((Zpos m = m' /\ e = e') \/ (Zpos m = m' + 1 /\ e = e') \/
     (m' + 1 = 2 ^ 24 /\ Zpos m = 2 ^ 23 /\ e = e' + 1)).
Proof.
  intros d Hd Hn Hov.
  destruct (shr_fexp_cut mx ex lx Hd Hn) as (mrs & Hcut & Hm). fold d in Hcut, Hm.
  pose proof (cut_bounds mx Hd) as Hb. fold d in Hb.
  unfold binary_round_aux. rewrite Hcut.
  set (m' := Zpos mx / 2 ^ (d - 24)) in *.
  set (e' := ex + (d - 24)) in *.
  set (M := round_nearest_even (shr_m mrs) (loc_of_shr_record mrs)).
  assert (HM : M = m' \/ M = m' + 1).
  { unfold M. rewrite <- Hm. apply round_nearest_even_cases. }
  assert (HMpos : 0 < M) by lia.
  destruct M as [|pM|pM] eqn:EM; [lia| |lia].
  destruct (Z.eq_dec (Zpos pM) (2 ^ 24)) as [Etop|Ntop].
  - (* the mantissa was rounded up to 2^24 *)
    assert (pM = 16777216%positive) by (apply Pos2Z.inj; exact Etop). subst pM.
    unfold shr_fexp, shr, fexp, emin. cbn [Zdigits2 digits2_pos Pos.succ].
    replace (Z.max (25 + e' - 24) (3 - 128 - 24) - e') with 1 by lia.
    cbn [SpecFloat.iter_pos shr_record_of_loc shr_1 shr_m].
    replace (e' + 1 <=? 128 - 24) with true by (symmetry; apply Z.leb_le; lia).
    eexists. eexists. split; [reflexivity|]. split; [reflexivity|].
    right. right. repeat split; lia.
  - assert (Hdig : Zpos (digits2_pos pM) = 24).
    { apply digits_unique. change (2 ^ 24) with 16777216 in *. change (2 ^ (24 - 1)) with 8388608.
      change (2 ^ 23) with 8388608 in *. lia. }
    unfold shr_fexp, shr, fexp, emin. cbn [Zdigits2]. rewrite Hdig.
    replace (Z.max (24 + e' - 24) (3 - 128 - 24) - e') with 0 by lia.
    rewrite shr_m_record_of_loc.
    replace (e' <=? 128 - 24) with true by (symmetry; apply Z.leb_le; lia).
    eexists. eexists. split; [reflexivity|]. split; [exact Hdig|].
    destruct HM as [HM|HM]; [left|right; left]; split; (exact HM || reflexivity).
Qed.

Lemma pow2_pos (e : Z) : (0 < pow2 e)%R.
Proof. apply powerRZ_lt. lra. Qed.

Lemma pow2_add (a b : Z) : pow2 (a + b) = (pow2 a * pow2 b)%R.
Proof. apply powerRZ_add. lra. Qed.

Lemma pow2_IZR (n : Z) : 0 <= n -> pow2 n = IZR (2 ^ n).
Proof.
  intros Hn. destruct n as [|p|p]; [reflexivity| |lia].
  unfold pow2. change (2 ^ Zpos p) with (Z.pow_pos 2 p).
  now rewrite Zpower_pos_powerRZ.
Qed.

Lemma pow2_ge_1 (n : Z) : 0 <= n -> (1 <= pow2 n)%R.
Proof.
  intros Hn. rewrite pow2_IZR by assumption. apply IZR_le.
  assert (0 < 2 ^ n) by (apply Z.pow_pos_nonneg; lia). lia.
Qed.

Lemma pow2_le (a b : Z) : a <= b -> (pow2 a <= pow2 b)%R.
Proof.
  intros H. replace b with (a + (b - a)) by lia. rewrite pow2_add.
  pose proof (pow2_pos a). pose proof (pow2_ge_1 (b - a) ltac:(lia)). nra.
Qed.

Lemma pow2_lt (a b : Z) : a < b -> (pow2 a < pow2 b)%R.
Proof.
  intros H. replace b with (a + 1 + (b - a - 1)) by lia. rewrite !pow2_add.
  pose proof (pow2_pos a). pose proof (pow2_ge_1 (b - a - 1) ltac:(lia)).
  change (pow2 1) with (2 * 1)%R. nra.
Qed.

Lemma pow2_lt_inv (a b : Z) : (pow2 a < pow2 b)%R -> a < b.
Proof.
  intros H. destruct (Z_lt_le_dec a b) as [L|L]; [assumption|].
  pose proof (pow2_le b a L). lra.
Qed.

Lemma pow2_le_inv (a b : Z) : (pow2 a <= pow2 b)%R -> a <= b.
Proof.
  intros H. destruct (Z_lt_le_dec b a) as [L|L]; [|assumption].
  pose proof (pow2_lt b a L). lra.
Qed.

(** The value of a mantissa of [d] digits lies between 2^(d-1) and 2^d. *)
Lemma mantissa_bounds (p : positive) (e : Z) :
  (pow2 (Zpos (digits2_pos p) - 1 + e) <= IZR (Zpos p) * pow2 e
   < pow2 (Zpos (digits2_pos p) + e))%R.
Proof.
  pose proof (digits_bounds p) as [D1 D2].
  pose proof (Pos2Z.is_pos (digits2_pos p)).
  rewrite !pow2_add. pose proof (pow2_pos e).
  rewrite (pow2_IZR (Zpos (digits2_pos p) - 1)), (pow2_IZR (Zpos (digits2_pos p))) by lia.
  apply IZR_le in D1. apply IZR_lt in D2. split; nra.
Qed.

(** From bounds on the value to bounds on digits plus exponent. *)
Lemma digits_range (p : positive) (e a b : Z) :
  (pow2 a <= IZR (Zpos p) * pow2 e <= pow2 b)%R ->
  a < Zpos (digits2_pos p) + e <= b + 1.
Proof.
  intros [H1 H2]. pose proof (mantissa_bounds p e) as [M1 M2]. split.
  - apply pow2_lt_inv. lra.
  - assert (Zpos (digits2_pos p) - 1 + e <= b) by (apply pow2_le_inv; lra). lia.
Qed.

(** Rounding a positive number, known between two neighbours of at least
    24 digits, gives a normal [float32] whose relative error is at most
    2^-23. *)
Lemma round_aux_rel (sx : bool) (mx : positive) (ex : Z) (lx : location) (x : R) :
  24 <= Zpos (digits2_pos mx) ->
  (pow2 (-126) <= IZR (Zpos mx) * pow2 ex <= pow2 126)%R ->
  (IZR (Zpos mx) * pow2 ex <= x <= (IZR (Zpos mx) + 1) * pow2 ex)%R ->
  exists m e,
    binary_round_aux 24 128 sx (Zpos mx) ex lx = S754_finite sx m e /\
    Zpos (digits2_pos m) = 24 /\
    (Rabs (IZR (Zpos m) * pow2 e - x) <= f32_epsilon * x)%R.
Proof.
  intros Hd Hrange Hx. apply digits_range in Hrange.
  destruct (round_aux_spec sx mx ex lx Hd ltac:(lia) ltac:(lia)) as (m & e & Hr & Hdig & Hcase).
  exists m, e. split; [exact Hr|]. split; [exact Hdig|].
  set (d := Zpos (digits2_pos mx)) in *.
  set (n := d - 24) in *.
  pose proof (cut_bounds mx Hd) as [B1 B2]. fold d in B1, B2. fold n in B1, B2.
  set (m' := Zpos mx / 2 ^ n) in *.
  assert (P : 0 < 2 ^ n) by (apply Z.pow_pos_nonneg; lia).
  assert (L1 : m' * 2 ^ n <= Zpos mx) by (unfold m'; rewrite Z.mul_comm; apply Z.mul_div_le; lia).
  assert (L2 : Zpos mx + 1 <= (m' + 1) * 2 ^ n).
  { pose proof (Z.mul_succ_div_gt (Zpos mx) (2 ^ n) P) as G. fold m' in G. lia. }
  apply IZR_le in L1, L2, B1. apply IZR_lt in B2.
  rewrite ?mult_IZR, ?plus_IZR in *.
  rewrite <- pow2_IZR in L1, L2 by lia.
  change (IZR (2 ^ 23)) with 8388608%R in B1.
  change (IZR (2 ^ 24)) with 16777216%R in B2.
  pose proof (pow2_pos ex) as Pex. pose proof (pow2_pos n) as Pn.
  assert (Ee : pow2 (ex + n) = (pow2 ex * pow2 n)%R) by apply pow2_add.
  set (T := (pow2 ex * pow2 n)%R) in *.
  assert (PT : (0 < T)%R) by (unfold T; nra).
  assert (XA : (IZR m' * T <= x <= (IZR m' + 1) * T)%R) by (unfold T; nra).
  assert (TU : (T <= f32_epsilon * x)%R) by (unfold f32_epsilon; nra).
  assert (V : (IZR (Zpos m) * pow2 e = IZR m' * T \/ IZR (Zpos m) * pow2 e = (IZR m' + 1) * T)%R).
  { cbv zeta in Hcase. destruct Hcase as [[E1 E2]|[[E1 E2]|(E0 & E1 & E2)]].
    - left. rewrite E1, E2, Ee. reflexivity.
    - right. rewrite E1, E2, Ee, plus_IZR. reflexivity.
    - right. rewrite E1, E2, pow2_add, Ee.
      apply (f_equal IZR) in E0. rewrite plus_IZR in E0.
      change (IZR (2 ^ 24)) with 16777216%R in E0. change (IZR (2 ^ 23)) with 8388608%R.
      change (pow2 1) with (2 * 1)%R. rewrite E0. lra. }
  apply Rabs_le. destruct V as [-> | ->]; lra.
Qed.

Lemma digits_ge (p : positive) (k : Z) : 2 ^ (k - 1) <= Zpos p -> k <= Zpos (digits2_pos p).
Proof.
  intros H. pose proof (digits_bounds p) as [_ D2].
  destruct (Z_lt_le_dec (Zpos (digits2_pos p)) k) as [L|L]; [|assumption].
  assert (2 ^ Zpos (digits2_pos p) <= 2 ^ (k - 1)) by (apply Z.pow_le_mono_r; lia). lia.
Qed.

Lemma normal_bounds (m : positive) :
  Zpos (digits2_pos m) = 24 -> 8388608 <= Zpos m < 16777216.
Proof. intros H. pose proof (digits_bounds m) as D. rewrite H in D. exact D. Qed.

Lemma normal_value (m : positive) (e : Z) :
  Zpos (digits2_pos m) = 24 ->
  (pow2 (23 + e) <= IZR (Zpos m) * pow2 e < pow2 (24 + e))%R.
Proof.
  intros H. pose proof (mantissa_bounds m e) as B. rewrite H in B. exact B.
Qed.

(** *** Squares *)

Lemma sq_rel (s : bool) (m : positive) (e : Z) :
  Zpos (digits2_pos m) = 24 ->
  let X := (IZR (Zpos m) * pow2 e)%R in
  (pow2 (-126) <= X * X <= pow2 126)%R ->
  exists m' e',
    SFmul 24 128 (S754_finite s m e) (S754_finite s m e) = S754_finite false m' e' /\
    Zpos (digits2_pos m') = 24 /\
    (Rabs (IZR (Zpos m') * pow2 e' - X * X) <= f32_epsilon * (X * X))%R.
Proof.
  intros Hd X HX.
  assert (EX : (IZR (Zpos (m * m)) * pow2 (e + e) = X * X)%R).
  { rewrite Pos2Z.inj_mul, mult_IZR, pow2_add. unfold X. ring. }
  cbn [SFmul]. replace (xorb s s) with false by (now destruct s).
  apply round_aux_rel.
  - apply digits_ge. pose proof (normal_bounds m Hd). rewrite Pos2Z.inj_mul.
    change (2 ^ (24 - 1)) with 8388608. nia.
  - rewrite EX. exact HX.
  - rewrite EX. pose proof (pow2_pos (e + e)). lra.
Qed.

(** *** Sums of positive numbers *)

Lemma shl_align_value (mx : positive) (ex ez : Z) :
  ez <= ex ->
  Zpos (fst (shl_align mx ex ez)) = Zpos mx * 2 ^ (ex - ez).
Proof.
  intros H. unfold shl_align. destruct (ez - ex) as [|p|p] eqn:E; [| lia |].
  - replace (ex - ez) with 0 by lia. simpl. lia.
  - cbn [fst]. change (Pos.iter xO mx p) with (shift_pos p mx).
    rewrite shift_pos_correct. replace (ex - ez) with (Zpos p) by lia.
    change (Z.pow_pos 2 p) with (2 ^ Zpos p). lia.
Qed.

Lemma add_rel (m1 : positive) (e1 : Z) (m2 : positive) (e2 : Z) :
  Zpos (digits2_pos m1) = 24 -> Zpos (digits2_pos m2) = 24 ->
  let X := (IZR (Zpos m1) * pow2 e1)%R in
  let Y := (IZR (Zpos m2) * pow2 e2)%R in
  (pow2 (-126) <= X + Y <= pow2 126)%R ->
  exists m e,
    SFadd 24 128 (S754_finite false m1 e1) (S754_finite false m2 e2)
    = S754_finite false m e /\
    Zpos (digits2_pos m) = 24 /\
    (Rabs (IZR (Zpos m) * pow2 e - (X + Y)) <= f32_epsilon * (X + Y))%R.
Proof.
  intros H1 H2 X Y HXY.
  set (ez := Z.min e1 e2).
  pose proof (shl_align_value m1 e1 ez ltac:(lia)) as A1.
  pose proof (shl_align_value m2 e2 ez ltac:(lia)) as A2.
  cbn [SFadd cond_Zopp]. fold ez.
  set (a := fst (shl_align m1 e1 ez)) in *.
  set (b := fst (shl_align m2 e2 ez)) in *.
  change (Zpos a + Zpos b) with (Zpos (a + b)).
  assert (P1 : 0 < 2 ^ (e1 - ez)) by (apply Z.pow_pos_nonneg; lia).
  assert (P2 : 0 < 2 ^ (e2 - ez)) by (apply Z.pow_pos_nonneg; lia).
  assert (EV : (IZR (Zpos (a + b)) * pow2 ez = X + Y)%R).
  { rewrite Pos2Z.inj_add, plus_IZR, A1, A2, !mult_IZR.
    rewrite <- !pow2_IZR by lia. unfold X, Y.
    replace e1 with (e1 - ez + ez) at 2 by lia.
    replace e2 with (e2 - ez + ez) at 2 by lia.
    rewrite !pow2_add. ring. }
  assert (Hd : 24 <= Zpos (digits2_pos (a + b))).
  { apply digits_ge. pose proof (normal_bounds m1 H1). rewrite Pos2Z.inj_add.
    change (2 ^ (24 - 1)) with 8388608. nia. }
  assert (HR : (pow2 (-126) <= IZR (Zpos (a + b)) * pow2 ez <= pow2 126)%R) by (rewrite EV; exact HXY).
  pose proof (digits_range _ _ _ _ HR) as DR.
  cbn [binary_normalize]. unfold binary_round.
  assert (SA : shl_align (a + b) ez (fexp 24 128 (Zpos (digits2_pos (a + b)) + ez)) = ((a + b)%positive, ez)).
  { unfold shl_align, fexp, emin.
    destruct (Z.max (Zpos (digits2_pos (a + b)) + ez - 24) (3 - 128 - 24) - ez) eqn:E;
      [reflexivity | reflexivity | lia]. }
  rewrite SA.
  destruct (round_aux_rel false (a + b) ez loc_Exact (X + Y)%R Hd HR) as (m & e & R1 & R2 & R3).
  { rewrite EV. pose proof (pow2_pos ez). lra. }
  exists m, e. auto.
Qed.

(** *** Square roots *)

Lemma sqrt_rel (m : positive) (e : Z) :
  Zpos (digits2_pos m) = 24 ->
  let X := (IZR (Zpos m) * pow2 e)%R in
  (pow2 (-126) <= X <= pow2 126)%R ->
  exists m' e',
    SFsqrt 24 128 (S754_finite false m e) = S754_finite false m' e' /\
    Zpos (digits2_pos m') = 24 /\
    (Rabs (IZR (Zpos m') * pow2 e' - sqrt X) <= f32_epsilon * sqrt X)%R.
Proof.
  intros Hd X HX.
  pose proof (digits_range _ _ _ _ HX) as DR. rewrite Hd in DR.
  pose proof (normal_bounds m Hd) as NB.
  cbn [SFsqrt]. unfold SFsqrt_core_binary. cbn [Zdigits2]. rewrite Hd.
  set (k := Z.div2 (24 + e + 1)).
  assert (Hk : 2 * k <= 24 + e + 1 <= 2 * k + 1).
  { unfold k. rewrite Z.div2_div. pose proof (Z.div_mod (24 + e + 1) 2 ltac:(lia)).
    pose proof (Z.mod_pos_bound (24 + e + 1) 2 ltac:(lia)). lia. }
  assert (Hh : 2 * Z.div2 e <= e <= 2 * Z.div2 e + 1).
  { rewrite Z.div2_div. pose proof (Z.div_mod e 2 ltac:(lia)).
    pose proof (Z.mod_pos_bound e 2 ltac:(lia)). lia. }
  assert (Ee : Z.min (fexp 24 128 k) (Z.div2 e) = k - 24).
  { unfold fexp, emin. lia. }
  rewrite Ee.
  set (e' := k - 24).
  assert (Hs : e - 2 * e' = 23 \/ e - 2 * e' = 24) by lia.
  set (s := e - 2 * e') in *.
  assert (Esh : (match s with Zpos _ => Z.shiftl (Zpos m) s | 0 => Zpos m | Zneg _ => 0 end)
                = Zpos m * 2 ^ s).
  { destruct Hs as [-> | ->]; rewrite Z.shiftl_mul_pow2 by lia; reflexivity. }
  rewrite Esh.
  set (M := Zpos m * 2 ^ s) in *.
  assert (HM : 2 ^ 46 <= M < 2 ^ 48).
  { unfold M. destruct Hs as [-> | ->].
    - change (2 ^ 23) with 8388608. change (2 ^ 46) with (8388608 * 8388608).
      change (2 ^ 48) with (16777216 * 16777216). lia.
    - change (2 ^ 24) with 16777216. change (2 ^ 46) with (8388608 * 8388608).
      change (2 ^ 48) with (16777216 * 16777216). lia. }
  pose proof (Z.sqrtrem_spec M ltac:(lia)) as SP.
  destruct (Z.sqrtrem M) as [q r]. destruct SP as [SP1 SP2].
  assert (Hq : 2 ^ 23 <= q < 2 ^ 24).
  { change (2 ^ 46) with (8388608 * 8388608) in HM.
    change (2 ^ 48) with (16777216 * 16777216) in HM.
    change (2 ^ 23) with 8388608. change (2 ^ 24) with 16777216. nia. }
  destruct q as [|pq|pq]; [simpl in Hq; lia | | lia].
  assert (Hdq : Zpos (digits2_pos pq) = 24) by (apply digits_unique; exact Hq).
  (* the exact square root *)
  assert (EX : (X = IZR M * (pow2 e' * pow2 e'))%R).
  { unfold X, M. rewrite mult_IZR, <- pow2_IZR by lia. rewrite <- !pow2_add.
    rewrite Rmult_assoc, <- pow2_add. f_equal. f_equal. unfold s. lia. }
  assert (SX : (sqrt X = sqrt (IZR M) * pow2 e')%R).
  { rewrite EX. rewrite sqrt_mult_alt by (apply IZR_le; lia).
    rewrite sqrt_square by (pose proof (pow2_pos e'); lra). reflexivity. }
  assert (Q1 : (IZR (Zpos pq) <= sqrt (IZR M))%R).
  { rewrite <- (sqrt_square (IZR (Zpos pq))) by (apply IZR_le; lia).
    apply sqrt_le_1_alt. rewrite <- mult_IZR. apply IZR_le. lia. }
  assert (Q2 : (sqrt (IZR M) <= IZR (Zpos pq) + 1)%R).
  { rewrite <- (sqrt_square (IZR (Zpos pq) + 1)) by (pose proof (IZR_le 0 (Zpos pq) ltac:(lia)); lra).
    apply sqrt_le_1_alt. rewrite <- plus_IZR, <- mult_IZR. apply IZR_le. lia. }
  pose proof (pow2_pos e') as Pe.
  apply round_aux_rel.
  - lia.
  - pose proof (normal_value pq e' Hdq) as [V1 V2].
    pose proof (pow2_le (-126) (23 + e') ltac:(lia)).
    pose proof (pow2_le (24 + e') 126 ltac:(lia)). lra.
  - rewrite SX. split; nra.
Qed.

(** *** Quotients *)

Lemma div_rel (sx : bool) (mx : positive) (ex : Z) (my : positive) (ey : Z) :
  Zpos (digits2_pos mx) = 24 -> Zpos (digits2_pos my) = 24 ->
  let X := (IZR (Zpos mx) * pow2 ex)%R in
  let Y := (IZR (Zpos my) * pow2 ey)%R in
  (pow2 (-120) <= X / Y <= pow2 120)%R ->
  exists m e,
    SFdiv 24 128 (S754_finite sx mx ex) (S754_finite false my ey) = S754_finite sx m e /\
    Zpos (digits2_pos m) = 24 /\
    (Rabs (IZR (Zpos m) * pow2 e - X / Y) <= f32_epsilon * (X / Y))%R.
Proof.
  intros Hx Hy X Y HQ.
  pose proof (normal_bounds mx Hx) as NX. pose proof (normal_bounds my Hy) as NY.
  pose proof (normal_value mx ex Hx) as [VX1 VX2].
  pose proof (normal_value my ey Hy) as [VY1 VY2]. fold X in VX1, VX2. fold Y in VY1, VY2.
  pose proof (pow2_pos ey) as Pey. pose proof (pow2_pos ex) as Pex.
  assert (PY : (0 < Y)%R) by (unfold Y; apply Rmult_lt_0_compat; [apply IZR_lt; lia | exact Pey]).
  assert (PX : (0 < X)%R) by (unfold X; apply Rmult_lt_0_compat; [apply IZR_lt; lia | exact Pex]).
  (* the exponents are close *)
  assert (Hdiff : -122 <= ex - ey <= 121).
  { assert (U : (X / Y < pow2 (ex - ey + 1))%R).
    { replace (ex - ey + 1) with (24 + ex + - (23 + ey)) by lia. rewrite pow2_add.
      assert (I : (pow2 (- (23 + ey)) * pow2 (23 + ey) = 1)%R).
      { rewrite <- pow2_add. replace (- (23 + ey) + (23 + ey)) with 0 by lia. reflexivity. }
      pose proof (pow2_pos (23 + ey)). pose proof (pow2_pos (- (23 + ey))).
      pose proof (pow2_pos (24 + ex)).
      assert (1 <= pow2 (- (23 + ey)) * Y)%R by nra.
      apply Rmult_lt_reg_r with Y; [exact PY|].
      replace (X / Y * Y)%R with X by (field; lra).
      rewrite (Rmult_assoc (pow2 (24 + ex))). nra. }
    assert (L : (pow2 (ex - ey - 1) < X / Y)%R).
    { replace (ex - ey - 1) with (23 + ex + - (24 + ey)) by lia. rewrite pow2_add.
      assert (I : (pow2 (- (24 + ey)) * pow2 (24 + ey) = 1)%R).
      { rewrite <- pow2_add. replace (- (24 + ey) + (24 + ey)) with 0 by lia. reflexivity. }
      pose proof (pow2_pos (24 + ey)). pose proof (pow2_pos (- (24 + ey))).
      pose proof (pow2_pos (23 + ex)).
      assert (pow2 (- (24 + ey)) * Y < 1)%R by nra.
      apply Rmult_lt_reg_r with Y; [exact PY|].
      replace (X / Y * Y)%R with X by (field; lra).
      rewrite (Rmult_assoc (pow2 (23 + ex))). nra. }
    assert (-120 < ex - ey + 1) by (apply pow2_lt_inv; lra).
    assert (ex - ey - 1 < 120) by (apply pow2_lt_inv; lra). lia. }
  cbn [SFdiv]. unfold SFdiv_core_binary. cbn [Zdigits2]. rewrite Hx, Hy.
  replace (Z.min (fexp 24 128 (24 + ex - (24 + ey))) (ex - ey)) with (ex - ey - 24)
    by (unfold fexp, emin; lia).
  replace (ex - ey - (ex - ey - 24)) with 24 by lia.
  rewrite Z.shiftl_mul_pow2 by lia.
  set (e' := ex - ey - 24).
  set (N := Zpos mx * 2 ^ 24).
  pose proof (Z_div_mod N (Zpos my) ltac:(lia)) as DM.
  destruct (Z.div_eucl N (Zpos my)) as [q r]. destruct DM as [DM1 DM2].
  assert (Hq : 2 ^ 23 <= q).
  { unfold N in DM1. change (2 ^ 24) with 16777216 in DM1. change (2 ^ 23) with 8388608. nia. }
  destruct q as [|pq|pq]; [simpl in Hq; lia | | lia].
  rewrite xorb_false_r.
  assert (EQ : (X / Y = (IZR N / IZR (Zpos my)) * pow2 e')%R).
  { unfold X, Y, N, e'. rewrite mult_IZR.
    replace (ex - ey - 24) with (ex + (- ey + -24)) by lia. rewrite !pow2_add.
    assert (I1 : (pow2 (- ey) * pow2 ey = 1)%R).
    { rewrite <- pow2_add. replace (- ey + ey) with 0 by lia. reflexivity. }
    assert (I2 : (pow2 (-24) * IZR (2 ^ 24) = 1)%R).
    { rewrite <- pow2_IZR by lia. rewrite <- pow2_add. reflexivity. }
    assert (NZ : (IZR (Zpos my) <> 0)%R) by (apply not_0_IZR; lia).
    assert (PC : (0 < IZR (2 ^ 24))%R) by (apply IZR_lt; reflexivity).
    assert (Eb : (pow2 (- ey) = / pow2 ey)%R).
    { apply Rmult_eq_reg_r with (pow2 ey); [|lra]. rewrite I1, Rinv_l; lra. }
    assert (Ec : (pow2 (-24) = / IZR (2 ^ 24))%R).
    { apply Rmult_eq_reg_r with (IZR (2 ^ 24)); [|lra]. rewrite I2, Rinv_l; lra. }
    rewrite Eb, Ec. field. repeat split; lra. }
  assert (PM : (0 < IZR (Zpos my))%R) by (apply IZR_lt; lia).
  assert (Q1 : (IZR (Zpos pq) <= IZR N / IZR (Zpos my))%R).
  { apply Rmult_le_reg_r with (IZR (Zpos my)); [exact PM|].
    unfold Rdiv. rewrite Rmult_assoc, Rinv_l, Rmult_1_r by lra.
    rewrite <- mult_IZR. apply IZR_le. lia. }
  assert (Q2 : (IZR N / IZR (Zpos my) <= IZR (Zpos pq) + 1)%R).
  { apply Rmult_le_reg_r with (IZR (Zpos my)); [exact PM|].
    unfold Rdiv. rewrite Rmult_assoc, Rinv_l, Rmult_1_r by lra.
    rewrite <- plus_IZR, <- mult_IZR. apply IZR_le. lia. }
  pose proof (pow2_pos e') as Pe.
  apply round_aux_rel.
  - apply digits_ge. exact Hq.
  - split.
    + pose proof (pow2_le (-126) (23 + e') ltac:(unfold e'; lia)) as G.
      rewrite pow2_add in G. rewrite (pow2_IZR 23) in G by lia.
      apply IZR_le in Hq. nra.
    + pose proof (pow2_le 120 126 ltac:(lia)). nra.
  - rewrite EQ. split; nra.
Qed.

End FloatRounding.

(** *** The norm of a row *)

Section FloatError.

Local Open Scope R_scope.

Lemma Rabs_le_inv (a b : R) : Rabs a <= b -> - b <= a <= b.
Proof. unfold Rabs. destruct (Rcase_abs a); lra. Qed.

Lemma f32_epsilon_pos : 0 < f32_epsilon.
Proof. unfold f32_epsilon. lra. Qed.

Lemma f32_epsilon_small : f32_epsilon <= / 8388608.
Proof. unfold f32_epsilon. lra. Qed.

(** Powers of [1 + eps] and [1 - eps]: the error factors of [k] roundings. *)
Lemma up_pow_ge_1 (k : nat) : 1 <= (1 + f32_epsilon) ^ k.
Proof. pose proof f32_epsilon_pos. induction k; simpl; nra. Qed.

Lemma up_pow_ge (k : nat) : (1 <= k)%nat -> 1 + f32_epsilon <= (1 + f32_epsilon) ^ k.
Proof.
  intros H. destruct k; [lia|]. simpl. pose proof (up_pow_ge_1 k). pose proof f32_epsilon_pos. nra.
Qed.

Lemma down_pow_range (k : nat) : 0 < (1 - f32_epsilon) ^ k <= 1.
Proof. pose proof f32_epsilon_pos. pose proof f32_epsilon_small. induction k; simpl; [lra | nra]. Qed.

Lemma down_pow_le (k : nat) : (1 <= k)%nat -> (1 - f32_epsilon) ^ k <= 1 - f32_epsilon.
Proof.
  intros H. destruct k; [lia|]. simpl. pose proof (down_pow_range k). pose proof f32_epsilon_pos.
  pose proof f32_epsilon_small. nra.
Qed.

Lemma down_pow_lower (k : nat) : 1 - INR k * f32_epsilon <= (1 - f32_epsilon) ^ k.
Proof.
  pose proof f32_epsilon_pos. pose proof f32_epsilon_small.
  induction k; [simpl; lra|]. rewrite S_INR. simpl pow.
  pose proof (pos_INR k). pose proof (down_pow_range k). nra.
Qed.

Lemma up_pow_upper (k : nat) : INR k * f32_epsilon <= / 2 -> (1 + f32_epsilon) ^ k <= 1 + 2 * INR k * f32_epsilon.
Proof.
  pose proof f32_epsilon_pos. pose proof f32_epsilon_small.
  induction k; intros Hk; [simpl; lra|]. rewrite S_INR in *. simpl pow.
  pose proof (pos_INR k). assert (IH : (1 + f32_epsilon) ^ k <= 1 + 2 * INR k * f32_epsilon) by (apply IHk; nra).
  pose proof (up_pow_ge_1 k). nra.
Qed.

Lemma INR_le_Z (k : nat) (z : Z) : (Z.of_nat k <= z)%Z -> INR k <= IZR z.
Proof. intros H. rewrite INR_IZR_INZ. now apply IZR_le. Qed.

(** The value of a square. *)
Lemma F2R_sq (s : bool) (m : positive) (e : Z) :
  F2R (S754_finite s m e) * F2R (S754_finite s m e)
  = (IZR (Zpos m) * pow2 e) * (IZR (Zpos m) * pow2 e).
Proof. simpl. destruct s; ring. Qed.

Lemma in_range_finite (s : bool) (m : positive) (e : Z) :
  in_range (S754_finite s m e) = true ->
  Zpos (digits2_pos m) = 24%Z /\ pow2 (-50) <= IZR (Zpos m) * pow2 e <= pow2 50.
Proof.
  unfold in_range. intros H. apply andb_true_iff in H. destruct H as [H H3].
  apply andb_true_iff in H. destruct H as [H1 H2].
  apply Z.eqb_eq in H1. apply Z.leb_le in H2, H3. split; [exact H1|].
  pose proof (normal_value m e H1) as [V1 V2].
  pose proof (pow2_le (-50) (23 + e) ltac:(lia)).
  pose proof (pow2_le (24 + e) 50 ltac:(lia)). lra.
Qed.

Lemma sq_bounds (X : R) :
  pow2 (-50) <= X <= pow2 50 -> pow2 (-100) <= X * X <= pow2 100.
Proof.
  intros [H1 H2]. pose proof (pow2_pos (-50)). pose proof (pow2_pos 50).
  change (-100)%Z with (-50 + -50)%Z. change 100%Z with (50 + 50)%Z.
  rewrite !pow2_add. split; nra.
Qed.

(** One step of the dot product keeps the invariant [acc_ok]. *)
Lemma dot_step (acc : f32) (S : R) (k : nat) (x : f32) :
  in_range x = true -> (Z.of_nat k < 131072)%Z ->
  acc_ok acc S k ->
  acc_ok (f32_add acc (f32_mul x x)) (S + F2R x * F2R x) (Datatypes.S k).
Proof.
  intros Hx Hk Hacc.
  pose proof f32_epsilon_pos as U0. pose proof f32_epsilon_small as U1.
  pose proof (pow2_pos (-100)) as Plo. pose proof (pow2_pos 100) as Phi.
  pose proof (pos_INR k) as Ik.
  destruct x as [sx| | |sx mx ex]; try discriminate.
  - (* a zero component *)
    replace (f32_mul (S754_zero sx) (S754_zero sx)) with (S754_zero false)
      by (now destruct sx).
    simpl F2R. rewrite Rmult_0_l, Rplus_0_r.
    destruct Hacc as [[-> ->]|(m & e & -> & Hd & Hk1 & HS & HA)].
    + left. split; reflexivity.
    + right. exists m, e. split; [reflexivity|]. split; [exact Hd|]. split; [lia|].
      rewrite S_INR. simpl pow. pose proof (down_pow_range k). pose proof (up_pow_ge_1 k).
      assert (0 <= S * (1 - f32_epsilon) ^ k) by nra.
      assert (0 <= S * (1 + f32_epsilon) ^ k) by nra.
      split; [split; nra|]. split; nra.
  - (* a finite component *)
    destruct (in_range_finite sx mx ex Hx) as [Hd HX].
    rewrite F2R_sq. set (X := IZR (Zpos mx) * pow2 ex) in *.
    pose proof (sq_bounds X HX) as HXX.
    destruct (sq_rel sx mx ex Hd) as (mq & eq & Eq & Hdq & Hq).
    { fold X. pose proof (pow2_le (-126) (-100) ltac:(lia)).
      pose proof (pow2_le 100 126 ltac:(lia)). lra. }
    fold X in Hq. unfold f32_mul. rewrite Eq.
    set (Q := IZR (Zpos mq) * pow2 eq) in *.
    apply Rabs_le_inv in Hq.
    destruct Hacc as [[-> ->]|(m & e & -> & Hda & Hk1 & HS & HA)].
    + (* first non-zero component *)
      right. exists mq, eq. split; [reflexivity|]. split; [exact Hdq|]. split; [lia|].
      rewrite S_INR, Rplus_0_l. split; [split; nra|].
      pose proof (down_pow_le (Datatypes.S k) ltac:(lia)). pose proof (up_pow_ge (Datatypes.S k) ltac:(lia)).
      fold Q. split; nra.
    + set (A := IZR (Zpos m) * pow2 e) in *.
      pose proof (down_pow_range k) as Mk. pose proof (up_pow_ge_1 k) as Pk1.
      pose proof (down_pow_le k Hk1) as Mk1. pose proof (up_pow_ge k Hk1) as Pk.
      assert (Pk2 : (1 + f32_epsilon) ^ k <= 2).
      { assert (INR k <= 131072) by (apply (INR_le_Z k 131072); lia).
        pose proof (up_pow_upper k ltac:(nra)). nra. }
      assert (IkU : INR k <= 131072) by (apply (INR_le_Z k 131072); lia).
      destruct (add_rel m e mq eq Hda Hdq) as (mr & er & Er & Hdr & Hr).
      { fold A Q. pose proof (pow2_le (-126) (-101) ltac:(lia)).
        assert (E1 : pow2 (-100) = pow2 (-101) * 2).
        { change (-100)%Z with (-101 + 1)%Z. rewrite pow2_add. change (pow2 1) with (2 * 1). ring. }
        pose proof (pow2_pos (-101)).
        assert (pow2 100 * 262146 <= pow2 126).
        { replace 126%Z with (100 + 26)%Z by lia. rewrite pow2_add.
          rewrite (pow2_IZR 26) by lia. change (IZR (2 ^ 26)) with 67108864. nra. }
        assert (0 <= S * (1 - f32_epsilon) ^ k) by nra.
        assert (S * (1 + f32_epsilon) ^ k <= 2 * (INR k * pow2 100)) by nra.
        assert (INR k * pow2 100 <= 131072 * pow2 100) by nra.
        split; nra. }
      fold A Q in Hr. apply Rabs_le_inv in Hr.
      unfold f32_add. rewrite Er.
      right. exists mr, er. split; [reflexivity|]. split; [exact Hdr|]. split; [lia|].
      rewrite S_INR. split; [split; nra|]. simpl pow.
      set (R := IZR (Zpos mr) * pow2 er) in *.
      set (Pw := (1 + f32_epsilon) ^ k) in *. set (Mw := (1 - f32_epsilon) ^ k) in *.
      split.
      * apply Rle_trans with ((A + Q) * (1 - f32_epsilon)); [|lra].
        apply Rle_trans with ((S * Mw + X * X * Mw) * (1 - f32_epsilon)); [nra|].
        apply Rmult_le_compat_r; [lra|]. nra.
      * apply Rle_trans with ((A + Q) * (1 + f32_epsilon)); [lra|].
        apply Rle_trans with ((S * Pw + X * X * Pw) * (1 + f32_epsilon)); [|nra].
        apply Rmult_le_compat_r; [lra|]. nra.
Qed.

(** The dot product of a row with itself, from any accumulator. *)
Lemma dot_loop (v : list f32) : forall (acc : f32) (S : R) (k : nat),
  forallb in_range v = true ->
  (Z.of_nat k + Z.of_nat (length v) <= 131072)%Z ->
  acc_ok acc S k ->
  acc_ok (fold_left (fun acc p => f32_add acc (f32_mul (fst p) (snd p))) (combine v v) acc)
    (S + sum_sq v) (k + length v).
Proof.
  induction v as [|x v IH]; intros acc S k Hv Hk Hacc.
  - simpl. rewrite Rplus_0_r, Nat.add_0_r. exact Hacc.
  - simpl in Hv. apply andb_true_iff in Hv. destruct Hv as [Hx Hv].
    cbn [length] in *. cbn [combine fold_left fst snd sum_sq fold_right].
    replace (S + (F2R x * F2R x + fold_right (fun x a => F2R x * F2R x + a) 0 v))
      with ((S + F2R x * F2R x) + sum_sq v) by (unfold sum_sq; ring).
    replace (k + Datatypes.S (length v))%nat with (Datatypes.S k + length v)%nat by lia.
    apply IH; [exact Hv | lia |]. apply dot_step; [exact Hx | lia | exact Hacc].
Qed.

Lemma sum_sq_nonneg (v : list f32) : 0 <= sum_sq v.
Proof.
  induction v as [|x v IH]; simpl; [lra|]. fold (sum_sq v). nra.
Qed.

Lemma sum_sq_sizable (v : list f32) :
  existsb sizable v = true -> pow2 (-40) <= sum_sq v.
Proof.
  induction v as [|x v IH]; cbn [existsb sum_sq fold_right]; [discriminate|]. fold (sum_sq v).
  intros H. apply orb_true_iff in H. destruct H as [H|H].
  - pose proof (sum_sq_nonneg v).
    destruct x as [| | |s m e]; try discriminate.
    unfold sizable in H. apply andb_true_iff in H. destruct H as [H1 H2].
    apply Z.eqb_eq in H1. apply Z.leb_le in H2.
    rewrite F2R_sq. pose proof (normal_value m e H1) as [V1 _].
    pose proof (pow2_le (-20) (23 + e) ltac:(lia)).
    pose proof (pow2_pos (-20)). change (-40)%Z with (-20 + -20)%Z. rewrite pow2_add. nra.
  - specialize (IH H). nra.
Qed.

Lemma sqrt_ge_self (t : R) : 0 <= t <= 1 -> t <= sqrt t.
Proof.
  intros H. rewrite <- (sqrt_square t) at 1 by lra. apply sqrt_le_1_alt. nra.
Qed.

Lemma sqrt_le_self (t : R) : 1 <= t -> sqrt t <= t.
Proof.
  intros H. rewrite <- (sqrt_square t) at 2 by lra. apply sqrt_le_1_alt. nra.
Qed.

(** The rows: every component divided by a normal number [d]. *)
Lemma row_sum (md : positive) (ed : Z) (v : list f32) :
  Zpos (digits2_pos md) = 24%Z ->
  let D := IZR (Zpos md) * pow2 ed in
  pow2 (-30) <= D <= pow2 70 ->
  forallb in_range v = true ->
  (1 - f32_epsilon) * (1 - f32_epsilon) * sum_sq v
  <= D * D * sum_sq (map (fun x => f32_div x (S754_finite false md ed)) v)
  <= (1 + f32_epsilon) * (1 + f32_epsilon) * sum_sq v.
Proof.
  intros Hd D HD. pose proof f32_epsilon_pos as U0. pose proof f32_epsilon_small as U1.
  pose proof (pow2_pos (-30)) as P30.
  induction v as [|x v IH]; intros Hv.
  - simpl. lra.
  - simpl in Hv. apply andb_true_iff in Hv. destruct Hv as [Hx Hv].
    specialize (IH Hv). cbn [map sum_sq fold_right].
    fold (sum_sq v). fold (sum_sq (map (fun x => f32_div x (S754_finite false md ed)) v)).
    set (T := sum_sq (map (fun x => f32_div x (S754_finite false md ed)) v)) in *.
    destruct x as [sx| | |sx mx ex]; try discriminate.
    + (* zero *)
      cbn [f32_div SFdiv F2R]. lra.
    + destruct (in_range_finite sx mx ex Hx) as [Hdx HX].
      set (X := IZR (Zpos mx) * pow2 ex) in *.
      assert (PX : 0 < X) by (pose proof (pow2_pos (-50)); lra).
      assert (PD : 0 < D) by lra.
      destruct (div_rel sx mx ex md ed Hdx Hd) as (my & ey & Ey & Hdy & Hy).
      { fold X D.
        assert (L : pow2 (-120) <= X / D).
        { apply Rmult_le_reg_r with D; [exact PD|].
          replace (X / D * D) with X by (field; lra).
          assert (I : pow2 (-120) * pow2 70 = pow2 (-50)) by (rewrite <- pow2_add; reflexivity).
          pose proof (pow2_pos (-120)). nra. }
        assert (H : X / D <= pow2 120).
        { apply Rmult_le_reg_r with D; [exact PD|].
          replace (X / D * D) with X by (field; lra).
          apply Rle_trans with (pow2 50); [lra|].
          apply Rle_trans with (pow2 120 * pow2 (-30)); [|pose proof (pow2_pos 120); nra].
          rewrite <- pow2_add. apply pow2_le. lia. }
        split; assumption. }
      fold X D in Hy. unfold f32_div. rewrite Ey.
      set (Y := IZR (Zpos my) * pow2 ey) in *.
      apply Rabs_le_inv in Hy.
      assert (HYD : X * (1 - f32_epsilon) <= Y * D <= X * (1 + f32_epsilon)).
      { set (q := X / D) in *.
        assert (E : q * D = X) by (unfold q; field; lra).
        assert (L1 : (q - f32_epsilon * q) * D <= Y * D) by (apply Rmult_le_compat_r; lra).
        assert (L2 : Y * D <= (q + f32_epsilon * q) * D) by (apply Rmult_le_compat_r; lra).
        replace ((q - f32_epsilon * q) * D) with (X * (1 - f32_epsilon)) in L1 by (rewrite <- E; ring).
        replace ((q + f32_epsilon * q) * D) with (X * (1 + f32_epsilon)) in L2 by (rewrite <- E; ring).
        split; assumption. }
      rewrite !F2R_sq. fold X Y.
      assert (PA : 0 <= X * (1 - f32_epsilon)) by (apply Rmult_le_pos; lra).
      assert (S1 : (X * (1 - f32_epsilon)) * (X * (1 - f32_epsilon)) <= (Y * D) * (Y * D))
        by (apply Rmult_le_compat; lra).
      assert (S2 : (Y * D) * (Y * D) <= (X * (1 + f32_epsilon)) * (X * (1 + f32_epsilon)))
        by (apply Rmult_le_compat; lra).
      split; nra.
Qed.

Lemma sq_le_inv (x y : R) : 0 <= x -> 0 <= y -> x * x <= y * y -> x <= y.
Proof. intros Hx Hy H. destruct (Rle_lt_dec x y) as [L|L]; [exact L|]. nra. Qed.

Lemma poly_upper (a : R) :
  0 <= a <= / 128 ->
  1 + f32_epsilon <= (1 + (2 * a + 40 * f32_epsilon)) * ((1 - a) * (1 - f32_epsilon) * (1 - f32_epsilon)).
Proof.
  intros Ha. pose proof f32_epsilon_pos. pose proof f32_epsilon_small.
  assert (E1 : 1 - 2 * f32_epsilon <= (1 - f32_epsilon) * (1 - f32_epsilon)) by nra.
  assert (E2 : 1 - a - 2 * f32_epsilon <= (1 - a) * ((1 - f32_epsilon) * (1 - f32_epsilon))) by nra.
  assert (E3 : 1 + f32_epsilon <= (1 + (2 * a + 40 * f32_epsilon)) * (1 - a - 2 * f32_epsilon)) by nra.
  rewrite (Rmult_assoc (1 - a)).
  apply Rle_trans with ((1 + (2 * a + 40 * f32_epsilon)) * (1 - a - 2 * f32_epsilon)); [exact E3|].
  apply Rmult_le_compat_l; lra.
Qed.

Lemma poly_lower (a : R) :
  0 <= a <= / 128 ->
  (1 - (2 * a + 40 * f32_epsilon)) * (((1 + 2 * a) * (1 + f32_epsilon) + 16 * f32_epsilon) * (1 + f32_epsilon)) <= 1 - f32_epsilon.
Proof.
  intros Ha. pose proof f32_epsilon_pos. pose proof f32_epsilon_small.
  assert (E1 : ((1 + 2 * a) * (1 + f32_epsilon) + 16 * f32_epsilon) * (1 + f32_epsilon) <= 1 + 2 * a + 19 * f32_epsilon) by nra.
  assert (E0 : 0 <= 1 - (2 * a + 40 * f32_epsilon)) by lra.
  apply Rle_trans with ((1 - (2 * a + 40 * f32_epsilon)) * (1 + 2 * a + 19 * f32_epsilon)).
  - apply Rmult_le_compat_l; lra.
  - nra.
Qed.

(** From bounds on the denominator and on the squares of the row to the
    distance of its norm from 1. *)
Lemma final_bound (N D T a : R) :
  0 < N -> 0 <= a <= / 128 -> 0 <= T ->
  N * ((1 - a) * (1 - f32_epsilon) * (1 - f32_epsilon)) <= D ->
  D <= N * (((1 + 2 * a) * (1 + f32_epsilon) + 16 * f32_epsilon) * (1 + f32_epsilon)) ->
  (1 - f32_epsilon) * (1 - f32_epsilon) * (N * N) <= D * D * T <= (1 + f32_epsilon) * (1 + f32_epsilon) * (N * N) ->
  Rabs (sqrt T - 1) <= 2 * a + 40 * f32_epsilon.
Proof.
  intros HN Ha HT HD1 HD2 [HT1 HT2].
  pose proof f32_epsilon_pos as U0. pose proof f32_epsilon_small as U1.
  set (y := sqrt T). assert (Hy : 0 <= y) by apply sqrt_pos.
  assert (Ey : y * y = T) by (apply sqrt_sqrt; exact HT).
  set (lo := (1 - a) * (1 - f32_epsilon) * (1 - f32_epsilon)) in *.
  set (hi := ((1 + 2 * a) * (1 + f32_epsilon) + 16 * f32_epsilon) * (1 + f32_epsilon)) in *.
  assert (Hlo : 0 < lo) by (unfold lo; apply Rmult_lt_0_compat; [apply Rmult_lt_0_compat|]; lra).
  assert (PD : 0 < D) by nra.
  assert (B1 : (1 - f32_epsilon) * N <= D * y).
  { apply sq_le_inv; [nra | nra |]. rewrite <- Ey in HT1. nra. }
  assert (B2 : D * y <= (1 + f32_epsilon) * N).
  { apply sq_le_inv; [nra | nra |]. rewrite <- Ey in HT2. nra. }
  assert (C1 : y * lo <= 1 + f32_epsilon).
  { apply Rmult_le_reg_l with N; [exact HN|].
    apply Rle_trans with (D * y); [|lra].
    replace (N * (y * lo)) with ((N * lo) * y) by ring.
    apply Rmult_le_compat_r; lra. }
  assert (C2 : 1 - f32_epsilon <= y * hi).
  { apply Rmult_le_reg_l with N; [exact HN|].
    apply Rle_trans with (D * y); [lra|].
    replace (N * (y * hi)) with ((N * hi) * y) by ring.
    apply Rmult_le_compat_r; lra. }
  pose proof (poly_upper a Ha) as PU. fold lo in PU.
  pose proof (poly_lower a Ha) as PL. fold hi in PL.
  assert (Hhi : 0 < hi) by (unfold hi; nra).
  apply Rabs_le. split.
  - destruct (Rle_lt_dec (1 - (2 * a + 40 * f32_epsilon)) y) as [L|L]; [lra|].
    assert (y * hi < (1 - (2 * a + 40 * f32_epsilon)) * hi) by (apply Rmult_lt_compat_r; lra). lra.
  - destruct (Rle_lt_dec y (1 + (2 * a + 40 * f32_epsilon))) as [L|L]; [lra|].
    assert ((1 + (2 * a + 40 * f32_epsilon)) * lo < y * lo) by (apply Rmult_lt_compat_r; lra). lra.
Qed.

Lemma pow2_1 : pow2 1 = 2.
Proof. unfold pow2. simpl. lra. Qed.

Lemma pow2_2 : pow2 2 = 4.
Proof. unfold pow2. simpl. lra. Qed.

Lemma sqrt_pow2_sq (a : Z) : sqrt (pow2 (a + a)) = pow2 a.
Proof. rewrite pow2_add. apply sqrt_square. pose proof (pow2_pos a). lra. Qed.

(** Line 134 on a row in range with a sizable component: the Euclidean
    norm of the result is within [(2 n + 40) * 2^-23] of 1. *)
Lemma l2_normalize32_unit (v : list f32) :
  forallb in_range v = true ->
  existsb sizable v = true ->
  (Z.of_nat (length v) <= 65536)%Z ->
  Rabs (euclid_norm (l2_normalize32 v) - 1) <= (2 * INR (length v) + 40) * f32_epsilon.
Proof.
  intros Hv Hs Hn.
  pose proof f32_epsilon_pos as U0. pose proof f32_epsilon_small as U1.
  set (n := length v) in *. set (S := sum_sq v).
  assert (Hacc : acc_ok (dot32 v v) S n).
  { pose proof (dot_loop v (S754_zero false) 0 0%nat Hv ltac:(simpl; lia)
                  (or_introl (conj eq_refl eq_refl))) as H.
    rewrite Rplus_0_l in H. exact H. }
  pose proof (sum_sq_sizable v Hs) as HS40. fold S in HS40.
  pose proof (pow2_pos (-40)) as P40.
  destruct Hacc as [[_ H0]|(m & e & Edot & Hd & Hn1 & [HS1 HS2] & [HA1 HA2])]; [lra|].
  set (A := IZR (Zpos m) * pow2 e) in *.
  (* the count *)
  assert (In : INR n <= 65536) by (apply (INR_le_Z n 65536); exact Hn).
  pose proof (pos_INR n) as In0.
  set (a := INR n * f32_epsilon).
  assert (Ha : 0 <= a <= / 128) by (unfold a; split; nra).
  pose proof (down_pow_lower n) as ML. pose proof (up_pow_upper n ltac:(fold a; lra)) as PUp.
  pose proof (down_pow_range n) as MR. pose proof (up_pow_ge_1 n) as P1.
  fold a in ML. replace (2 * INR n * f32_epsilon) with (2 * a) in PUp by (unfold a; ring).
  set (Mn := (1 - f32_epsilon) ^ n) in *. set (Pn := (1 + f32_epsilon) ^ n) in *.
  (* the norm of the reply *)
  set (N := sqrt S).
  assert (PS : 0 < S) by lra.
  assert (NN : N * N = S) by (apply sqrt_sqrt; lra).
  assert (N20 : pow2 (-20) <= N).
  { unfold N. rewrite <- (sqrt_pow2_sq (-20)). apply sqrt_le_1_alt. exact HS40. }
  assert (S116 : S <= pow2 116).
  { apply Rle_trans with (INR n * pow2 100); [exact HS2|].
    change 116%Z with (16 + 100)%Z. rewrite pow2_add, (pow2_IZR 16) by lia.
    change (IZR (2 ^ 16)) with 65536. pose proof (pow2_pos 100). nra. }
  assert (N58 : N <= pow2 58).
  { unfold N. rewrite <- (sqrt_pow2_sq 58). apply sqrt_le_1_alt. exact S116. }
  pose proof (pow2_pos (-20)) as P20. assert (PN : 0 < N) by lra.
  (* the square root *)
  assert (SA1 : N * Mn <= sqrt A).
  { apply Rle_trans with (sqrt (S * Mn)).
    - rewrite sqrt_mult_alt by lra. fold N. apply Rmult_le_compat_l; [lra|].
      apply sqrt_ge_self. lra.
    - apply sqrt_le_1_alt. exact HA1. }
  assert (SA2 : sqrt A <= N * Pn).
  { apply Rle_trans with (sqrt (S * Pn)).
    - apply sqrt_le_1_alt. exact HA2.
    - rewrite sqrt_mult_alt by lra. fold N. apply Rmult_le_compat_l; [lra|].
      apply sqrt_le_self. exact P1. }
  assert (RA : pow2 (-126) <= A <= pow2 126).
  { pose proof (pow2_le (-126) (-101) ltac:(lia)).
    assert (E1 : pow2 (-100) = pow2 (-101) * 2).
    { change (-100)%Z with (-101 + 1)%Z. rewrite pow2_add. change (pow2 1) with (2 * 1). ring. }
    pose proof (pow2_pos (-101)).
    assert (pow2 116 * 2 <= pow2 126).
    { rewrite <- pow2_1, <- pow2_add. apply pow2_le. lia. }
    assert (S * Pn <= S * 2) by (apply Rmult_le_compat_l; lra).
    assert (S * / 2 <= S * Mn) by (apply Rmult_le_compat_l; lra).
    split; lra. }
  destruct (sqrt_rel m e Hd RA) as (mn & en & Esq & Hdn & Hsq).
  fold A in Hsq. apply Rabs_le_inv in Hsq.
  set (Nh := IZR (Zpos mn) * pow2 en) in *.
  assert (SQ0 : 0 <= sqrt A) by apply sqrt_pos.
  assert (NH1 : N * (Mn * (1 - f32_epsilon)) <= Nh).
  { apply Rle_trans with (sqrt A * (1 - f32_epsilon)); [|lra].
    rewrite <- Rmult_assoc. apply Rmult_le_compat_r; lra. }
  assert (NH2 : Nh <= N * (Pn * (1 + f32_epsilon))).
  { apply Rle_trans with (sqrt A * (1 + f32_epsilon)); [lra|].
    rewrite <- Rmult_assoc. apply Rmult_le_compat_r; lra. }
  (* the epsilon *)
  set (E := IZR (Zpos 9223372) * pow2 (-63)).
  assert (HE : 0 < E <= pow2 (-19) * N).
  { assert (E39 : E <= pow2 (-39)).
    { unfold E. change (-39)%Z with (24 + -63)%Z. rewrite pow2_add, (pow2_IZR 24) by lia.
      change (IZR (2 ^ 24)) with 16777216. pose proof (pow2_pos (-63)). nra. }
    assert (pow2 (-39) = pow2 (-19) * pow2 (-20)) by (rewrite <- pow2_add; reflexivity).
    pose proof (pow2_pos (-19)). split; [unfold E; pose proof (pow2_pos (-63)); nra | nra]. }
  assert (E19 : pow2 (-19) = 16 * f32_epsilon).
  { unfold f32_epsilon. unfold pow2. simpl. lra. }
  (* the denominator *)
  assert (MnL : / 2 <= Mn * (1 - f32_epsilon)) by nra.
  assert (PnU : Pn * (1 + f32_epsilon) <= 2) by nra.
  assert (RD : pow2 (-126) <= Nh + E <= pow2 126).
  { pose proof (pow2_le (-126) (-21) ltac:(lia)).
    assert (pow2 (-20) = pow2 (-21) * 2).
    { change (-20)%Z with (-21 + 1)%Z. rewrite pow2_add. change (pow2 1) with (2 * 1). ring. }
    pose proof (pow2_pos (-21)).
    assert (pow2 58 * 4 <= pow2 126).
    { rewrite <- pow2_2, <- pow2_add. apply pow2_le. lia. }
    assert (N * / 2 <= N * (Mn * (1 - f32_epsilon))) by (apply Rmult_le_compat_l; lra).
    assert (N * (Pn * (1 + f32_epsilon)) <= N * 2) by (apply Rmult_le_compat_l; lra).
    assert (pow2 (-19) * N <= N) by nra.
    split; nra. }
  destruct (add_rel mn en 9223372 (-63) Hdn eq_refl RD) as (md & ed & Ead & Hdd & Had).
  fold Nh E in Had. apply Rabs_le_inv in Had.
  set (D := IZR (Zpos md) * pow2 ed) in *.
  assert (D1 : N * ((1 - a) * (1 - f32_epsilon) * (1 - f32_epsilon)) <= D).
  { apply Rle_trans with ((Nh + E) * (1 - f32_epsilon)); [|lra].
    apply Rle_trans with (N * (Mn * (1 - f32_epsilon)) * (1 - f32_epsilon)).
    - replace (N * ((1 - a) * (1 - f32_epsilon) * (1 - f32_epsilon))) with (N * ((1 - a) * (1 - f32_epsilon)) * (1 - f32_epsilon)) by ring.
      apply Rmult_le_compat_r; [lra|]. apply Rmult_le_compat_l; [lra|].
      apply Rmult_le_compat_r; lra.
    - apply Rmult_le_compat_r; lra. }
  assert (D2 : D <= N * (((1 + 2 * a) * (1 + f32_epsilon) + 16 * f32_epsilon) * (1 + f32_epsilon))).
  { apply Rle_trans with ((Nh + E) * (1 + f32_epsilon)); [lra|].
    replace (N * (((1 + 2 * a) * (1 + f32_epsilon) + 16 * f32_epsilon) * (1 + f32_epsilon)))
      with ((N * ((1 + 2 * a) * (1 + f32_epsilon)) + 16 * f32_epsilon * N) * (1 + f32_epsilon)) by ring.
    apply Rmult_le_compat_r; [lra|].
    apply Rplus_le_compat; [|rewrite <- E19; lra].
    apply Rle_trans with (N * (Pn * (1 + f32_epsilon))); [exact NH2|].
    apply Rmult_le_compat_l; [lra|]. apply Rmult_le_compat_r; lra. }
  assert (RDD : pow2 (-30) <= D <= pow2 70).
  { pose proof (pow2_le (-30) (-22) ltac:(lia)).
    assert (pow2 (-20) = pow2 (-22) * 4).
    { change (-20)%Z with (-22 + 2)%Z. rewrite pow2_add. change (pow2 2) with (2 * (2 * 1)). ring. }
    pose proof (pow2_pos (-22)).
    assert (pow2 58 * 4 <= pow2 70).
    { rewrite <- pow2_2, <- pow2_add. apply pow2_le. lia. }
    assert (Hlo : / 4 <= (1 - a) * (1 - f32_epsilon) * (1 - f32_epsilon)) by nra.
    assert (Hhi : ((1 + 2 * a) * (1 + f32_epsilon) + 16 * f32_epsilon) * (1 + f32_epsilon) <= 4) by nra.
    assert (N * / 4 <= N * ((1 - a) * (1 - f32_epsilon) * (1 - f32_epsilon))) by (apply Rmult_le_compat_l; lra).
    assert (N * (((1 + 2 * a) * (1 + f32_epsilon) + 16 * f32_epsilon) * (1 + f32_epsilon)) <= N * 4)
      by (apply Rmult_le_compat_l; lra).
    split; nra. }
  (* the row *)
  assert (Erow : l2_normalize32 v = map (fun x => f32_div x (S754_finite false md ed)) v).
  { unfold l2_normalize32, linalg_norm. rewrite Edot. unfold f32_sqrt. rewrite Esq.
    rewrite eps32_value. unfold f32_add. rewrite Ead. reflexivity. }
  rewrite Erow.
  pose proof (row_sum md ed v Hdd RDD Hv) as RS. fold D S in RS. rewrite <- NN in RS.
  replace ((2 * INR n + 40) * f32_epsilon) with (2 * a + 40 * f32_epsilon) by (unfold a; ring).
  apply (final_bound N D _ a PN Ha (sum_sq_nonneg _) D1 D2 RS).
Qed.

Lemma sum_sq_zeros (v : list f32) : all_zero v = true -> sum_sq v = 0.
Proof.
  induction v as [|x v IH]; intros Hz; [reflexivity|].
  cbn [all_zero forallb] in Hz. apply andb_true_iff in Hz. destruct Hz as [Hx Hv].
  destruct x as [sx| | |]; try discriminate.
  cbn [sum_sq fold_right F2R]. fold (sum_sq v). rewrite (IH Hv). ring.
Qed.

Lemma euclid_norm_zeros (v : list f32) : all_zero v = true -> euclid_norm v = 0.
Proof. intros Hz. unfold euclid_norm. rewrite (sum_sq_zeros v Hz). apply sqrt_0. Qed.

Lemma euclid_norm_zero_row : euclid_norm [S754_zero false; S754_zero false] = 0.
Proof. apply euclid_norm_zeros. reflexivity. Qed.

Lemma euclid_norm_half_row : euclid_norm [f32_of_Z 1 (-1); S754_zero false] = / 2.
Proof.
  unfold euclid_norm.
  replace (sum_sq [f32_of_Z 1 (-1); S754_zero false]) with (/ 2 * / 2).
  - apply sqrt_square. lra.
  - change (f32_of_Z 1 (-1)) with (S754_finite false 8388608 (-24)).
    cbn [sum_sq fold_right F2R].
    assert (E : IZR (Zpos 8388608) * pow2 (-24) = / 2).
    { assert (P : pow2 (-24) * IZR (2 ^ 24) = 1).
      { rewrite <- (pow2_IZR 24) by lia. rewrite <- pow2_add. reflexivity. }
      change (IZR (2 ^ 24)) with 16777216 in P. lra. }
    rewrite Rmult_1_l, E. ring.
Qed.

End FloatError.

(** C8, the original claim fails: on a machine whose embeddings service
    answers "big" with [1e30, 1e30] and "small" with [1e-12, 0.0], neither
    of them an all-zero vector, the embedding client returns the rows
    [0, 0] and [0.5, 0], whose Euclidean norms are 0 and 0.5 (also when
    the norm is computed by [np.linalg.norm] in [float32]). *)
Lemma embed_norm_not_unit :
  all_zero (asarray32 big_raw) = false /\
  all_zero (asarray32 small_raw) = false /\
  exists s',
    embed (float_env sample_replies) sample_cfg [lit "big"; lit "small"] float_state
    = Ret [[S754_zero false; S754_zero false]; [f32_of_Z 1 (-1); S754_zero false]] s' /\
    euclid_norm [S754_zero false; S754_zero false] = 0%R /\
    euclid_norm [f32_of_Z 1 (-1); S754_zero false] = (/ 2)%R /\
    linalg_norm [S754_zero false; S754_zero false] = S754_zero false /\
    linalg_norm [f32_of_Z 1 (-1); S754_zero false] = f32_of_Z 1 (-1) /\
    near_one (S754_zero false) = false /\
    near_one (f32_of_Z 1 (-1)) = false.
Proof.
  split; [reflexivity|]. split; [reflexivity|].
  eexists. split; [vm_compute; reflexivity|].
  split; [exact euclid_norm_zero_row|]. split; [exact euclid_norm_half_row|].
  vm_compute. repeat split.
Qed.

(** C8 (amended): for every batch of input texts the vectors returned by
    the embedding client are in the same order as the input texts, one per
    text (the empty batch raises [ValueError] and returns nothing).  Each
    returned vector is the reply read as a [float32] array [v] with every
    component divided, in [float32], by [np.linalg.norm(v) + 1e-12]; it has
    as many components as the reply.  Its Euclidean norm is within
    [(2 n + 40) * 2^-23] of 1.0, [n] being the number of components,
    whenever [v] has at most 65536 components, each of them zero or a
    normal [float32] of magnitude at least 2^-50 and below 2^50, and one of
    them of magnitude at least 2^-20.  When [v] is all zero the returned
    vector is all zero, of norm 0; and there are replies that are not all
    zero whose vector has norm 0 as well. *)
Theorem embed_float32_rows (image : Type) (env : Env image (list f32))
    (cfg : PipelineConfig) (texts : list str) (s : State (list f32)) :
  (forall raw, l2_normalize env raw = embedding_row raw) ->
  let reply := embeddings env (embed_model cfg) in
  (texts = [] -> embed env cfg texts s = Raise ValueError s) /\
  (texts <> [] ->
   embed env cfg texts s
   = Ret (map (fun t => embedding_row (reply t)) texts)
       (add_calls s (map (CallEmbeddings (embed_model cfg)) texts))) /\
  (forall t,
     let v := asarray32 (reply t) in
     embedding_row (reply t)
     = map (fun x => f32_div x (f32_add (linalg_norm v) eps32)) v /\
     length (embedding_row (reply t)) = length (reply t) /\
     (forallb in_range v = true -> existsb sizable v = true ->
      Z.of_nat (length v) <= 65536 ->
      (Rabs (euclid_norm (embedding_row (reply t)) - 1)
       <= (2 * INR (length v) + 40) * f32_epsilon)%R) /\
     (all_zero v = true ->
      all_zero (embedding_row (reply t)) = true /\
      euclid_norm (embedding_row (reply t)) = 0%R)) /\
  (exists raw,
     all_zero (asarray32 raw) = false /\
     euclid_norm (embedding_row raw) = 0%R).
Proof.
  intros Hl2 reply. split; [|split; [|split]].
  - intros ->. reflexivity.
  - intros Hne. destruct texts as [|t texts]; [contradiction|].
    rewrite embed_returns. f_equal.
    apply map_ext. intros t'. apply Hl2.
  - intros t v. split; [reflexivity|]. split; [apply length_embedding_row|]. split.
    + intros Hr Hs Hn. apply l2_normalize32_unit; assumption.
    + intros Hz. split; [now apply l2_normalize32_zeros|].
      apply euclid_norm_zeros. now apply l2_normalize32_zeros.
  - exists big_raw. split; [reflexivity|].
    replace (embedding_row big_raw) with [S754_zero false; S754_zero false]
      by (vm_compute; reflexivity).
    exact euclid_norm_zero_row.
Qed.

(** ** Instances of the further properties *)

Lemma normalize_ws_empty_iff_witness : In 97%N (normalize_ws (lit "  a  ")).
Proof.
  apply (proj2 (normalize_ws_empty_iff (lit "  a  ")) 97%N);
    [reflexivity | vm_compute; tauto].
Defined.

Lemma embed_one_vector_per_text_witness :
  embed mixed_env sample_cfg [lit "a"; lit "b"] fresh_state
  = Ret (map (fun t => l2_normalize mixed_env
                         (embeddings mixed_env (embed_model sample_cfg) t))
           [lit "a"; lit "b"])
      (add_calls fresh_state
         (map (CallEmbeddings (embed_model sample_cfg)) [lit "a"; lit "b"])).
Proof.
  apply (proj1 (embed_one_vector_per_text unit unit mixed_env sample_cfg
                  [lit "a"; lit "b"] fresh_state)).
  discriminate.
Defined.

Lemma ingest_folder_own_errors_leave_store_witness :
  exists s',
    ingest_folder blank_env sample_cfg 1 (lit "/data") fresh_state
    = Raise (RuntimeError (lit "No text extracted from supported files.")) s' /\
    same_store fresh_state s'.
Proof.
  assert (R : exists s',
             ingest_folder blank_env sample_cfg 1 (lit "/data") fresh_state
             = Raise (RuntimeError (lit "No text extracted from supported files.")) s')
    by (vm_compute; eexists; reflexivity).
  destruct R as [s' R]. exists s'. split; [exact R|].
  apply (ingest_folder_own_errors_leave_store unit unit blank_env sample_cfg 1
           (lit "/data") fresh_state s' _ R).
  right. eexists. split; [reflexivity|]. right. left. reflexivity.
Defined.

Lemma mixed_run :
  exists s', ingest_folder mixed_env sample_cfg 1 (lit "/data") fresh_state = Ret tt s'.
Proof. vm_compute. eexists. reflexivity. Defined.

Lemma ingest_folder_index_aligned_witness :
  exists s',
    ingest_folder mixed_env sample_cfg 1 (lit "/data") fresh_state = Ret tt s' /\
    index_file (disk s') = store_index s' /\ meta_file (disk s') = Some (meta s').
Proof.
  destruct mixed_run as [s' R]. exists s'. split; [exact R|].
  destruct (ingest_folder_index_aligned unit unit mixed_env sample_cfg 1 (lit "/data")
              fresh_state s' R) as (_ & _ & H1 & H2).
  split; assumption.
Defined.

Lemma ingest_folder_records_wellformed_witness :
  exists s',
    ingest_folder mixed_env sample_cfg 1 (lit "/data") fresh_state = Ret tt s' /\
    Forall
      (fun m =>
         exists p,
           In p (filter (supported mixed_env) (walk mixed_env (abspath mixed_env (lit "/data")))) /\
           record_of_file mixed_env (abspath mixed_env (lit "/data")) p m)
      (meta s').
Proof.
  destruct mixed_run as [s' R]. exists s'. split; [exact R|].
  exact (ingest_folder_records_wellformed unit unit mixed_env sample_cfg 1 (lit "/data")
           fresh_state s' R).
Defined.

Lemma ingest_folder_manifest_witness :
  exists s' m,
    ingest_folder mixed_env sample_cfg 1 (lit "/data") fresh_state = Ret tt s' /\
    manifest_file (disk s') = Some m /\
    exists q, dict_get m (lit "t.csv")
              = Some (sha256_file mixed_env
                        (path_join mixed_env (abspath mixed_env (lit "/data")) q)).
Proof.
  destruct mixed_run as [s' R].
  destruct (ingest_folder_manifest unit unit mixed_env sample_cfg 1 (lit "/data")
              fresh_state s' R) as (m & Hm & _ & Hkeys).
  exists s', m. split; [exact R|]. split; [exact Hm|].
  destruct (Hkeys (lit "t.csv")) as (q & _ & _ & G).
  { vm_compute. tauto. }
  exists q. exact G.
Defined.

Lemma ingest_folder_needs_dependency_witness :
  ~ exists s',
      ingest_folder no_pdf_env sample_cfg 1 (lit "/data") fresh_state = Ret tt s'.
Proof.
  intros [s' H]. revert H.
  apply (ingest_folder_needs_dependency unit unit no_pdf_env sample_cfg 1 (lit "/data")
           (lit "scan.pdf") fresh_state s').
  - vm_compute. tauto.
  - left. split; reflexivity.
Defined.

Lemma query_returns_and_only_reads_witness :
  exists ans s',
    query (sample_env [] (fun _ => []) (fun _ => []) (fun _ => []) [-1; 0])
      sample_cfg (lit "why?") ready_state = Ret ans s' /\
    strip ans = ans /\ same_store ready_state s'.
Proof.
  apply (query_returns_and_only_reads unit unit
           (sample_env [] (fun _ => []) (fun _ => []) (fun _ => []) [-1; 0])
           sample_cfg (lit "why?") ready_state [tt]).
  - reflexivity.
  - reflexivity.
  - intros i [<-|[<-|[]]]; simpl; lia.
Defined.

Lemma load_after_ingest_witness :
  exists s',
    ingest_folder mixed_env sample_cfg 1 (lit "/data") fresh_state = Ret tt s' /\
    load (new_pipeline (disk s'))
    = Ret tt {| store_index := store_index s'; meta := meta s';
                disk := disk (new_pipeline (disk s'));
                calls := calls (new_pipeline (disk s')) |}.
Proof.
  destruct mixed_run as [s' R]. exists s'. split; [exact R|].
  apply (load_after_ingest unit unit mixed_env sample_cfg 1 (lit "/data")
           fresh_state s' (new_pipeline (disk s')) R).
  reflexivity.
Defined.

Lemma main_ask_before_ingest_witness :
  main mixed_env 1 ask_args empty_disk
  = Raise (FileNotFoundError (lit "Index not found. Build index first."))
      (new_pipeline empty_disk).
Proof.
  apply (main_ask_before_ingest unit unit mixed_env 1 ask_args empty_disk
           119%N (lit "hy?")).
  - left. reflexivity.
  - reflexivity.
  - left. reflexivity.
Defined.

Lemma main_ingest_then_ask_witness :
  exists s',
    main mixed_env 1 ingest_args empty_disk = Ret [] s' /\
    main mixed_env 0 ask_args (disk s')
    = bind (query mixed_env (main_config ask_args) (lit "why?")) (fun ans => ret [ans])
        {| store_index := store_index s'; meta := meta s'; disk := disk s';
           calls := [] |}.
Proof.
  assert (R : exists s', main mixed_env 1 ingest_args empty_disk = Ret [] s')
    by (vm_compute; eexists; reflexivity).
  destruct R as [s' R]. exists s'. split; [exact R|].
  apply (main_ingest_then_ask unit unit mixed_env 1 0 ingest_args ask_args empty_disk
           47%N (lit "data") 119%N (lit "hy?") [] s').
  - reflexivity.
  - exact R.
  - left. reflexivity.
  - reflexivity.
Defined.

Lemma ingest_folder_terminates_witness :
  exists fuel0, forall fuel, (fuel0 <= fuel)%nat ->
    ingest_folder mixed_env sample_cfg fuel (lit "/data") fresh_state <> Diverge.
Proof.
  apply (ingest_folder_terminates unit unit mixed_env sample_cfg).
  - reflexivity.
  - split; [discriminate | reflexivity].
Defined.

Lemma ingest_csv_rows_witness :
  exists acc' news,
    ingest_csv mixed_env (lit "/data/t.csv") (lit "t.csv") ([], []) fresh_state
    = Ret acc' fresh_state /\
    grows ([], []) acc' news /\
    NoDup (map row news) /\
    exists m, In m news /\ row m = Some 1%nat /\ text m = csv_line [lit "1"; lit "2"].
Proof.
  destruct (ingest_csv_rows unit unit mixed_env (lit "/data/t.csv") (lit "t.csv")
              ([], []) fresh_state) as (acc' & news & Hrun & Hg & _ & Hnd & _ & Hall).
  exists acc', news. split; [exact Hrun|]. split; [exact Hg|]. split; [exact Hnd|].
  apply (Hall 1%nat [lit "1"; lit "2"]); [reflexivity | discriminate].
Defined.

Lemma embed_float32_rows_witness :
  embed (float_env sample_replies) sample_cfg [lit "plain"; lit "small"] float_state
  = Ret [embedding_row plain_raw; embedding_row small_raw]
      (add_calls float_state
         (map (CallEmbeddings (embed_model sample_cfg)) [lit "plain"; lit "small"])) /\
  (Rabs (euclid_norm (embedding_row plain_raw) - 1) <= (2 * INR 2 + 40) * f32_epsilon)%R.
Proof.
  destruct (embed_float32_rows unit (float_env sample_replies) sample_cfg
              [lit "plain"; lit "small"] float_state (fun raw => eq_refl))
    as (_ & Hret & Hrow & _).
  split.
  - apply Hret. discriminate.
  - destruct (Hrow (lit "plain")) as (_ & _ & Hnorm & _).
    apply Hnorm; [reflexivity | reflexivity | vm_compute; discriminate].
Defined.
